(** * Pod BLE session engine: a shallow embedding of [windows/pod_ble_core.cpp]

    The development follows the class [PodBLECore]: the address codec used by
    [OnAdvertisementReceived] and [Connect], the packet reassembler
    ([ProcessPacket], [FinishMessage]), Smart Peek ([PerformSmartPeek],
    [SnapToStandardInterval]), the watchdog loop and the session operations
    ([DownloadFile], [CancelDownload], [Disconnect]).

    Integers are [Z] with the C++ conversions written out, bytes are
    [Byte.byte], [std::string] is a list of characters, the members of the
    class are a record, and member functions are computations in a small
    monad that threads the object, collects the calls made to the outside
    (callbacks, GATT writes, detached threads) and propagates C++
    exceptions. *)

From Stdlib Require Import ZArith List Strings.String Strings.Ascii Strings.Byte Bool Lia Floats Uint63.
Import ListNotations.
Open Scope Z_scope.

(** ** Machine integers and bytes *)

Module Cxx.

(** C++ exceptions that the modelled code can raise. *)
Inductive exn : Type :=
| invalid_argument   (* std::stoul: no conversion could be performed *)
| out_of_range       (* std::stoul: value does not fit unsigned long *)
| system_error       (* std::thread::join on the calling thread *)
| hresult_error      (* a failed WinRT call *)
| length_error.      (* std::vector::reserve beyond max_size() *)

Inductive result (A : Type) : Type :=
| Ok (a : A)
| Throw (e : exn).
Arguments Ok {A} a.
Arguments Throw {A} e.

Definition u8 (b : byte) : Z := Z.of_N (Byte.to_N b).

Definition UINT32_MOD : Z := 2 ^ 32.
Definition UINT64_MOD : Z := 2 ^ 64.
(** [unsigned long] is 32 bits wide on Windows (LLP64). *)
Definition ULONG_MAX : Z := 2 ^ 32 - 1.
Definition INT64_MAX : Z := 2 ^ 63 - 1.

Definition to_uint32 (z : Z) : Z := z mod UINT32_MOD.
Definition to_uint64 (z : Z) : Z := z mod UINT64_MOD.
(** Conversion to [int]: reduction modulo 2^32 into [-2^31, 2^31). *)
Definition to_int (z : Z) : Z := (z + 2 ^ 31) mod UINT32_MOD - 2 ^ 31.

(** [b0 | (b1 << 8) | (b2 << 16) | (b3 << 24)] on promoted bytes, before
    the conversion to the destination type. *)
Definition le32 (b0 b1 b2 b3 : byte) : Z :=
  Z.lor (u8 b0) (Z.lor (Z.shiftl (u8 b1) 8)
    (Z.lor (Z.shiftl (u8 b2) 16) (Z.shiftl (u8 b3) 24))).

Definition le16 (b0 b1 : byte) : Z := Z.lor (u8 b0) (Z.shiftl (u8 b1) 8).

(** [static_cast<double>(int)]. *)
Definition double_of_int (z : Z) : float :=
  if z <? 0 then PrimFloat.opp (PrimFloat.of_uint63 (Uint63.of_Z (- z)))
  else PrimFloat.of_uint63 (Uint63.of_Z z).

(** [v[i]] on a [std::vector<uint8_t>]; every use below is guarded by a
    size test. *)
Definition at_ (v : list byte) (i : nat) : byte := nth i v x00.

Definition size {A : Type} (v : list A) : Z := Z.of_nat (List.length v).

End Cxx.
Import Cxx.

(** ** Address codec *)

Module AddressCodec.

Definition std_string := list ascii.

Definition hex_digit (d : Z) : ascii :=
  nth (Z.to_nat d) (list_ascii_of_string "0123456789abcdef") "0"%char.

(** Digits of [v] in base 16, most significant first; [fuel] bounds the
    number of digits (16 for a [uint64_t]). *)
Fixpoint hex_digits (fuel : nat) (v : Z) (acc : std_string) : std_string :=
  match fuel with
  | O => acc
  | S k =>
      let acc' := hex_digit (v mod 16) :: acc in
      if v / 16 =? 0 then acc' else hex_digits k (v / 16) acc'
  end.

(** [ss << std::hex << std::setfill(fill) << std::setw(width) << v]:
    right-justified, padded on the left. *)
Definition ostream_hex (width : nat) (fill : ascii) (v : Z) : std_string :=
  let ds := hex_digits 16 v [] in
  repeat fill (width - List.length ds) ++ ds.

(** The body of [for (int i = 5; i >= 0; i--)], for [i = n-1] down to 0. *)
Fixpoint format_loop (n : nat) (addr : Z) : std_string :=
  match n with
  | O => []
  | S i =>
      ostream_hex 2 "0" (Z.land (Z.shiftr addr (Z.of_nat i * 8)) 255)
        ++ (if 0 <? Z.of_nat i then [":"%char] else [])
        ++ format_loop i addr
  end.

(** The address string built in [OnAdvertisementReceived]. *)
Definition FormatAddress (addr : Z) : string :=
  string_of_list_ascii (format_loop 6 addr).

(** *** [std::stoul(str, nullptr, 16)] *)

Definition isspace (c : ascii) : bool :=
  let n := Z.of_nat (nat_of_ascii c) in
  (n =? 32) || ((9 <=? n) && (n <=? 13)).

Definition hexval (c : ascii) : option Z :=
  let n := Z.of_nat (nat_of_ascii c) in
  if (48 <=? n) && (n <=? 57) then Some (n - 48)
  else if (97 <=? n) && (n <=? 102) then Some (n - 87)
  else if (65 <=? n) && (n <=? 70) then Some (n - 55)
  else None.

Definition is_hex (c : ascii) : bool :=
  match hexval c with Some _ => true | None => false end.

Fixpoint skip_space (s : std_string) : std_string :=
  match s with
  | c :: r => if isspace c then skip_space r else s
  | [] => []
  end.

Definition take_sign (s : std_string) : bool * std_string :=
  match s with
  | "-"%char :: r => (true, r)
  | "+"%char :: r => (false, r)
  | _ => (false, s)
  end.

(** The optional "0x" / "0X" prefix counts only when a digit follows. *)
Definition skip_0x (s : std_string) : std_string :=
  match s with
  | "0"%char :: x :: d :: r =>
      if (Ascii.eqb x "x" || Ascii.eqb x "X") && is_hex d then d :: r else s
  | _ => s
  end.

(** Longest run of hex digits: its value, how many there were. *)
Fixpoint hex_run (s : std_string) (acc : Z) (n : nat) : Z * nat :=
  match s with
  | c :: r =>
      match hexval c with
      | Some d => hex_run r (acc * 16 + d) (S n)
      | None => (acc, n)
      end
  | [] => (acc, n)
  end.

Definition stoul16 (str : std_string) : result Z :=
  let '(neg, s) := take_sign (skip_space str) in
  let '(v, n) := hex_run (skip_0x s) 0 O in
  match n with
  | O => Throw invalid_argument
  | _ =>
      if ULONG_MAX <? v then Throw out_of_range
      else Ok (if neg then to_uint32 (- v) else v)
  end.

(** *** [std::getline(ss, byte_str, ':')] *)

(** Characters up to the delimiter (which is consumed) or the end. *)
Fixpoint read_until (delim : ascii) (ss : std_string)
  : std_string * std_string :=
  match ss with
  | [] => ([], [])
  | c :: r =>
      if Ascii.eqb c delim then ([], r)
      else let '(t, r') := read_until delim r in (c :: t, r')
  end.

(** One call: fails when the stream is already at its end. *)
Definition getline (ss : std_string) (delim : ascii)
  : option (std_string * std_string) :=
  match ss with
  | [] => None
  | _ => Some (read_until delim ss)
  end.

(** [while (std::getline(ss, byte_str, ':'))
       addr = (addr << 8) | std::stoul(byte_str, nullptr, 16);]
    Every successful [getline] consumes a character, so [fuel] above the
    length of the stream is never exhausted. *)
Fixpoint parse_loop (fuel : nat) (ss : std_string) (addr : Z) : result Z :=
  match fuel with
  | O => Ok addr
  | S k =>
      match getline ss ":" with
      | None => Ok addr
      | Some (byte_str, ss') =>
          match stoul16 byte_str with
          | Ok v => parse_loop k ss' (Z.lor (to_uint64 (Z.shiftl addr 8)) v)
          | Throw e => Throw e
          end
      end
  end.

(** The address parsed at the head of [Connect]. *)
Definition ParseAddress (deviceAddress : string) : result Z :=
  let ss := list_ascii_of_string deviceAddress in
  parse_loop (S (List.length ss)) ss 0.

End AddressCodec.
Import AddressCodec.

(** ** The session object *)

Module Session.

(** Threads of control that enter the class. *)
Inductive thread_id : Type :=
| HostThread       (* the plugin's method-call handler *)
| NotifyThread     (* the transport's event delivery *)
| WatchdogThread   (* the thread held in [watchdog_thread_] *)
| DetachedThread.  (* a [std::thread(...).detach()] sleeper *)

(** Bodies of the detached sleepers. *)
Inductive task : Type :=
| AutoStopScan   (* StartScan: [if (alive->load()) StopScan();] *)
| SettleFinish   (* ProcessPacket: [if (alive->load()) FinishMessage();] *)
| SkipSignal.    (* CancelDownload: [on_payload_({0xDA})] *)

(** Calls that leave the object. *)
Inductive effect : Type :=
| Status (msg : string)
| ScanResult (name : string) (id : string) (rssi : Z)
| Payload (data : list byte)
| GattWrite (data : list byte)
| ConnectRequest (address : Z)
| DeviceClose
| ExecutionState (flags : Z)
| Detach (delay_ms : Z) (t : task).

Record tm : Type := {
  tm_sec : Z; tm_min : Z; tm_hour : Z; tm_mday : Z; tm_mon : Z; tm_year : Z }.

(** What a member function reads from its surroundings.  The steady
    clock counts milliseconds, the unit of every duration in the class. *)
Record Platform : Type := {
  this_thread : thread_id;   (* std::this_thread::get_id() *)
  steady_now : Z;            (* std::chrono::steady_clock::now(), in ms *)
  mktime : tm -> Z }.        (* the C library's calendar conversion *)

(** The members of the class, grouped as the header groups them.  A
    [std::function] is modelled by whether it holds a callable. *)
Record Callbacks : Type := {
  on_status_ : bool; on_scan_ : bool; on_payload_ : bool }.

(** Handles are modelled by whether they are non-null; the notify
    characteristic also records whether [ValueChanged] is registered. *)
Record BleObjects : Type := {
  watcher_ : bool;
  device_ : bool;
  write_char_ : bool;
  notify_char_ : option bool }.

Record Reassembly : Type := {
  payload_buffer_ : list byte;
  received_packet_count_ : Z;
  total_expected_packets_ : Z;
  actual_packet_size_ : Z;
  current_message_type_ : byte }.

Record SmartPeek : Type := {
  filter_start_ : Z;
  filter_end_ : Z;
  is_filtering_ : bool;
  is_smart_peek_done_ : bool }.

(** [watchdog_thread_] is modelled by [joinable()]. *)
Record Watchdog : Type := {
  watchdog_running_ : bool;
  watchdog_thread_ : bool;
  last_packet_time_ : Z }.

(** [alive_] is the shared liveness flag that the detached threads
    capture; it is set until the destructor clears it. *)
Record PodBLECore : Type := {
  callbacks : Callbacks;
  ble : BleObjects;
  asm : Reassembly;
  peek : SmartPeek;
  wdog : Watchdog;
  alive_ : bool }.

Definition set_callbacks (c : Callbacks) (s : PodBLECore) : PodBLECore :=
  {| callbacks := c; ble := ble s; asm := asm s; peek := peek s;
     wdog := wdog s; alive_ := alive_ s |}.
Definition set_ble (b : BleObjects) (s : PodBLECore) : PodBLECore :=
  {| callbacks := callbacks s; ble := b; asm := asm s; peek := peek s;
     wdog := wdog s; alive_ := alive_ s |}.
Definition set_asm (a : Reassembly) (s : PodBLECore) : PodBLECore :=
  {| callbacks := callbacks s; ble := ble s; asm := a; peek := peek s;
     wdog := wdog s; alive_ := alive_ s |}.
Definition set_peek (p : SmartPeek) (s : PodBLECore) : PodBLECore :=
  {| callbacks := callbacks s; ble := ble s; asm := asm s; peek := p;
     wdog := wdog s; alive_ := alive_ s |}.
Definition set_wdog (w : Watchdog) (s : PodBLECore) : PodBLECore :=
  {| callbacks := callbacks s; ble := ble s; asm := asm s; peek := peek s;
     wdog := w; alive_ := alive_ s |}.
Definition set_alive (b : bool) (s : PodBLECore) : PodBLECore :=
  {| callbacks := callbacks s; ble := ble s; asm := asm s; peek := peek s;
     wdog := wdog s; alive_ := b |}.

(** The object as the constructor and the member initialisers leave it. *)
Definition initial : PodBLECore :=
  {| callbacks := {| on_status_ := false; on_scan_ := false;
                     on_payload_ := false |};
     ble := {| watcher_ := false; device_ := false; write_char_ := false;
               notify_char_ := None |};
     asm := {| payload_buffer_ := []; received_packet_count_ := 0;
               total_expected_packets_ := 0; actual_packet_size_ := 0;
               current_message_type_ := x00 |};
     peek := {| filter_start_ := 0; filter_end_ := 0;
                is_filtering_ := false; is_smart_peek_done_ := false |};
     wdog := {| watchdog_running_ := false; watchdog_thread_ := false;
                last_packet_time_ := 0 |};
     alive_ := true |}.

(** *** The monad of member functions *)

Inductive outcome (A : Type) : Type :=
| Ret (a : A) (s : PodBLECore) (out : list effect)
| Exc (e : exn) (s : PodBLECore) (out : list effect).
Arguments Ret {A} a s out.
Arguments Exc {A} e s out.

Definition M (A : Type) : Type := Platform -> PodBLECore -> outcome A.

Definition ret {A : Type} (a : A) : M A := fun _ s => Ret a s [].

(** Effects that happened before [o] was run. *)
Definition prepend {A : Type} (out1 : list effect) (o : outcome A)
  : outcome A :=
  match o with
  | Ret a s out2 => Ret a s (out1 ++ out2)
  | Exc e s out2 => Exc e s (out1 ++ out2)
  end.

Definition bind {A B : Type} (c : M A) (k : A -> M B) : M B :=
  fun p s =>
    match c p s with
    | Ret a s1 out1 => prepend out1 (k a p s1)
    | Exc e s1 out1 => Exc e s1 out1
    end.

Definition get : M PodBLECore := fun _ s => Ret s s [].
Definition modify (f : PodBLECore -> PodBLECore) : M unit :=
  fun _ s => Ret tt (f s) [].
Definition ask : M Platform := fun p s => Ret p s [].
Definition emit (e : effect) : M unit := fun _ s => Ret tt s [e].
Definition throw {A : Type} (e : exn) : M A := fun _ s => Exc e s [].
Definition when (b : bool) (c : M unit) : M unit := if b then c else ret tt.

Notation "x <- c ;; k" := (bind c (fun x => k))
  (at level 61, c at next level, right associativity).
Notation "c ;; k" := (bind c (fun _ => k))
  (at level 61, right associativity).

Definition effects_of {A : Type} (o : outcome A) : list effect :=
  match o with Ret _ _ out => out | Exc _ _ out => out end.
Definition state_of {A : Type} (o : outcome A) : PodBLECore :=
  match o with Ret _ s _ => s | Exc _ s _ => s end.

(** *** Sleep prevention *)

Definition ES_CONTINUOUS : Z := 0x80000000.
Definition ES_SYSTEM_REQUIRED : Z := 0x00000001.

Definition PreventSleep : M unit :=
  emit (ExecutionState (Z.lor ES_CONTINUOUS ES_SYSTEM_REQUIRED)).
Definition AllowSleep : M unit := emit (ExecutionState ES_CONTINUOUS).

(** *** Helpers *)

Definition reset_download_state (s : PodBLECore) : PodBLECore :=
  set_peek {| filter_start_ := filter_start_ (peek s);
              filter_end_ := filter_end_ (peek s);
              is_filtering_ := is_filtering_ (peek s);
              is_smart_peek_done_ := false |}
    (set_asm {| payload_buffer_ := [];
                received_packet_count_ := 0;
                total_expected_packets_ := 0;
                actual_packet_size_ := 0;
                current_message_type_ := current_message_type_ (asm s) |}
       s).

Definition ResetDownloadState : M unit := modify reset_download_state.

Definition targets : list Z :=
  [100; 200; 300; 400; 500; 600; 700; 800; 900; 1000].

(** One turn of the loop of [SnapToStandardInterval] on
    [(closest, minDiff)]. *)
Definition snap_step (raw : Z) (acc : Z * Z) (t : Z) : Z * Z :=
  let '(closest, minDiff) := acc in
  let d := Z.abs (raw - t) in
  if d <? minDiff then (t, d) else (closest, minDiff).

Definition SnapToStandardInterval (raw : Z) : Z :=
  fst (fold_left (snap_step raw) targets (1000, INT64_MAX)).

(** *** Watchdog control *)

(** [join()] called from the thread it designates raises
    [std::system_error] (resource_deadlock_would_occur).  From another
    thread it returns once the watchdog thread has ended: the caller is
    held until the watchdog's sleep is over, up to one second, and the
    watchdog goes through the two tests of its loop body once more before
    it finds [watchdog_running_] cleared.  Here the call returns at once.
    A call that is held from T to the watchdog's poll at T' behaves as the
    same call made at T' right after a poll at T'; so the instant of an
    effect that follows a join is a lower bound of the real one, and the
    poll that ends the wait is a poll of the schedule before the call. *)
Definition StopWatchdog : M unit :=
  modify (fun s =>
    set_wdog {| watchdog_running_ := false;
                watchdog_thread_ := watchdog_thread_ (wdog s);
                last_packet_time_ := last_packet_time_ (wdog s) |} s) ;;
  s <- get ;;
  p <- ask ;;
  if watchdog_thread_ (wdog s) then
    match this_thread p with
    | WatchdogThread => throw system_error
    | _ =>
        modify (fun s =>
          set_wdog {| watchdog_running_ := watchdog_running_ (wdog s);
                      watchdog_thread_ := false;
                      last_packet_time_ := last_packet_time_ (wdog s) |} s)
    end
  else ret tt.

Definition StartWatchdog : M unit :=
  StopWatchdog ;;
  modify (fun s =>
    set_wdog {| watchdog_running_ := true;
                watchdog_thread_ := true;
                last_packet_time_ := last_packet_time_ (wdog s) |} s).

(** *** Write *)

Definition WriteCommand (data : list byte) : M unit :=
  s <- get ;;
  if write_char_ (ble s) then emit (GattWrite data) else ret tt.

(** *** Download *)

Definition CancelDownload : M unit :=
  StopWatchdog ;;
  WriteCommand [x08] ;;
  ResetDownloadState ;;
  emit (Detach 600 SkipSignal).

Definition FinishMessage : M unit :=
  StopWatchdog ;;
  s <- get ;;
  let data := payload_buffer_ (asm s) in
  modify (fun s =>
    set_asm {| payload_buffer_ := [];
               received_packet_count_ := received_packet_count_ (asm s);
               total_expected_packets_ := total_expected_packets_ (asm s);
               actual_packet_size_ := actual_packet_size_ (asm s);
               current_message_type_ := current_message_type_ (asm s) |} s) ;;
  when (on_payload_ (callbacks s)) (emit (Payload data)) ;;
  modify (fun s =>
    set_asm {| payload_buffer_ := [];
               received_packet_count_ := 0;
               total_expected_packets_ := 0;
               actual_packet_size_ := actual_packet_size_ (asm s);
               current_message_type_ := current_message_type_ (asm s) |} s).

(** *** Smart Peek *)

(** The [struct tm] filled from the header in the payload buffer. *)
Definition header_tm (buf : list byte) : tm :=
  let yr := le16 (at_ buf 5) (at_ buf 6) in
  let mon := u8 (at_ buf 7) in
  let day := u8 (at_ buf 8) in
  let hr := u8 (at_ buf 9) in
  let min := u8 (at_ buf 10) in
  let sec := u8 (at_ buf 11) in
  {| tm_sec := sec; tm_min := min; tm_hour := hr; tm_mday := day;
     tm_mon := mon - 1; tm_year := yr - 1900 |}.

Definition startTimeMs (p : Platform) (buf : list byte) : Z :=
  mktime p (header_tm buf) * 1000.

Definition interval (buf : list byte) : Z :=
  let t1 :=
    to_uint32 (le32 (at_ buf 1) (at_ buf 2) (at_ buf 3) (at_ buf 4)) in
  let t2 :=
    to_uint32 (le32 (at_ buf 65) (at_ buf 66) (at_ buf 67) (at_ buf 68)) in
  SnapToStandardInterval (to_uint32 (t2 - t1)).

Definition ppp (s : PodBLECore) : Z :=
  Z.max (actual_packet_size_ (asm s) - 5) 59.

(** [/] on [int64_t] truncates towards zero. *)
Definition dur (s : PodBLECore) : Z :=
  Z.quot (total_expected_packets_ (asm s) * ppp s) 64
    * interval (payload_buffer_ (asm s)).

(** The condition of the final [if] of [PerformSmartPeek]. *)
Definition outside_filter (p : Platform) (s : PodBLECore) : bool :=
  let start := startTimeMs p (payload_buffer_ (asm s)) in
  ((0 <? filter_end_ (peek s)) && (filter_end_ (peek s) <? start))
  || ((0 <? filter_start_ (peek s))
      && (start + dur s <? filter_start_ (peek s))).

Definition PerformSmartPeek : M unit :=
  s <- get ;;
  p <- ask ;;
  if size (payload_buffer_ (asm s)) <? 129 then ret tt
  else if outside_filter p s then CancelDownload
  else ret tt.

(** *** Packet reassembly *)

(** The [int] handed to [payload_buffer_.reserve]. *)
Definition estimatedSize (s : PodBLECore) : Z :=
  let safeSize := Z.max (actual_packet_size_ (asm s)) 64 in
  to_int (total_expected_packets_ (asm s) * (safeSize - 5) + 2048).

(** [last_packet_time_ = t]. *)
Definition stamped (t : Z) (s : PodBLECore) : PodBLECore :=
  set_wdog {| watchdog_running_ := watchdog_running_ (wdog s);
              watchdog_thread_ := watchdog_thread_ (wdog s);
              last_packet_time_ := t |} s.

(** The expected fragment count in bytes 5-8, little endian, as [int]. *)
Definition header_count (packet : list byte) : Z :=
  to_int (le32 (at_ packet 5) (at_ packet 6) (at_ packet 7) (at_ packet 8)).

(** [if (actual_packet_size_ == 0) actual_packet_size_ = packet.size();] *)
Definition size_noted (packet : list byte) (s : PodBLECore) : PodBLECore :=
  if actual_packet_size_ (asm s) =? 0 then
    set_asm {| payload_buffer_ := payload_buffer_ (asm s);
               received_packet_count_ := received_packet_count_ (asm s);
               total_expected_packets_ := total_expected_packets_ (asm s);
               actual_packet_size_ := to_int (size packet);
               current_message_type_ := current_message_type_ (asm s) |} s
  else s.

(** The [received_packet_count_ == 0] branch, past the size test: the
    buffer restarts with the type byte and the bytes from offset 9. *)
Definition opened (packet : list byte) (s : PodBLECore) : PodBLECore :=
  set_asm {| payload_buffer_ := at_ packet 0 :: skipn 9 packet;
             received_packet_count_ := 1;
             total_expected_packets_ := header_count packet;
             actual_packet_size_ := actual_packet_size_ (asm s);
             current_message_type_ := at_ packet 0 |} s.

(** The [else] branch: the bytes from offset 5 are appended. *)
Definition appended (packet : list byte) (s : PodBLECore) : PodBLECore :=
  set_asm {| payload_buffer_ := payload_buffer_ (asm s) ++ skipn 5 packet;
             received_packet_count_ := received_packet_count_ (asm s) + 1;
             total_expected_packets_ := total_expected_packets_ (asm s);
             actual_packet_size_ := actual_packet_size_ (asm s);
             current_message_type_ := current_message_type_ (asm s) |} s.

(** The assignments of that branch that precede the reservation: the
    type, the expected count, [payload_buffer_.clear()]. *)
Definition announced (packet : list byte) (s : PodBLECore) : PodBLECore :=
  set_asm {| payload_buffer_ := [];
             received_packet_count_ := received_packet_count_ (asm s);
             total_expected_packets_ := header_count packet;
             actual_packet_size_ := actual_packet_size_ (asm s);
             current_message_type_ := at_ packet 0 |} s.

(** [payload_buffer_.reserve(n)] with [n] an [int]: converted to
    [size_t], a negative [n] is above [max_size()] and the call throws
    [std::length_error].  Otherwise only the capacity changes, which the
    list does not carry (an allocation that fails on a large estimate is
    outside the model). *)
Definition reserve (n : Z) : M unit :=
  if n <? 0 then throw length_error else ret tt.

Definition first_fragment (packet : list byte) : M unit :=
  modify (announced packet) ;;
  s <- get ;;
  reserve (estimatedSize s) ;;
  modify (opened packet).

Definition next_fragment (packet : list byte) : M unit :=
  modify (appended packet).

(** The test that guards the call of [PerformSmartPeek] in
    [ProcessPacket]. *)
Definition peek_due (s : PodBLECore) : bool :=
  is_filtering_ (peek s)
  && Byte.eqb (current_message_type_ (asm s)) x03
  && negb (is_smart_peek_done_ (peek s))
  && (129 <=? size (payload_buffer_ (asm s))).

(** The completion check of [ProcessPacket]. *)
Definition complete (s : PodBLECore) : bool :=
  (0 <? total_expected_packets_ (asm s))
  && (total_expected_packets_ (asm s) <=? received_packet_count_ (asm s)).

(** [is_smart_peek_done_ = true]. *)
Definition peek_done (s : PodBLECore) : PodBLECore :=
  set_peek {| filter_start_ := filter_start_ (peek s);
              filter_end_ := filter_end_ (peek s);
              is_filtering_ := is_filtering_ (peek s);
              is_smart_peek_done_ := true |} s.

(** The Smart Peek test and the completion check that close
    [ProcessPacket]. *)
Definition after_fragment : M unit :=
  s <- get ;;
  (if peek_due s then PerformSmartPeek ;; modify peek_done else ret tt) ;;
  s <- get ;;
  if complete s then emit (Detach 50 SettleFinish) else ret tt.

Definition ProcessPacket (packet : list byte) : M unit :=
  if size packet <? 5 then ret tt
  else
    modify (size_noted packet) ;;
    s <- get ;;
    if received_packet_count_ (asm s) =? 0 then
      if size packet <? 9 then ret tt
      else first_fragment packet ;; after_fragment
    else next_fragment packet ;; after_fragment.

(** The [ValueChanged] handler registered in [ConnectAsync]. *)
Definition OnValueChanged (data : list byte) : M unit :=
  p <- ask ;;
  modify (stamped (steady_now p)) ;;
  s <- get ;;
  if (0 <? total_expected_packets_ (asm s))
     || (received_packet_count_ (asm s) =? 0)
  then ProcessPacket data
  else when (on_payload_ (callbacks s)) (emit (Payload data)).

(** *** The watchdog thread *)

Definition progress (s : PodBLECore) : float :=
  PrimFloat.div (double_of_int (received_packet_count_ (asm s)))
                (double_of_int (total_expected_packets_ (asm s))).

(** The literal [0.98] as a double. *)
Definition threshold : float := 0x1.f5c28f5c28f5cp-1%float.

(** The body of the loop after the one-second sleep; the result tells
    whether the loop goes on. *)
Definition watchdog_iteration : M bool :=
  s <- get ;;
  p <- ask ;;
  let elapsed := steady_now p - last_packet_time_ (wdog s) in
  if (0 <? total_expected_packets_ (asm s)) && (60000 <? elapsed) then
    FinishMessage ;; ret false
  else if (0 <? total_expected_packets_ (asm s)) && (2500 <? elapsed) then
    if PrimFloat.ltb threshold (progress s) then FinishMessage ;; ret false
    else ret true
  else ret true.

Definition at_time {A : Type} (t : Z) (c : M A) : M A :=
  fun p s =>
    c {| this_thread := this_thread p; steady_now := t;
         mktime := mktime p |} s.

(** The thread function of [StartWatchdog], run over the instants at
    which its sleeps end. *)
Fixpoint watchdog_thread (wakeups : list Z) : M unit :=
  match wakeups with
  | [] => ret tt
  | t :: rest =>
      s <- get ;;
      if watchdog_running_ (wdog s) then
        continue <- at_time t watchdog_iteration ;;
        if continue then watchdog_thread rest else ret tt
      else ret tt
  end.

(** *** Download commands *)

Fixpoint before_paren (name : std_string) : std_string :=
  match name with
  | [] => []
  | c :: r => if Ascii.eqb c "(" then [] else c :: before_paren r
  end.

(** [erase(find_last_not_of(' ') + 1)]. *)
Fixpoint trim_trailing_spaces (name : std_string) : std_string :=
  match name with
  | [] => []
  | c :: r =>
      match trim_trailing_spaces r with
      | [] => if Ascii.eqb c " " then [] else [c]
      | r' => c :: r'
      end
  end.

Definition cleanName (filename : string) : std_string :=
  trim_trailing_spaces (before_paren (list_ascii_of_string filename)).

Definition download_command (filename : string) : list byte :=
  let name := firstn 32 (map byte_of_ascii (cleanName filename)) in
  [x06; x20] ++ name ++ repeat x00 (32 - List.length name).

Definition DownloadFile (filename : string) (start end_ : Z)
    (totalFiles currentIndex : Z) : M unit :=
  StopWatchdog ;;
  ResetDownloadState ;;
  modify (fun s =>
    set_peek {| filter_start_ := start;
                filter_end_ := end_;
                is_filtering_ := (0 <? start) || (0 <? end_);
                is_smart_peek_done_ := is_smart_peek_done_ (peek s) |} s) ;;
  WriteCommand (download_command filename) ;;
  p <- ask ;;
  modify (stamped (steady_now p)) ;;
  StartWatchdog.

(** *** Scanning *)

Definition StartScan : M unit :=
  modify (fun s =>
    set_ble {| watcher_ := true; device_ := device_ (ble s);
               write_char_ := write_char_ (ble s);
               notify_char_ := notify_char_ (ble s) |} s) ;;
  s <- get ;;
  when (on_status_ (callbacks s)) (emit (Status "Scanning...")) ;;
  emit (Detach 15000 AutoStopScan).

Definition StopScan : M unit :=
  modify (fun s =>
    set_ble {| watcher_ := false; device_ := device_ (ble s);
               write_char_ := write_char_ (ble s);
               notify_char_ := notify_char_ (ble s) |} s).

Definition toupper (c : ascii) : ascii :=
  let n := nat_of_ascii c in
  if (97 <=? n)%nat && (n <=? 122)%nat then ascii_of_nat (n - 32) else c.

Fixpoint starts_with (prefix str : std_string) : bool :=
  match prefix, str with
  | [], _ => true
  | a :: prefix', b :: str' => Ascii.eqb a b && starts_with prefix' str'
  | _ :: _, [] => false
  end.

Definition OnAdvertisementReceived (localName : string) (addr : Z)
    (rssi : Z) : M unit :=
  let upperName := map toupper (list_ascii_of_string localName) in
  if negb (starts_with (list_ascii_of_string "POD") upperName) then ret tt
  else
    s <- get ;;
    when (on_scan_ (callbacks s))
         (emit (ScanResult localName (FormatAddress addr) rssi)).

(** *** Connection *)

(** [Connect] up to the call of [ConnectAsync(addr)]; an exception of
    [std::stoul] leaves the function. *)
Definition Connect (deviceAddress : string) : M unit :=
  StopScan ;;
  s <- get ;;
  when (on_status_ (callbacks s)) (emit (Status "Connecting...")) ;;
  match ParseAddress deviceAddress with
  | Ok addr => emit (ConnectRequest addr)
  | Throw e => throw e
  end.

(** What the transport answers to the awaits of [ConnectAsync]: whether
    each lookup succeeds, and which await, if any, raises
    [winrt::hresult_error]. *)
Record GattAnswers : Type := {
  device_found : bool;
  services_found : bool;
  notify_found : bool;
  notify_enabled : bool;
  write_found : bool;
  failing_await : option nat }.

Definition co_await (a : GattAnswers) (k : nat) : M unit :=
  match failing_await a with
  | Some j => if Nat.eqb j k then throw hresult_error else ret tt
  | None => ret tt
  end.

(** [try { body } catch (const winrt::hresult_error&) { handler }]. *)
Definition try_catch_hresult (body handler : M unit) : M unit :=
  fun p s =>
    match body p s with
    | Exc hresult_error s1 out1 => prepend out1 (handler p s1)
    | o => o
    end.

Definition status (msg : string) : M unit :=
  s <- get ;;
  when (on_status_ (callbacks s)) (emit (Status msg)).

Definition set_notify_char (n : option bool) : M unit :=
  modify (fun s =>
    set_ble {| watcher_ := watcher_ (ble s); device_ := device_ (ble s);
               write_char_ := write_char_ (ble s);
               notify_char_ := n |} s).

Definition set_write_char (w : bool) : M unit :=
  modify (fun s =>
    set_ble {| watcher_ := watcher_ (ble s); device_ := device_ (ble s);
               write_char_ := w;
               notify_char_ := notify_char_ (ble s) |} s).

Definition set_device (d : bool) : M unit :=
  modify (fun s =>
    set_ble {| watcher_ := watcher_ (ble s); device_ := d;
               write_char_ := write_char_ (ble s);
               notify_char_ := notify_char_ (ble s) |} s).

Definition ConnectAsync (address : Z) (a : GattAnswers) : M unit :=
  try_catch_hresult
    (co_await a 0 ;;
     set_device (device_found a) ;;
     if negb (device_found a) then status "Device Not Found"
     else
       PreventSleep ;;
       co_await a 1 ;;
       if negb (services_found a) then status "Service Not Found"
       else
         co_await a 2 ;;
         (if notify_found a then
            set_notify_char (Some false) ;;
            co_await a 3 ;;
            when (notify_enabled a) (set_notify_char (Some true))
          else ret tt) ;;
         co_await a 4 ;;
         when (write_found a) (set_write_char true) ;;
         status "Connected" ;;
         WriteCommand [x08])
    (status "Connection Error").

Definition Disconnect : M unit :=
  StopWatchdog ;;
  AllowSleep ;;
  set_notify_char None ;;
  set_write_char false ;;
  s <- get ;;
  (if device_ (ble s) then emit DeviceClose ;; set_device false
   else ret tt) ;;
  ResetDownloadState ;;
  status "Disconnected".

Definition SetCallbacks (st sc pl : bool) : M unit :=
  modify (set_callbacks
            {| on_status_ := st; on_scan_ := sc; on_payload_ := pl |}).

(** [~PodBLECore]. *)
Definition Destroy : M unit :=
  modify (set_alive false) ;;
  StopWatchdog ;;
  Disconnect ;;
  AllowSleep.

(** The body of a detached thread once its sleep is over. *)
Definition run_task (t : task) : M unit :=
  s <- get ;;
  match t with
  | AutoStopScan => when (alive_ s) StopScan
  | SettleFinish => when (alive_ s) FinishMessage
  | SkipSignal =>
      when (alive_ s && on_payload_ (callbacks s)) (emit (Payload [xda]))
  end.


(** The two tests of [watchdog_iteration] as one condition on the time
    elapsed since the last fragment. *)
Definition watchdog_forces (elapsed : Z) (s : PodBLECore) : bool :=
  (0 <? total_expected_packets_ (asm s))
  && ((60000 <? elapsed)
      || ((2500 <? elapsed) && PrimFloat.ltb threshold (progress s))).

(** *** States left behind *)

(** After [StopWatchdog] has joined the watchdog thread. *)
Definition watchdog_stopped (s : PodBLECore) : PodBLECore :=
  set_wdog {| watchdog_running_ := false;
              watchdog_thread_ := false;
              last_packet_time_ := last_packet_time_ (wdog s) |} s.

(** After [FinishMessage] has handed the buffer over. *)
Definition message_closed (s : PodBLECore) : PodBLECore :=
  set_asm {| payload_buffer_ := [];
             received_packet_count_ := 0;
             total_expected_packets_ := 0;
             actual_packet_size_ := actual_packet_size_ (asm s);
             current_message_type_ := current_message_type_ (asm s) |} s.

End Session.
Import Session.

(** ** The session in time *)

Module Sched.

(** The public operations, as the plugin calls them. *)
Inductive call : Type :=
| CallSetCallbacks (st sc pl : bool)
| CallStartScan
| CallStopScan
| CallConnect (deviceAddress : string)
| CallDisconnect
| CallWriteCommand (data : list byte)
| CallDownloadFile (filename : string) (start end_ : Z)
                   (totalFiles currentIndex : Z)
| CallCancelDownload
| CallDestroy.

Definition run_call (c : call) : M unit :=
  match c with
  | CallSetCallbacks st sc pl => SetCallbacks st sc pl
  | CallStartScan => StartScan
  | CallStopScan => StopScan
  | CallConnect a => Connect a
  | CallDisconnect => Disconnect
  | CallWriteCommand d => WriteCommand d
  | CallDownloadFile f a b t i => DownloadFile f a b t i
  | CallCancelDownload => CancelDownload
  | CallDestroy => Destroy
  end.

(** What can happen to a session. *)
Inductive input : Type :=
| TimePasses (dt : Z)
| HostCall (c : call)
| Advertisement (localName : string) (addr : Z) (rssi : Z)
| ConnectCompletes (a : GattAnswers)
| Notification (data : list byte)
| Wakes (k : nat)          (* the k-th detached sleeper *)
| WatchdogWakes.

Record World : Type := {
  session : PodBLECore;
  clock : Z;
  sleepers : list (Z * task);     (* wake-up instant, body *)
  connecting : list Z;            (* ConnectAsync coroutines in flight *)
  observed : list (Z * effect);   (* effects, stamped with the clock *)
  uncaught : option (thread_id * exn) }.

Definition boot (t0 : Z) : World :=
  {| session := initial; clock := t0; sleepers := []; connecting := [];
     observed := []; uncaught := None |}.

Definition spawned (now : Z) (out : list effect) : list (Z * task) :=
  flat_map (fun e => match e with
                     | Detach d t => [(now + d, t)]
                     | _ => []
                     end) out.

Definition requested (out : list effect) : list Z :=
  flat_map (fun e => match e with
                     | ConnectRequest a => [a]
                     | _ => []
                     end) out.

Section WithLibc.

Variable libc_mktime : tm -> Z.

Definition platform (th : thread_id) (w : World) : Platform :=
  {| this_thread := th; steady_now := clock w; mktime := libc_mktime |}.

(** Runs [c] on thread [th] and files what it did. *)
Definition exec (th : thread_id) (c : M unit) (w : World) : World :=
  let o := c (platform th w) (session w) in
  {| session := state_of o;
     clock := clock w;
     sleepers := sleepers w ++ spawned (clock w) (effects_of o);
     connecting := connecting w ++ requested (effects_of o);
     observed := observed w ++ map (pair (clock w)) (effects_of o);
     uncaught := match o with
                 | Ret _ _ _ => None
                 | Exc e _ _ => Some (th, e)
                 end |}.

Definition remove_nth {A : Type} (k : nat) (l : list A) : list A :=
  firstn k l ++ skipn (S k) l.

(** One input; [None] when it cannot happen in [w].  Nothing is
    modelled past an uncaught exception. *)
Definition step (i : input) (w : World) : option World :=
  match uncaught w with
  | Some _ => None
  | None =>
      match i with
      | TimePasses dt =>
          if dt <? 0 then None
          else Some {| session := session w; clock := clock w + dt;
                       sleepers := sleepers w;
                       connecting := connecting w;
                       observed := observed w; uncaught := None |}
      | HostCall c =>
          if alive_ (session w) then Some (exec HostThread (run_call c) w)
          else None
      | Advertisement n a r =>
          if watcher_ (ble (session w)) then
            Some (exec NotifyThread (OnAdvertisementReceived n a r) w)
          else None
      | ConnectCompletes a =>
          match connecting w with
          | address :: rest =>
              Some (exec NotifyThread (ConnectAsync address a)
                      {| session := session w; clock := clock w;
                         sleepers := sleepers w; connecting := rest;
                         observed := observed w; uncaught := None |})
          | [] => None
          end
      | Notification data =>
          match notify_char_ (ble (session w)) with
          | Some true => Some (exec NotifyThread (OnValueChanged data) w)
          | _ => None
          end
      | Wakes k =>
          match nth_error (sleepers w) k with
          | Some (due, t) =>
              if due <=? clock w then
                Some (exec DetachedThread (run_task t)
                        {| session := session w; clock := clock w;
                           sleepers := remove_nth k (sleepers w);
                           connecting := connecting w;
                           observed := observed w; uncaught := None |})
              else None
          | None => None
          end
      | WatchdogWakes =>
          if watchdog_thread_ (wdog (session w))
             && watchdog_running_ (wdog (session w))
          then Some (exec WatchdogThread
                       (continue <- watchdog_iteration ;; ret tt) w)
          else None
      end
  end.

Fixpoint run (inputs : list input) (w : World) : option World :=
  match inputs with
  | [] => Some w
  | i :: rest =>
      match step i w with
      | Some w' => run rest w'
      | None => None
      end
  end.

Definition reachable (w : World) : Prop :=
  exists t0 inputs, run inputs (boot t0) = Some w.

End WithLibc.

(** The payload events of a log. *)
Definition payloads_in (log : list (Z * effect)) : list (Z * list byte) :=
  flat_map (fun te => match snd te with
                      | Payload d => [(fst te, d)]
                      | _ => []
                      end) log.

Definition payloads (w : World) : list (Z * list byte) :=
  payloads_in (observed w).

(** No Smart Peek is outstanding on what is buffered. *)
Definition quiet (s : PodBLECore) : Prop := peek_due s = false.

(** [c], run on platform [p], leaves a quiet session quiet, whether it
    returns or throws. *)
Definition keeps_quiet {A : Type} (c : M A) (p : Platform) : Prop :=
  forall s, quiet s -> quiet (state_of (c p s)).

End Sched.
Import Sched.

(** ** The address format, as the specification words it *)

Module AddressSpec.

(** Tokens joined by colons. *)
Fixpoint join_colon (toks : list std_string) : std_string :=
  match toks with
  | [] => []
  | [t] => t
  | t :: rest => t ++ ":"%char :: join_colon rest
  end.

(** A token of one to eight hexadecimal digits. *)
Definition hex_token (t : std_string) : bool :=
  (1 <=? List.length t)%nat && (List.length t <=? 8)%nat
  && forallb is_hex t.

Definition hex_value (t : std_string) : Z := fst (hex_run t 0 O).

(** The fold of [Connect] on token values. *)
Definition fold_step (acc v : Z) : Z :=
  Z.lor (to_uint64 (Z.shiftl acc 8)) v.









End AddressSpec.
Import AddressSpec.

(** ** Smart Peek, as the specification words it *)

Module SmartPeekSpec.

(** A 32-bit little-endian counter at offset [off]. *)
Definition counter_at (buf : list byte) (off : nat) : Z :=
  u8 (at_ buf off) + 2 ^ 8 * u8 (at_ buf (off + 1))
  + 2 ^ 16 * u8 (at_ buf (off + 2)) + 2 ^ 24 * u8 (at_ buf (off + 3)).

(** The raw interval: the difference of the counters at offsets 1 and
    65, in 32-bit unsigned arithmetic. *)
Definition raw_interval (buf : list byte) : Z :=
  (counter_at buf 65 - counter_at buf 1) mod 2 ^ 32.

(** [c] is the member of the standard intervals nearest to [raw], the
    first one when several are equally near. *)
Definition first_nearest (raw c : Z) : Prop :=
  exists pre post,
    targets = pre ++ c :: post
    /\ Forall (fun u => Z.abs (raw - c) < Z.abs (raw - u)) pre
    /\ Forall (fun u => Z.abs (raw - c) <= Z.abs (raw - u)) post.

(** The six-field timestamp at payload bytes 5-11. *)
Definition timestamp (buf : list byte) : tm :=
  {| tm_sec := u8 (at_ buf 11);
     tm_min := u8 (at_ buf 10);
     tm_hour := u8 (at_ buf 9);
     tm_mday := u8 (at_ buf 8);
     tm_mon := u8 (at_ buf 7) - 1;
     tm_year := u8 (at_ buf 5) + 256 * u8 (at_ buf 6) - 1900 |}.

Definition start_ms (conv : tm -> Z) (buf : list byte) : Z :=
  conv (timestamp buf) * 1000.

(** [expected * max(fragment_size - 5, 59) / 64 * snapped]. *)
Definition duration (expected fragment_size snapped : Z) : Z :=
  Z.quot (expected * Z.max (fragment_size - 5) 59) 64 * snapped.

(** The window misses the filter, a bound being compared when it is
    nonzero. *)
Definition misses_nonzero (start d fs fe : Z) : bool :=
  (negb (fe =? 0) && (fe <? start))
  || (negb (fs =? 0) && (start + d <? fs)).

(** The same, a bound being compared when it is positive. *)
Definition misses_positive (start d fs fe : Z) : bool :=
  ((0 <? fe) && (fe <? start)) || ((0 <? fs) && (start + d <? fs)).

(** [t] lies in the window and within the positive bounds of the
    filter. *)
Definition common_instant (start d fs fe t : Z) : Prop :=
  start <= t <= start + d /\ (0 < fs -> fs <= t) /\ (0 < fe -> t <= fe).

End SmartPeekSpec.
Import SmartPeekSpec.

(** ** Concrete platforms and inputs *)

Module Samples.

(** Days from 1970-01-01 to the civil date [y]-[m]-[d], [1 <= m <= 12]. *)
Definition days_from_civil (y m d : Z) : Z :=
  let y' := if m <=? 2 then y - 1 else y in
  let era := y' / 400 in
  let yoe := y' - era * 400 in
  let mp := if 2 <? m then m - 3 else m + 9 in
  let doy := (153 * mp + 2) / 5 + d - 1 in
  let doe := yoe * 365 + yoe / 4 - yoe / 100 + doy in
  era * 146097 + doe - 719468.

(** [mktime] on a host whose local time is UTC without daylight saving;
    -1 outside 1970-01-01 .. 3000-12-31, as the 64-bit CRT answers. *)
Definition mktime_utc (v : tm) : Z :=
  let y := 1900 + tm_year v + tm_mon v / 12 in
  let m := tm_mon v mod 12 + 1 in
  let secs := days_from_civil y m (tm_mday v) * 86400
              + tm_hour v * 3600 + tm_min v * 60 + tm_sec v in
  if (secs <? 0) || (32535215999 <? secs) then -1 else secs.

Definition on_thread (th : thread_id) (t : Z) (mk : tm -> Z) : Platform :=
  {| this_thread := th; steady_now := t; mktime := mk |}.

(** A transport that finds the device, the service and both
    characteristics. *)
Definition all_found : GattAnswers :=
  {| device_found := true; services_found := true; notify_found := true;
     notify_enabled := true; write_found := true; failing_await := None |}.

(** A connected session with all three callbacks set. *)
Definition connect_inputs : list input :=
  [HostCall (CallSetCallbacks true true true);
   HostCall (CallConnect "0a:1b:2c:3d:4e:5f");
   ConnectCompletes all_found].

(** The world once [connect_inputs] have happened at time 0. *)
Definition connected : World :=
  Eval vm_compute in
    match run mktime_utc connect_inputs (boot 0) with
    | Some w => w
    | None => boot 0
    end.

(** The first fragment of a recording (type 0x03) announcing [count]
    fragments, 137 bytes long: the header of the recording says
    2024-01-01 00:00:00 and its two counters are 0 and 100. *)
Definition recording_head (count : byte) : list byte :=
  [x03; x00; x00; x00; x00; count; x00; x00; x00]
    ++ [x00; x00; x00; x00]
    ++ [xe8; x07; x01; x01; x00; x00; x00]
    ++ repeat x00 53
    ++ [x64; x00; x00; x00]
    ++ repeat x00 60.

(** A short first fragment of a message of type 0x01. *)
Definition short_head (count : byte) : list byte :=
  [x01; x00; x00; x00; x00; count; x00; x00; x00; xaa; xbb].

(** A continuation fragment with three payload bytes. *)
Definition tail3 (a b c : byte) : list byte :=
  [x01; x00; x00; x00; x00; a; b; c].

(** A session that has just buffered [recording_head 3] under the
    filter window [[fs, fe]]: Smart Peek is due. *)
Definition peeking (fs fe : Z) : PodBLECore :=
  set_asm {| payload_buffer_ := x03 :: skipn 9 (recording_head x03);
             received_packet_count_ := 1;
             total_expected_packets_ := 3;
             actual_packet_size_ := 137;
             current_message_type_ := x03 |}
    (set_peek {| filter_start_ := fs; filter_end_ := fe;
                 is_filtering_ := true; is_smart_peek_done_ := false |}
       (set_callbacks {| on_status_ := true; on_scan_ := true;
                         on_payload_ := true |} initial)).

End Samples.
Import Samples.

(** ** Messages as they arrive *)

Module Arrival.


(** The members that Smart Peek reads when it examines the message
    [msg] that the first fragment [f1] has opened on [s]: the count of
    [f1] and the fragment size that [f1] leaves. *)
Definition examined (s : PodBLECore) (f1 msg : list byte) : PodBLECore :=
  set_asm {| payload_buffer_ := msg;
             received_packet_count_ := 1;
             total_expected_packets_ := header_count f1;
             actual_packet_size_ :=
               actual_packet_size_ (asm (size_noted f1 s));
             current_message_type_ := at_ f1 0 |} s.






End Arrival.
Import Arrival.

(** ** Closed forms and invariants *)

Module Forms.

(** A digit as [std::hex] prints it. *)
Definition lower_hex (c : ascii) : bool :=
  let n := Z.of_nat (nat_of_ascii c) in
  ((48 <=? n) && (n <=? 57)) || ((97 <=? n) && (n <=? 102)).

(** The text with every character passed through [toupper]. *)
Definition upper (text : string) : string :=
  string_of_list_ascii (map toupper (list_ascii_of_string text)).

(** Octets read as one number, most significant first. *)
Definition big_endian (octets : list Z) : Z :=
  fold_left (fun acc b => acc * 256 + b) octets 0.

(** A token of one or two hexadecimal digits. *)
Definition short_token (t : std_string) : bool :=
  (1 <=? List.length t)%nat && (List.length t <=? 2)%nat
  && forallb is_hex t.

(** Tokens each followed by a colon. *)
Definition colon_terminated (toks : list std_string) : std_string :=
  flat_map (fun t => t ++ [":"%char]) toks.

(** The name begins with [P], [O], [D] in either case. *)
Definition pod_prefix (name : std_string) : bool :=
  match name with
  | c1 :: c2 :: c3 :: _ =>
      (Ascii.eqb c1 "P" || Ascii.eqb c1 "p")
      && (Ascii.eqb c2 "O" || Ascii.eqb c2 "o")
      && (Ascii.eqb c3 "D" || Ascii.eqb c3 "d")
  | _ => false
  end.

(** The standard interval by thresholds: a midpoint goes to the lower
    neighbour. *)
Definition snap_table (raw : Z) : Z :=
  if raw <=? 150 then 100
  else if raw <=? 250 then 200
  else if raw <=? 350 then 300
  else if raw <=? 450 then 400
  else if raw <=? 550 then 500
  else if raw <=? 650 then 600
  else if raw <=? 750 then 700
  else if raw <=? 850 then 800
  else if raw <=? 950 then 900
  else 1000.

(** The status strings among the effects. *)
Definition statuses (out : list effect) : list string :=
  flat_map (fun e => match e with Status m => [m] | _ => [] end) out.

(** The GATT writes among the effects. *)
Definition writes (out : list effect) : list (list byte) :=
  flat_map (fun e => match e with GattWrite d => [d] | _ => [] end) out.

(** [c], run on [p] from a state in [I], returns in [I] or throws in
    [E]; every effect on the way is in [Q]. *)
Definition maintains (I : PodBLECore -> Prop)
    (E : exn -> PodBLECore -> Prop) (Q : effect -> Prop) {A : Type}
    (c : M A) (p : Platform) : Prop :=
  forall s, I s ->
    match c p s with
    | Ret _ s' out => I s' /\ Forall Q out
    | Exc e s' out => E e s' /\ Forall Q out
    end.

(** [I] on a world that runs, [E] on one that an exception has ended. *)
Definition holds_in (I : PodBLECore -> Prop)
    (E : exn -> PodBLECore -> Prop) (w : World) : Prop :=
  match uncaught w with
  | None => I (session w)
  | Some (_, e) => E e (session w)
  end.

(** The body that [step] runs for an input, and the thread it runs on. *)
Inductive entry : input -> thread_id -> M unit -> Prop :=
| entry_call (c : call) : entry (HostCall c) HostThread (run_call c)
| entry_advertisement (n : string) (a r : Z) :
    entry (Advertisement n a r) NotifyThread (OnAdvertisementReceived n a r)
| entry_connect (address : Z) (a : GattAnswers) :
    entry (ConnectCompletes a) NotifyThread (ConnectAsync address a)
| entry_notification (d : list byte) :
    entry (Notification d) NotifyThread (OnValueChanged d)
| entry_task (k : nat) (t : task) :
    entry (Wakes k) DetachedThread (run_task t)
| entry_watchdog :
    entry WatchdogWakes WatchdogThread
          (continue <- watchdog_iteration ;; ret tt).

(** An input that is not a call of the host. *)
Definition from_outside (i : input) : bool :=
  match i with HostCall _ => false | _ => true end.

(** [I] unless the exception is the one of a thread joining itself. *)
Definition unless_joining (I : PodBLECore -> Prop) (e : exn)
    (s : PodBLECore) : Prop :=
  match e with system_error => True | _ => I s end.

(** [I] whatever the exception. *)
Definition always (I : PodBLECore -> Prop) (e : exn) (s : PodBLECore)
  : Prop := I s.

Definition any_effect (e : effect) : Prop := True.

(** Not the start of the thread that sends the skip signal. *)
Definition no_skip_signal (e : effect) : Prop := e <> Detach 600 SkipSignal.

(** The Smart Peek members are [pk]. *)
Definition peek_is (pk : SmartPeek) (s : PodBLECore) : Prop := peek s = pk.

(** The running flag and the thread handle of the watchdog agree. *)
Definition flags_agree (s : PodBLECore) : Prop :=
  watchdog_running_ (wdog s) = watchdog_thread_ (wdog s).

(** No fragment counted: nothing buffered.  Some fragment counted: the
    buffer starts with the message type. *)
Definition message_shape (s : PodBLECore) : Prop :=
  0 <= received_packet_count_ (asm s)
  /\ (received_packet_count_ (asm s) = 0 -> payload_buffer_ (asm s) = [])
  /\ (received_packet_count_ (asm s) <> 0 ->
      exists rest,
        payload_buffer_ (asm s) = current_message_type_ (asm s) :: rest).

(** The filtering flag says that a bound is positive. *)
Definition filter_flag_ok (s : PodBLECore) : Prop :=
  is_filtering_ (peek s)
  = (0 <? filter_start_ (peek s)) || (0 <? filter_end_ (peek s)).

End Forms.
Import Forms.

(** ** Further sessions *)

Module Scenes.

(** A download of [REC] is requested under the filter [[fs, fe]] and the
    head of a three-fragment recording has arrived: Smart Peek has run. *)
Definition peeked (fs fe : Z) : World :=
  match run mktime_utc
            [HostCall (CallDownloadFile "REC" fs fe 1 1);
             Notification (recording_head x03)] connected with
  | Some w => w
  | None => connected
  end.

(** A one-fragment message completes, a further fragment arrives within
    the 50 ms of settling, and the first settling thread has run. *)
Definition late_fragment : World :=
  match run mktime_utc
            [Notification (short_head x01);
             Notification (tail3 x01 x02 x03);
             TimePasses 50; Wakes 0] connected with
  | Some w => w
  | None => connected
  end.

(** A download of [REC] is requested from 1 ms on, on the connected
    sample session: the filter is active and the watchdog runs. *)
Definition requested : World :=
  Eval vm_compute in
    match run mktime_utc [HostCall (CallDownloadFile "REC" 1 0 1 1)]
              connected with
    | Some w => w
    | None => connected
    end.

(** A download is cancelled, the object is destroyed, and the 600 ms of
    the skip signal have passed. *)
Definition destroyed : World :=
  match run mktime_utc
            [HostCall CallCancelDownload; HostCall CallDestroy;
             TimePasses 600] connected with
  | Some w => w
  | None => connected
  end.

(** A first fragment that announces -100 fragments. *)
Definition negative_head : list byte :=
  [x01; x00; x00; x00; x00; x9c; xff; xff; xff; xaa; xbb].

(** A transport on which the service has neither characteristic. *)
Definition bare_service : GattAnswers :=
  {| device_found := true; services_found := true; notify_found := false;
     notify_enabled := false; write_found := false;
     failing_await := None |}.

End Scenes.
Import Scenes.

(** ** The method-call handler of [windows/pod_connector_plugin.cpp] *)

Module Plugin.

(** The alternatives of [flutter::EncodableValue] that the handler tells
    apart; [EvOther] stands for the remaining ones (double, the typed
    lists other than bytes, list, custom). *)
#[warnings="-register-all"]
Inductive EncodableValue : Type :=
| EvNull
| EvBool (b : bool)
| EvInt32 (n : Z)
| EvInt64 (n : Z)
| EvString (text : string)
| EvUint8List (bytes : list byte)
| EvMap (entries : list (EncodableValue * EncodableValue))
| EvOther.

(** [arguments()] is a pointer, null when the call carries none. *)
Record MethodCall : Type := {
  method_name : string;
  arguments : option EncodableValue }.

(** What is done with [result]. *)
Inductive reply : Type :=
| ReplySuccess
| ReplyError (code message : string)
| ReplyNotImplemented.

Inductive plugin_exn : Type :=
| bad_variant_access     (* std::get on another alternative *)
| core_exn (e : exn).    (* an exception leaving a member of the core *)

(** The handler either completes [result] or is left by an exception
    before it does. *)
Inductive handled : Type :=
| Replied (r : reply) (s : PodBLECore) (out : list effect)
| Unanswered (e : plugin_exn) (s : PodBLECore) (out : list effect).

(** [ble_core_->F(...); result->Success();] *)
Definition then_Success (o : outcome unit) : handled :=
  match o with
  | Ret _ s out => Replied ReplySuccess s out
  | Exc e s out => Unanswered (core_exn e) s out
  end.

(** [args->find(flutter::EncodableValue(key))]. *)
Fixpoint map_find (key : string)
    (entries : list (EncodableValue * EncodableValue))
  : option EncodableValue :=
  match entries with
  | [] => None
  | (EvString k, v) :: rest =>
      if String.eqb k key then Some v else map_find key rest
  | _ :: rest => map_find key rest
  end.

(** [std::get<T>(v)]; [None] stands for [std::bad_variant_access]. *)
Definition get_string (v : EncodableValue) : option string :=
  match v with EvString t => Some t | _ => None end.

Definition get_int64 (v : EncodableValue) : option Z :=
  match v with EvInt64 n => Some n | _ => None end.

Definition get_int32 (v : EncodableValue) : option Z :=
  match v with EvInt32 n => Some n | _ => None end.

(** [if (it != args->end()) x = std::get<T>(it->second);] on a variable
    that holds [default]. *)
Definition read {A : Type} (get : EncodableValue -> option A) (default : A)
    (it : option EncodableValue) : option A :=
  match it with
  | Some v => get v
  | None => Some default
  end.

Definition or_throw {A : Type} (x : option A) (s : PodBLECore)
    (k : A -> handled) : handled :=
  match x with
  | Some a => k a
  | None => Unanswered bad_variant_access s []
  end.

Definition HandleMethodCall (method_call : MethodCall) (p : Platform)
    (s : PodBLECore) : handled :=
  let method := method_name method_call in
  if String.eqb method "startScan" then then_Success (StartScan p s)
  else if String.eqb method "stopScan" then then_Success (StopScan p s)
  else if String.eqb method "connect" then
    match arguments method_call with
    | Some (EvString args) => then_Success (Connect args p s)
    | _ => Replied (ReplyError "INVALID_ARG" "Device ID required") s []
    end
  else if String.eqb method "disconnect" then
    then_Success (Disconnect p s)
  else if String.eqb method "writeCommand" then
    match arguments method_call with
    | Some (EvUint8List bytes) => then_Success (WriteCommand bytes p s)
    | _ => Replied (ReplyError "INVALID_ARG" "Byte array required") s []
    end
  else if String.eqb method "downloadFile" then
    match arguments method_call with
    | Some (EvMap args) =>
        let filename_it := map_find "filename" args in
        let start_it := map_find "filterStart" args in
        let end_it := map_find "filterEnd" args in
        let total_it := map_find "totalFiles" args in
        let index_it := map_find "currentIndex" args in
        or_throw (read get_string ""%string filename_it) s (fun filename =>
        or_throw (read get_int64 0 start_it) s (fun start =>
        or_throw (read get_int64 0 end_it) s (fun end_ =>
        or_throw (read get_int32 1 total_it) s (fun totalFiles =>
        or_throw (read get_int32 1 index_it) s (fun currentIndex =>
          then_Success
            (DownloadFile filename start end_ totalFiles currentIndex
                          p s))))))
    | _ =>
        Replied (ReplyError "INVALID_ARG" "Download arguments required") s []
    end
  else if String.eqb method "cancelDownload" then
    then_Success (CancelDownload p s)
  else if String.eqb method "requestBatteryExemption" then
    Replied ReplySuccess s []
  else Replied ReplyNotImplemented s [].

(** The names that the handler knows. *)
Definition methods : list string :=
  ["startScan"; "stopScan"; "connect"; "disconnect"; "writeCommand";
   "downloadFile"; "cancelDownload"; "requestBatteryExemption"]%string.

End Plugin.
Import Plugin.

(** * Properties *)

(** ** Address codec *)

Section AddressCodecFacts.

Lemma hexval_cases (c : ascii) (d : Z) :
  hexval c = Some d ->
  (48 <= Z.of_nat (nat_of_ascii c) <= 57
   /\ d = Z.of_nat (nat_of_ascii c) - 48)
  \/ (97 <= Z.of_nat (nat_of_ascii c) <= 102
      /\ d = Z.of_nat (nat_of_ascii c) - 87)
  \/ (65 <= Z.of_nat (nat_of_ascii c) <= 70
      /\ d = Z.of_nat (nat_of_ascii c) - 55).
Proof.
  unfold hexval. cbv zeta.
  destruct ((48 <=? Z.of_nat (nat_of_ascii c))
            && (Z.of_nat (nat_of_ascii c) <=? 57)) eqn:E1.
  { intros H; inversion H; lia. }
  destruct ((97 <=? Z.of_nat (nat_of_ascii c))
            && (Z.of_nat (nat_of_ascii c) <=? 102)) eqn:E2.
  { intros H; inversion H; lia. }
  destruct ((65 <=? Z.of_nat (nat_of_ascii c))
            && (Z.of_nat (nat_of_ascii c) <=? 70)) eqn:E3.
  { intros H; inversion H; lia. }
  discriminate.
Qed.

Lemma is_hex_inv (c : ascii) :
  is_hex c = true -> exists d, hexval c = Some d.
Proof.
  unfold is_hex. destruct (hexval c) as [d|]; [eauto|discriminate].
Qed.

Lemma hex_not_colon (c : ascii) : is_hex c = true -> Ascii.eqb c ":" = false.
Proof.
  intros H. destruct (Ascii.eqb_spec c ":") as [->|]; [discriminate H|reflexivity].
Qed.

Lemma read_until_token (t rest : std_string) :
  forallb is_hex t = true ->
  read_until ":" (t ++ ":"%char :: rest) = (t, rest).
Proof.
  induction t as [|c t IH]; simpl; intros H; [reflexivity|].
  apply andb_true_iff in H as [Hc Ht].
  rewrite (hex_not_colon c Hc), (IH Ht). reflexivity.
Qed.

Lemma read_until_last (t : std_string) :
  forallb is_hex t = true -> read_until ":" t = (t, []).
Proof.
  induction t as [|c t IH]; simpl; intros H; [reflexivity|].
  apply andb_true_iff in H as [Hc Ht].
  rewrite (hex_not_colon c Hc), (IH Ht). reflexivity.
Qed.

Lemma hex_run_all (t : std_string) :
  forallb is_hex t = true ->
  forall acc n, 0 <= acc ->
    snd (hex_run t acc n) = (n + List.length t)%nat
    /\ acc * 16 ^ Z.of_nat (List.length t) <= fst (hex_run t acc n)
       < (acc + 1) * 16 ^ Z.of_nat (List.length t).
Proof.
  induction t as [|c t IH]; intros H acc n Hacc.
  - cbn [hex_run fst snd List.length Z.of_nat]. rewrite Z.pow_0_r. lia.
  - simpl in H. apply andb_true_iff in H as [Hc Ht].
    cbn [hex_run]. unfold is_hex in Hc.
    destruct (hexval c) as [d|] eqn:Hd; [|discriminate].
    assert (Hr : 0 <= d < 16).
    { pose proof (hexval_cases c d Hd). lia. }
    destruct (IH Ht (acc * 16 + d) (S n)) as [Hn Hv]; [lia|].
    split; [rewrite Hn; simpl; lia|].
    replace (Z.of_nat (List.length (c :: t)))
      with (1 + Z.of_nat (List.length t)) by (simpl List.length; lia).
    rewrite Z.pow_add_r by lia. change (16 ^ 1) with 16.
    assert (0 < 16 ^ Z.of_nat (List.length t)) by (apply Z.pow_pos_nonneg; lia).
    nia.
Qed.

Lemma stoul16_token (t : std_string) :
  hex_token t = true -> stoul16 t = Ok (hex_value t).
Proof.
  unfold hex_token. intros H.
  apply andb_true_iff in H as [H Hhex].
  apply andb_true_iff in H as [Hlo Hhi].
  apply Nat.leb_le in Hlo, Hhi.
  destruct t as [|c t]; [simpl in Hlo; lia|].
  pose proof Hhex as Hall.
  simpl in Hhex. apply andb_true_iff in Hhex as [Hc Ht].
  assert (Hsp : skip_space (c :: t) = c :: t).
  { simpl. replace (isspace c) with false; [reflexivity|].
    destruct (is_hex_inv c Hc) as [d Hd].
    pose proof (hexval_cases c d Hd) as Hcases.
    unfold isspace. cbv zeta.
    destruct (Z.of_nat (nat_of_ascii c) =? 32) eqn:E1; [lia|].
    destruct ((9 <=? Z.of_nat (nat_of_ascii c))
              && (Z.of_nat (nat_of_ascii c) <=? 13)) eqn:E2;
      [lia|reflexivity]. }
  assert (Hsg : take_sign (c :: t) = (false, c :: t)).
  { unfold take_sign.
    destruct (Ascii.eqb_spec c "-") as [->|]; [discriminate Hc|].
    destruct (Ascii.eqb_spec c "+") as [->|]; [discriminate Hc|].
    destruct c as [[] [] [] [] [] [] [] []]; try reflexivity; congruence. }
  assert (Hx : skip_0x (c :: t) = c :: t).
  { unfold skip_0x.
    destruct t as [|x [|d r]];
      [destruct c as [[] [] [] [] [] [] [] []]; reflexivity
      |destruct c as [[] [] [] [] [] [] [] []]; reflexivity|].
    simpl in Ht. apply andb_true_iff in Ht as [Hxh _].
    assert (Ex : (Ascii.eqb x "x" || Ascii.eqb x "X") = false).
    { destruct (Ascii.eqb_spec x "x") as [->|]; [discriminate Hxh|].
      destruct (Ascii.eqb_spec x "X") as [->|]; [discriminate Hxh|].
      reflexivity. }
    rewrite Ex.
    destruct c as [[] [] [] [] [] [] [] []]; reflexivity. }
  unfold stoul16. rewrite Hsp, Hsg, Hx.
  destruct (hex_run_all (c :: t) Hall 0 O) as [Hn Hv]; [lia|].
  destruct (hex_run (c :: t) 0 0) as [v n] eqn:Hrun.
  unfold hex_value. rewrite Hrun. simpl fst in *. simpl snd in Hn.
  subst n. simpl Nat.add.
  assert (Hv' : v < 16 ^ 8).
  { destruct Hv as [_ Hv]. rewrite Z.mul_1_l in Hv.
    eapply Z.lt_le_trans; [exact Hv|].
    apply Z.pow_le_mono_r; simpl List.length in *; lia. }
  replace (ULONG_MAX <? v) with false; [reflexivity|].
  symmetry. apply Z.ltb_ge. unfold ULONG_MAX. change (16 ^ 8) with (2 ^ 32) in Hv'. lia.
Qed.

Lemma hex_token_chars (t : std_string) :
  hex_token t = true -> forallb is_hex t = true /\ t <> [].
Proof.
  unfold hex_token. intros H.
  apply andb_true_iff in H as [H Hhex].
  apply andb_true_iff in H as [Hlo _]. apply Nat.leb_le in Hlo.
  split; [exact Hhex|]. intros ->. simpl in Hlo. lia.
Qed.

(** The loop of [Connect] on well-formed tokens, however many. *)
Lemma parse_loop_join (toks : list std_string) :
  forallb hex_token toks = true ->
  forall fuel acc,
    (List.length (join_colon toks) < fuel)%nat ->
    parse_loop fuel (join_colon toks) acc
    = Ok (fold_left fold_step (map hex_value toks) acc).
Proof.
  induction toks as [|t rest IH]; intros Hall fuel acc Hfuel.
  - destruct fuel; reflexivity.
  - simpl in Hall. apply andb_true_iff in Hall as [Ht Hrest].
    destruct (hex_token_chars t Ht) as [Hhex Hne].
    destruct fuel as [|fuel]; [lia|].
    destruct rest as [|t' rest'].
    + cbn [join_colon] in *. cbn [parse_loop].
      unfold getline. destruct t as [|c t]; [congruence|].
      rewrite (read_until_last _ Hhex), (stoul16_token _ Ht).
      destruct fuel; reflexivity.
    + change (join_colon (t :: t' :: rest'))
        with (t ++ ":"%char :: join_colon (t' :: rest')) in *.
      cbn [parse_loop]. unfold getline.
      destruct (t ++ ":"%char :: join_colon (t' :: rest')) eqn:E;
        [destruct t; discriminate E|].
      rewrite <- E, (read_until_token _ _ Hhex), (stoul16_token _ Ht).
      rewrite IH; [reflexivity|exact Hrest|].
      rewrite <- E in Hfuel. rewrite length_app in Hfuel.
      change (List.length (":"%char :: join_colon (t' :: rest')))
        with (S (List.length (join_colon (t' :: rest')))) in Hfuel.
      lia.
Qed.


End AddressCodecFacts.

Section RoundTrip.

Lemma below_256 (P : Z -> bool) :
  forallb P (map Z.of_nat (seq 0 256)) = true ->
  forall b, 0 <= b < 256 -> P b = true.
Proof.
  intros H b Hb. rewrite forallb_forall in H. apply H.
  rewrite <- (Z2Nat.id b) by lia.
  apply in_map, in_seq. lia.
Qed.

(** What [setw(2)], [setfill('0')] and [hex] print for one octet. *)
Lemma octet_token (b : Z) :
  0 <= b < 256 ->
  hex_token (ostream_hex 2 "0" b) = true
  /\ hex_value (ostream_hex 2 "0" b) = b.
Proof.
  intros Hb.
  pose proof (below_256
    (fun b => hex_token (ostream_hex 2 "0" b)
              && (hex_value (ostream_hex 2 "0" b) =? b))) as H.
  cbv beta in H.
  specialize (H ltac:(vm_compute; reflexivity) b Hb).
  apply andb_true_iff in H as [H1 H2].
  apply Z.eqb_eq in H2. auto.
Qed.

Lemma fold_step_add (acc b : Z) :
  0 <= acc < 2 ^ 56 -> 0 <= b < 256 -> fold_step acc b = acc * 256 + b.
Proof.
  intros Hacc Hb. unfold fold_step, to_uint64, UINT64_MOD.
  rewrite Z.shiftl_mul_pow2 by lia. change (2 ^ 8) with 256.
  rewrite Z.mod_small by lia.
  rewrite <- Z.add_lor_land.
  replace (Z.land (acc * 256) b) with 0; [lia|].
  symmetry. apply Z.bits_inj'. intros n Hn.
  rewrite Z.land_spec, Z.bits_0.
  destruct (Z.lt_ge_cases n 8) as [Hlt|Hge].
  - replace (acc * 256) with (Z.shiftl acc 8)
      by (rewrite Z.shiftl_mul_pow2 by lia; reflexivity).
    rewrite Z.shiftl_spec_low by lia. reflexivity.
  - destruct (Z.eq_dec b 0) as [->|Hnz];
      [rewrite Z.bits_0; apply andb_false_r|].
    rewrite (Z.bits_above_log2 b n); [apply andb_false_r|lia|].
    assert (Z.log2 b < 8) by (apply Z.log2_lt_pow2; lia). lia.
Qed.

Lemma octet_div (addr i : Z) :
  0 <= i ->
  Z.land (Z.shiftr addr (i * 8)) 255 = (addr / 2 ^ (i * 8)) mod 256.
Proof.
  intros Hi. rewrite Z.shiftr_div_pow2 by lia.
  change 255 with (Z.ones 8). rewrite Z.land_ones by lia. reflexivity.
Qed.

End RoundTrip.

(** C9. For every 48-bit address [a], formatting it as in
    [OnAdvertisementReceived] (six colon-separated, zero-padded, lower-case
    two-digit hex octets, most significant first) and parsing the text as
    [Connect] does (split on [:], fold [acc = (acc << 8) | byte]) gives
    [a] back. *)
Theorem parse_format_roundtrip (a : Z) :
  0 <= a < 2 ^ 48 -> ParseAddress (FormatAddress a) = Ok a.
Proof.
  intros Ha. unfold ParseAddress, FormatAddress.
  rewrite list_ascii_of_string_of_list_ascii.
  set (oct := fun i : Z => (a / 2 ^ (i * 8)) mod 256).
  assert (Hoct : forall i, 0 <= oct i < 256)
    by (intros i; unfold oct; apply Z.mod_pos_bound; lia).
  assert (Hfmt : format_loop 6 a
                 = join_colon (map (ostream_hex 2 "0")
                                 [oct 5; oct 4; oct 3; oct 2; oct 1; oct 0])).
  { cbn [format_loop Z.of_nat Pos.of_succ_nat Pos.succ Z.ltb Z.compare
         Pos.compare Pos.compare_cont map join_colon].
    rewrite !octet_div by lia.
    change ([] ++ @nil ascii) with (@nil ascii). rewrite app_nil_r.
    reflexivity. }
  rewrite Hfmt.
  rewrite parse_loop_join.
  - f_equal. rewrite map_map. cbn [map fold_left].
    rewrite !(proj2 (octet_token _ (Hoct _))).
    pose proof (Hoct 0); pose proof (Hoct 1); pose proof (Hoct 2).
    pose proof (Hoct 3); pose proof (Hoct 4); pose proof (Hoct 5).
    rewrite (fold_step_add 0 (oct 5)) by lia.
    rewrite (fold_step_add _ (oct 4)) by lia.
    rewrite (fold_step_add _ (oct 3)) by lia.
    rewrite (fold_step_add _ (oct 2)) by lia.
    rewrite (fold_step_add _ (oct 1)) by lia.
    rewrite (fold_step_add _ (oct 0)) by lia.
    unfold oct in *.
    change (5 * 8) with 40 in *. change (4 * 8) with 32 in *.
    change (3 * 8) with 24 in *. change (2 * 8) with 16 in *.
    change (1 * 8) with 8 in *. change (0 * 8) with 0 in *.
    change (2 ^ 40) with (256 * 256 * 256 * 256 * 256) in *.
    change (2 ^ 32) with (256 * 256 * 256 * 256) in *.
    change (2 ^ 24) with (256 * 256 * 256) in *.
    change (2 ^ 16) with (256 * 256) in *.
    change (2 ^ 8) with 256 in *. change (2 ^ 0) with 1 in *.
    change (2 ^ 48) with (256 * 256 * 256 * 256 * 256 * 256) in Ha.
    rewrite <- !Z.div_div in * by lia.
    rewrite Z.div_1_r in *.
    set (q1 := a / 256) in *. set (q2 := q1 / 256) in *.
    set (q3 := q2 / 256) in *. set (q4 := q3 / 256) in *.
    set (q5 := q4 / 256) in *.
    pose proof (Z.div_mod a 256 ltac:(lia)).
    pose proof (Z.div_mod q1 256 ltac:(lia)).
    pose proof (Z.div_mod q2 256 ltac:(lia)).
    pose proof (Z.div_mod q3 256 ltac:(lia)).
    pose proof (Z.div_mod q4 256 ltac:(lia)).
    assert (q5 < 256).
    { unfold q5, q4, q3, q2, q1.
      repeat (apply Z.div_lt_upper_bound; [lia|]). lia. }
    assert (0 <= q5).
    { unfold q5, q4, q3, q2, q1. repeat (apply Z.div_pos; [|lia]). lia. }
    rewrite (Z.mod_small q5) by lia.
    lia.
  - cbn [map forallb].
    rewrite !(proj1 (octet_token _ (Hoct _))). reflexivity.
  - match goal with
    | |- (?n < S ?m)%nat => apply Nat.lt_succ_diag_r
    end.
Qed.

(** The round trip at one address. *)
Lemma parse_format_roundtrip_witness :
  0 <= 0x0a1b2c3d4e5f < 2 ^ 48
  /\ ParseAddress (FormatAddress 0x0a1b2c3d4e5f) = Ok 0x0a1b2c3d4e5f.
Proof.
  split; [lia|apply (parse_format_roundtrip 0x0a1b2c3d4e5f); lia].
Defined.

Section TokenFacts.


















End TokenFacts.




(** ** Session operations *)

Section SessionFacts.

Variable t : Z.
Variable mk : tm -> Z.

(** [StopWatchdog] from any thread but the watchdog's own. *)
Lemma StopWatchdog_elsewhere (th : thread_id) (s : PodBLECore) :
  th <> WatchdogThread ->
  StopWatchdog (on_thread th t mk) s
  = Ret tt (watchdog_stopped s) [].
Proof.
  intros Hth.
  unfold StopWatchdog, watchdog_stopped, bind, modify, get, ask, ret. cbn.
  destruct (watchdog_thread_ (wdog s)) eqn:E; cbn.
  - destruct th; try congruence; reflexivity.
  - destruct s as [c b a pk [r j l] al]. cbn in *. subst j. reflexivity.
Qed.

Lemma bind_Ret {A B : Type} (c : M A) (k : A -> M B) p s a s1 out1 :
  c p s = Ret a s1 out1 -> bind c k p s = prepend out1 (k a p s1).
Proof. intros H. unfold bind. rewrite H. reflexivity. Qed.

Lemma bind_Exc {A B : Type} (c : M A) (k : A -> M B) p s e s1 out1 :
  c p s = Exc e s1 out1 -> bind c k p s = Exc e s1 out1.
Proof. intros H. unfold bind. rewrite H. reflexivity. Qed.

(** [join()] on the watchdog's own thread. *)
Lemma StopWatchdog_self (s : PodBLECore) :
  watchdog_thread_ (wdog s) = true ->
  StopWatchdog (on_thread WatchdogThread t mk) s
  = Exc system_error
        (set_wdog {| watchdog_running_ := false;
                     watchdog_thread_ := true;
                     last_packet_time_ := last_packet_time_ (wdog s) |} s)
        [].
Proof.
  intros Hj. unfold StopWatchdog, bind, modify, get, ask, ret, throw. cbn.
  rewrite Hj. cbn. reflexivity.
Qed.

Lemma CancelDownload_elsewhere (th : thread_id) (s : PodBLECore) :
  th <> WatchdogThread ->
  CancelDownload (on_thread th t mk) s
  = Ret tt (reset_download_state (watchdog_stopped s))
        ((if write_char_ (ble s) then [GattWrite [x08]] else [])
           ++ [Detach 600 SkipSignal]).
Proof.
  intros Hth. unfold CancelDownload.
  rewrite (bind_Ret _ _ _ _ _ _ _ (StopWatchdog_elsewhere th s Hth)).
  unfold WriteCommand, ResetDownloadState, bind, modify, get, emit, ret.
  cbn. destruct (write_char_ (ble s)); reflexivity.
Qed.

Lemma FinishMessage_elsewhere (th : thread_id) (s : PodBLECore) :
  th <> WatchdogThread ->
  FinishMessage (on_thread th t mk) s
  = Ret tt (message_closed (watchdog_stopped s))
        (if on_payload_ (callbacks s)
         then [Payload (payload_buffer_ (asm s))] else []).
Proof.
  intros Hth. unfold FinishMessage.
  rewrite (bind_Ret _ _ _ _ _ _ _ (StopWatchdog_elsewhere th s Hth)).
  unfold bind, modify, get, emit, ret, when.
  cbn. destruct (on_payload_ (callbacks s)); reflexivity.
Qed.

Lemma FinishMessage_self (s : PodBLECore) :
  watchdog_thread_ (wdog s) = true ->
  FinishMessage (on_thread WatchdogThread t mk) s
  = Exc system_error
        (set_wdog {| watchdog_running_ := false;
                     watchdog_thread_ := true;
                     last_packet_time_ := last_packet_time_ (wdog s) |} s)
        [].
Proof.
  intros Hj. unfold FinishMessage.
  rewrite (bind_Exc _ _ _ _ _ _ _ (StopWatchdog_self s Hj)). reflexivity.
Qed.

End SessionFacts.

(** ** Disconnect *)

(** C7, as stated, fails: a download request with the filter window
    [5, 9] followed by [disconnect] leaves the filter bounds and the
    filtering flag as the request set them. *)
Lemma Disconnect_keeps_the_filter :
  exists w,
    run mktime_utc
        (connect_inputs
           ++ [HostCall (CallDownloadFile "REC" 5 9 1 1);
               HostCall CallDisconnect]) (boot 0) = Some w
    /\ uncaught w = None
    /\ filter_start_ (peek (session w)) = 5
    /\ filter_end_ (peek (session w)) = 9
    /\ is_filtering_ (peek (session w)) = true
    /\ peek (session w) <> peek initial.
Proof.
  eexists. split; [vm_compute; reflexivity|].
  cbn. repeat split; discriminate.
Qed.

(** C7, amended. [disconnect], called by the host, returns normally and
    resets the received fragment count, the expected fragment count, the
    inferred fragment size, the payload buffer and the Smart-Peek-done
    flag to their initial values; the filter bounds and the
    filtering-active flag keep the values of the last download request. *)
Theorem Disconnect_resets_download_state (t : Z) (mk : tm -> Z)
    (s : PodBLECore) :
  exists s' out,
    Disconnect (on_thread HostThread t mk) s = Ret tt s' out
    /\ received_packet_count_ (asm s') = 0
    /\ total_expected_packets_ (asm s') = 0
    /\ actual_packet_size_ (asm s') = 0
    /\ payload_buffer_ (asm s') = []
    /\ is_smart_peek_done_ (peek s') = false
    /\ filter_start_ (peek s') = filter_start_ (peek s)
    /\ filter_end_ (peek s') = filter_end_ (peek s)
    /\ is_filtering_ (peek s') = is_filtering_ (peek s).
Proof.
  unfold Disconnect.
  rewrite (bind_Ret _ _ _ _ _ _ _
             (StopWatchdog_elsewhere t mk HostThread s ltac:(discriminate))).
  unfold AllowSleep, set_notify_char, set_write_char, set_device,
    ResetDownloadState, status, bind, modify, get, emit, ret, when.
  destruct s as [[st sc pl] [w d wc nc] a pk wd al].
  cbn. destruct d, st; cbn;
    do 2 eexists; (split; [reflexivity|]); cbn; repeat split; reflexivity.
Qed.

(** ** Smart Peek *)

Section SmartPeekFacts.

Lemma u8_range (b : byte) : 0 <= u8 b < 256.
Proof. destruct b; vm_compute; split; congruence. Qed.

Lemma lor_add_mul (x y k : Z) :
  0 <= k -> 0 <= x < 2 ^ k -> Z.lor x (y * 2 ^ k) = x + y * 2 ^ k.
Proof.
  intros Hk Hx. rewrite <- Z.add_lor_land.
  replace (Z.land x (y * 2 ^ k)) with 0; [lia|].
  symmetry. apply Z.bits_inj'. intros n Hn.
  rewrite Z.land_spec, Z.bits_0.
  destruct (Z.lt_ge_cases n k) as [Hlt|Hge].
  - rewrite <- Z.shiftl_mul_pow2 by lia.
    rewrite Z.shiftl_spec_low by lia. apply andb_false_r.
  - destruct (Z.eq_dec x 0) as [->|Hnz]; [rewrite Z.bits_0; reflexivity|].
    rewrite (Z.bits_above_log2 x n); [reflexivity|lia|].
    assert (Z.log2 x < k) by (apply Z.log2_lt_pow2; lia). lia.
Qed.

Lemma le16_sum (b0 b1 : byte) : le16 b0 b1 = u8 b0 + 256 * u8 b1.
Proof.
  unfold le16. pose proof (u8_range b0). pose proof (u8_range b1).
  rewrite Z.shiftl_mul_pow2 by lia.
  rewrite lor_add_mul by lia. lia.
Qed.

Lemma le32_sum (b0 b1 b2 b3 : byte) :
  le32 b0 b1 b2 b3
  = u8 b0 + 2 ^ 8 * u8 b1 + 2 ^ 16 * u8 b2 + 2 ^ 24 * u8 b3.
Proof.
  unfold le32.
  pose proof (u8_range b0). pose proof (u8_range b1).
  pose proof (u8_range b2). pose proof (u8_range b3).
  rewrite !Z.shiftl_mul_pow2 by lia.
  rewrite (lor_add_mul (u8 b2 * 2 ^ 16) (u8 b3) 24) by lia.
  replace (u8 b2 * 2 ^ 16 + u8 b3 * 2 ^ 24)
    with ((u8 b2 + u8 b3 * 2 ^ 8) * 2 ^ 16) by lia.
  rewrite (lor_add_mul (u8 b1 * 2 ^ 8) _ 16) by lia.
  replace (u8 b1 * 2 ^ 8 + (u8 b2 + u8 b3 * 2 ^ 8) * 2 ^ 16)
    with ((u8 b1 + u8 b2 * 2 ^ 8 + u8 b3 * 2 ^ 16) * 2 ^ 8) by lia.
  rewrite (lor_add_mul (u8 b0) _ 8) by lia. lia.
Qed.

Lemma le32_range (b0 b1 b2 b3 : byte) : 0 <= le32 b0 b1 b2 b3 < 2 ^ 32.
Proof.
  rewrite le32_sum.
  pose proof (u8_range b0). pose proof (u8_range b1).
  pose proof (u8_range b2). pose proof (u8_range b3). lia.
Qed.

(** The fold of [SnapToStandardInterval] keeps the first strict
    minimum of the distances. *)
Lemma snap_fold (raw : Z) (l : list Z) :
  forall c m,
    (Forall (fun u => m <= Z.abs (raw - u)) l
     /\ fold_left (snap_step raw) l (c, m) = (c, m))
    \/ (exists c' pre post,
          l = pre ++ c' :: post
          /\ fold_left (snap_step raw) l (c, m) = (c', Z.abs (raw - c'))
          /\ Z.abs (raw - c') < m
          /\ Forall (fun u => Z.abs (raw - c') < Z.abs (raw - u)) pre
          /\ Forall (fun u => Z.abs (raw - c') <= Z.abs (raw - u)) post).
Proof.
  induction l as [|u l IH]; intros c m.
  - left. split; [constructor|reflexivity].
  - cbn [fold_left].
    change (snap_step raw (c, m) u)
      with (if Z.abs (raw - u) <? m then (u, Z.abs (raw - u)) else (c, m)).
    destruct (Z.ltb_spec (Z.abs (raw - u)) m) as [Hlt|Hge].
    + right. destruct (IH u (Z.abs (raw - u)))
        as [[Hall Heq]|(c' & pre & post & Hl & Heq & Hm & Hpre & Hpost)].
      * exists u, [], l.
        split; [reflexivity|]. split; [exact Heq|].
        split; [exact Hlt|]. split; [constructor|exact Hall].
      * exists c', (u :: pre), post. subst l.
        split; [reflexivity|]. split; [exact Heq|].
        split; [lia|]. split; [constructor; [lia|exact Hpre]|exact Hpost].
    + destruct (IH c m)
        as [[Hall Heq]|(c' & pre & post & Hl & Heq & Hm & Hpre & Hpost)].
      * left. split; [constructor; [lia|exact Hall]|exact Heq].
      * right. exists c', (u :: pre), post. subst l.
        split; [reflexivity|]. split; [exact Heq|].
        split; [exact Hm|]. split; [constructor; [lia|exact Hpre]|exact Hpost].
Qed.

Lemma SnapToStandardInterval_first_nearest (raw : Z) :
  0 <= raw < 2 ^ 32 -> first_nearest raw (SnapToStandardInterval raw).
Proof.
  intros Hraw. unfold SnapToStandardInterval, first_nearest.
  destruct (snap_fold raw targets 1000 INT64_MAX)
    as [[Hall _]|(c' & pre & post & Hl & Heq & _ & Hpre & Hpost)].
  - exfalso. inversion Hall as [|? ? H100 _]; subst.
    unfold INT64_MAX in H100. lia.
  - rewrite Heq. exists pre, post. auto.
Qed.

Lemma interval_spec (buf : list byte) :
  first_nearest (raw_interval buf) (interval buf).
Proof.
  unfold interval, raw_interval, counter_at, to_uint32, UINT32_MOD.
  rewrite !le32_sum.
  rewrite (Z.mod_small (u8 (at_ buf 1) + _ + _ + _));
    [|rewrite <- le32_sum; apply le32_range].
  rewrite (Z.mod_small (u8 (at_ buf 65) + _ + _ + _));
    [|rewrite <- le32_sum; apply le32_range].
  apply SnapToStandardInterval_first_nearest.
  apply Z.mod_pos_bound. lia.
Qed.

Lemma startTimeMs_spec (p : Platform) (buf : list byte) :
  startTimeMs p buf = start_ms (mktime p) buf.
Proof.
  unfold startTimeMs, start_ms, header_tm, timestamp.
  rewrite le16_sum. reflexivity.
Qed.

(** For a window of non-negative length and a filter whose positive
    bounds are in order, the two comparisons say that the window and the
    filter share no instant. *)
Lemma misses_positive_disjoint (start d fs fe : Z) :
  0 <= d ->
  (0 < fs -> 0 < fe -> fs <= fe) ->
  misses_positive start d fs fe = true
  <-> ~ exists t, common_instant start d fs fe t.
Proof.
  intros Hd Hord. unfold misses_positive, common_instant. split.
  - intros H (t & Ht & Hfs & Hfe).
    apply orb_true_iff in H as [H|H]; apply andb_true_iff in H as [H1 H2];
      apply Z.ltb_lt in H1, H2; lia.
  - intros H.
    destruct (Z.ltb_spec 0 fe) as [Hfe|Hfe];
      destruct (Z.ltb_spec fe start) as [Hfe'|Hfe'];
      destruct (Z.ltb_spec 0 fs) as [Hfs|Hfs];
      destruct (Z.ltb_spec (start + d) fs) as [Hfs'|Hfs'];
      cbn; try reflexivity; exfalso; apply H;
      solve [ exists (Z.max start fs); lia | exists start; lia ].
Qed.

End SmartPeekFacts.

Section SmartPeekDecision.

Lemma CancelDownload_not_silent (p : Platform) (s : PodBLECore) :
  CancelDownload p s <> Ret tt s [].
Proof.
  unfold CancelDownload, StopWatchdog, WriteCommand, ResetDownloadState,
    bind, modify, get, ask, emit, ret, throw.
  destruct s as [cb [w d wc nc] a pk [r j l] al]. cbn.
  destruct j, (this_thread p), wc; cbn; discriminate.
Qed.

Lemma PerformSmartPeek_unfold (p : Platform) (s : PodBLECore) :
  129 <= size (payload_buffer_ (asm s)) ->
  PerformSmartPeek p s
  = if outside_filter p s then CancelDownload p s else Ret tt s [].
Proof.
  intros Hsize. unfold PerformSmartPeek, bind, get, ask. cbn.
  destruct (Z.ltb_spec (size (payload_buffer_ (asm s))) 129); [lia|].
  destruct (outside_filter p s).
  - destruct (CancelDownload p s); cbn; reflexivity.
  - reflexivity.
Qed.

End SmartPeekDecision.

(** C2, as stated, fails: under the request [filter_start = 1],
    [filter_end = -1] filtering is active and Smart Peek runs on a
    recording that starts on 2024-01-01; the end bound is nonzero and the
    start lies after it, so the window misses the filter, yet no
    cancellation is started: the code compares a bound only when it is
    positive. *)
Lemma smart_peek_skips_a_negative_bound :
  exists w,
    run mktime_utc
        (connect_inputs
           ++ [HostCall (CallDownloadFile "REC" 1 (-1) 1 1);
               Notification (recording_head x03)]) (boot 0) = Some w
    /\ is_filtering_ (peek (session w)) = true
    /\ is_smart_peek_done_ (peek (session w)) = true
    /\ sleepers w = []
    /\ received_packet_count_ (asm (session w)) = 1
    /\ misses_nonzero
         (start_ms mktime_utc (payload_buffer_ (asm (session w))))
         (duration (total_expected_packets_ (asm (session w)))
                   (actual_packet_size_ (asm (session w)))
                   (interval (payload_buffer_ (asm (session w)))))
         (filter_start_ (peek (session w)))
         (filter_end_ (peek (session w))) = true.
Proof.
  eexists. split; [vm_compute; reflexivity|].
  repeat split; vm_compute; reflexivity.
Qed.

(** C2, amended. When Smart Peek runs on a payload buffer of at least 129
    bytes, it cancels the download if and only if the estimated window
    [[start, start + duration]] misses [[filter_start, filter_end]],
    comparing a bound only when it is positive; [start] is the
    epoch-millisecond conversion of the timestamp at payload bytes 5-11,
    [duration = expected * max(fragment_size - 5, 59) / 64 * snapped] in
    truncating integer arithmetic, and [snapped] is the 32-bit difference
    of the counters at offsets 65 and 1 snapped to the nearest of
    100..1000, the first of equally near members winning. *)
Theorem PerformSmartPeek_cancels_iff_window_misses
    (p : Platform) (s : PodBLECore) :
  129 <= size (payload_buffer_ (asm s)) ->
  exists snapped,
    first_nearest (raw_interval (payload_buffer_ (asm s))) snapped
    /\ PerformSmartPeek p s
       = (if misses_positive
               (start_ms (mktime p) (payload_buffer_ (asm s)))
               (duration (total_expected_packets_ (asm s))
                         (actual_packet_size_ (asm s)) snapped)
               (filter_start_ (peek s)) (filter_end_ (peek s))
          then CancelDownload p s
          else Ret tt s [])
    /\ CancelDownload p s <> Ret tt s [].
Proof.
  intros Hsize. exists (interval (payload_buffer_ (asm s))).
  split; [apply interval_spec|].
  split; [|apply CancelDownload_not_silent].
  rewrite (PerformSmartPeek_unfold p s Hsize).
  unfold outside_filter, misses_positive, duration, dur, ppp.
  rewrite startTimeMs_spec. reflexivity.
Qed.

(** The decision on the sample recording under the window [0, 1000]. *)
Lemma PerformSmartPeek_cancels_iff_window_misses_witness :
  129 <= size (payload_buffer_ (asm (peeking 0 1000)))
  /\ exists snapped,
      first_nearest (raw_interval (payload_buffer_ (asm (peeking 0 1000))))
                    snapped
      /\ PerformSmartPeek (on_thread NotifyThread 0 mktime_utc)
                          (peeking 0 1000)
         = (if misses_positive
                 (start_ms mktime_utc (payload_buffer_ (asm (peeking 0 1000))))
                 (duration (total_expected_packets_ (asm (peeking 0 1000)))
                           (actual_packet_size_ (asm (peeking 0 1000)))
                           snapped)
                 (filter_start_ (peek (peeking 0 1000)))
                 (filter_end_ (peek (peeking 0 1000)))
            then CancelDownload (on_thread NotifyThread 0 mktime_utc)
                                (peeking 0 1000)
            else Ret tt (peeking 0 1000) [])
      /\ CancelDownload (on_thread NotifyThread 0 mktime_utc) (peeking 0 1000)
         <> Ret tt (peeking 0 1000) [].
Proof.
  assert (H : 129 <= size (payload_buffer_ (asm (peeking 0 1000))))
    by (vm_compute; discriminate).
  split; [exact H|].
  exact (PerformSmartPeek_cancels_iff_window_misses
           (on_thread NotifyThread 0 mktime_utc) (peeking 0 1000) H).
Defined.

(** C10, as stated, fails: the two cancellations can be told apart at
    the public interface.  A download with the window [0, 1000] is
    requested.  In one session the head of a recording of 2024 arrives and
    Smart Peek aborts the download; in the other the host cancels it.  The
    same head then arrives in both.  After the abort the Smart-Peek-done
    flag is set, so the head is buffered and nothing is told to the device;
    after the host's cancel the flag is clear, so the head is examined and
    the download is cancelled once more: another [0x08] is written, and a
    second skip signal reaches the payload callback. *)
Lemma smart_peek_abort_is_told_apart :
  exists wa wh wa' wh',
    run mktime_utc [HostCall (CallDownloadFile "REC" 0 1000 1 1);
                    Notification (recording_head x03)] connected = Some wa
    /\ run mktime_utc [HostCall (CallDownloadFile "REC" 0 1000 1 1);
                       HostCall CallCancelDownload] connected = Some wh
    /\ sleepers wa = sleepers wh
    /\ payload_buffer_ (asm (session wa)) = payload_buffer_ (asm (session wh))
    /\ received_packet_count_ (asm (session wa))
       = received_packet_count_ (asm (session wh))
    /\ total_expected_packets_ (asm (session wa))
       = total_expected_packets_ (asm (session wh))
    /\ is_smart_peek_done_ (peek (session wa)) = true
    /\ is_smart_peek_done_ (peek (session wh)) = false
    /\ run mktime_utc [Notification (recording_head x03);
                       TimePasses 600; Wakes 0; Wakes 0] wa = None
    /\ run mktime_utc [Notification (recording_head x03);
                       TimePasses 600; Wakes 0] wa = Some wa'
    /\ run mktime_utc [Notification (recording_head x03);
                       TimePasses 600; Wakes 0; Wakes 0] wh = Some wh'
    /\ payloads wa' = [(600, [xda])]
    /\ received_packet_count_ (asm (session wa')) = 1
    /\ payloads wh' = [(600, [xda]); (600, [xda])]
    /\ received_packet_count_ (asm (session wh')) = 0.
Proof.
  do 4 eexists.
  split; [vm_compute; reflexivity|].
  split; [vm_compute; reflexivity|].
  split; [reflexivity|]. split; [reflexivity|].
  split; [reflexivity|]. split; [reflexivity|].
  split; [reflexivity|]. split; [reflexivity|].
  split; [vm_compute; reflexivity|].
  split; [vm_compute; reflexivity|].
  split; [vm_compute; reflexivity|].
  repeat split; reflexivity.
Qed.

(** C10, amended. When the fragment being processed makes Smart Peek due
    and the window misses the filter, [PerformSmartPeek] makes the call of
    [CancelDownload] that the host makes: the watchdog is stopped, the
    reset command [0x08] is written (when the write characteristic is
    there), the received count, the expected count and the fragment size
    are 0 and the buffer is empty while [ProcessPacket] is still running,
    the filter bounds stay, and one thread is detached that hands the
    payload [0xDA] to the callback 600 ms later (if the object is alive
    and a callback is set).  The effects are the same in both cases.  The
    session is not: [ProcessPacket] sets the Smart-Peek-done flag after the
    cancellation, the host's cancel leaves it cleared; the two sessions
    differ in that flag and in nothing else. *)
Theorem smart_peek_cancel_is_CancelDownload (t : Z) (mk : tm -> Z)
    (s : PodBLECore) :
  peek_due s = true ->
  outside_filter (on_thread NotifyThread t mk) s = true ->
  let cancelled (done : bool) :=
    {| callbacks := callbacks s;
       ble := ble s;
       asm := {| payload_buffer_ := [];
                 received_packet_count_ := 0;
                 total_expected_packets_ := 0;
                 actual_packet_size_ := 0;
                 current_message_type_ := current_message_type_ (asm s) |};
       peek := {| filter_start_ := filter_start_ (peek s);
                  filter_end_ := filter_end_ (peek s);
                  is_filtering_ := is_filtering_ (peek s);
                  is_smart_peek_done_ := done |};
       wdog := {| watchdog_running_ := false;
                  watchdog_thread_ := false;
                  last_packet_time_ := last_packet_time_ (wdog s) |};
       alive_ := alive_ s |} in
  let effects := (if write_char_ (ble s) then [GattWrite [x08]] else [])
                   ++ [Detach 600 SkipSignal] in
  PerformSmartPeek (on_thread NotifyThread t mk) s
  = CancelDownload (on_thread NotifyThread t mk) s
  /\ CancelDownload (on_thread NotifyThread t mk) s
     = Ret tt (cancelled false) effects
  /\ run_call CallCancelDownload (on_thread HostThread t mk) s
     = Ret tt (cancelled false) effects
  /\ after_fragment (on_thread NotifyThread t mk) s
     = Ret tt (cancelled true) effects
  /\ cancelled true <> cancelled false
  /\ run_task SkipSignal (on_thread DetachedThread (t + 600) mk)
              (cancelled true)
     = Ret tt (cancelled true)
           (if alive_ s && on_payload_ (callbacks s)
            then [Payload [xda]] else []).
Proof.
  intros Hdue Hout cancelled effects.
  assert (Hsize : 129 <= size (payload_buffer_ (asm s))).
  { unfold peek_due in Hdue. apply andb_true_iff in Hdue as [_ H].
    apply Z.leb_le in H. exact H. }
  assert (Hreset : reset_download_state (watchdog_stopped s)
                   = cancelled false) by reflexivity.
  assert (Hpeek : PerformSmartPeek (on_thread NotifyThread t mk) s
                  = Ret tt (cancelled false) effects).
  { rewrite (PerformSmartPeek_unfold _ s Hsize), Hout, <- Hreset.
    apply CancelDownload_elsewhere. discriminate. }
  assert (Hcancel : CancelDownload (on_thread NotifyThread t mk) s
                    = Ret tt (cancelled false) effects)
    by (rewrite <- Hreset; apply CancelDownload_elsewhere; discriminate).
  split; [rewrite Hpeek, Hcancel; reflexivity|].
  split; [exact Hcancel|].
  split; [rewrite <- Hreset; apply CancelDownload_elsewhere; discriminate|].
  split; [|split].
  - unfold after_fragment.
    rewrite (bind_Ret _ _ _ s s s [] eq_refl). cbn [prepend].
    rewrite Hdue.
    erewrite (bind_Ret (PerformSmartPeek;; modify peek_done));
      [|erewrite bind_Ret by exact Hpeek; reflexivity].
    cbn. rewrite !app_nil_r.
    destruct (write_char_ (ble s)); reflexivity.
  - unfold cancelled. intros H. inversion H.
  - unfold run_task, bind, get, when, emit, ret. cbn.
    destruct (alive_ s && on_payload_ (callbacks s)); reflexivity.
Qed.

(** The sample recording under the window [0, 1000] is cancelled so. *)
Lemma smart_peek_cancel_is_CancelDownload_witness :
  peek_due (peeking 0 1000) = true
  /\ outside_filter (on_thread NotifyThread 7 mktime_utc) (peeking 0 1000)
     = true
  /\ PerformSmartPeek (on_thread NotifyThread 7 mktime_utc) (peeking 0 1000)
     = CancelDownload (on_thread NotifyThread 7 mktime_utc) (peeking 0 1000)
  /\ exists s',
      after_fragment (on_thread NotifyThread 7 mktime_utc) (peeking 0 1000)
      = Ret tt s' [Detach 600 SkipSignal]
      /\ is_smart_peek_done_ (peek s') = true
      /\ received_packet_count_ (asm s') = 0.
Proof.
  split; [reflexivity|]. split; [reflexivity|].
  destruct (smart_peek_cancel_is_CancelDownload 7 mktime_utc
              (peeking 0 1000) eq_refl eq_refl)
    as (H1 & _ & _ & H4 & _).
  split; [exact H1|].
  eexists. split; [exact H4|]. split; reflexivity.
Defined.

(** ** Watchdog *)

Section WatchdogFacts.

Variable t : Z.
Variable mk : tm -> Z.

(** One iteration calls [FinishMessage] exactly under
    [watchdog_forces]; otherwise the loop goes on and nothing changes. *)
Lemma watchdog_iteration_decides (th : thread_id) (s : PodBLECore) :
  watchdog_iteration (on_thread th t mk) s
  = if watchdog_forces (t - last_packet_time_ (wdog s)) s
    then (FinishMessage ;; ret false) (on_thread th t mk) s
    else Ret true s [].
Proof.
  unfold watchdog_iteration, watchdog_forces, bind at 1 2, get, ask.
  cbn [prepend steady_now on_thread].
  destruct (0 <? total_expected_packets_ (asm s)); cbn [andb];
    [|reflexivity].
  destruct (60000 <? t - last_packet_time_ (wdog s)); cbn [orb andb].
  - destruct ((FinishMessage;; ret false) (on_thread th t mk) s);
      reflexivity.
  - destruct (2500 <? t - last_packet_time_ (wdog s)); cbn [andb];
      [|reflexivity].
    destruct (PrimFloat.ltb threshold (progress s)); [|reflexivity].
    destruct ((FinishMessage;; ret false) (on_thread th t mk) s);
      reflexivity.
Qed.

(** No message open: the watchdog never finalizes. *)
Lemma watchdog_idle (th : thread_id) (s : PodBLECore) :
  total_expected_packets_ (asm s) = 0 ->
  watchdog_iteration (on_thread th t mk) s = Ret true s [].
Proof.
  intros H. rewrite watchdog_iteration_decides.
  unfold watchdog_forces. rewrite H. reflexivity.
Qed.

(** On the watchdog's thread the forced [FinishMessage] raises in
    [StopWatchdog], before the buffer is moved or the callback called. *)
Lemma watchdog_forced_finish_throws (s : PodBLECore) :
  watchdog_thread_ (wdog s) = true ->
  watchdog_forces (t - last_packet_time_ (wdog s)) s = true ->
  watchdog_iteration (on_thread WatchdogThread t mk) s
  = Exc system_error
        (set_wdog {| watchdog_running_ := false;
                     watchdog_thread_ := true;
                     last_packet_time_ := last_packet_time_ (wdog s) |} s)
        [].
Proof.
  intros Hj Hf. rewrite watchdog_iteration_decides, Hf.
  apply bind_Exc. apply FinishMessage_self. exact Hj.
Qed.

End WatchdogFacts.

(** The thread function over any number of wake-ups: with no message
    open it never finalizes. *)
Lemma watchdog_thread_idle (t : Z) (mk : tm -> Z) (th : thread_id)
    (wakeups : list Z) (s : PodBLECore) :
  total_expected_packets_ (asm s) = 0 ->
  watchdog_thread wakeups (on_thread th t mk) s = Ret tt s [].
Proof.
  intros Hidle. induction wakeups as [|t1 rest IH]; [reflexivity|].
  cbn [watchdog_thread].
  rewrite (bind_Ret _ _ _ s s s [] eq_refl). cbn [prepend].
  destruct (watchdog_running_ (wdog s)); [|reflexivity].
  erewrite bind_Ret;
    [|unfold at_time; cbn [this_thread mktime on_thread];
      apply (watchdog_idle t1 mk th s Hidle)].
  cbn [prepend]. rewrite IH. reflexivity.
Qed.

(** On small counts the double-precision test [progress > 0.98] is the
    exact comparison of the ratio with 49/50. *)
Lemma progress_test_exact (r e : Z) :
  0 <= r <= 256 -> 1 <= e <= 256 ->
  PrimFloat.ltb threshold
                (PrimFloat.div (double_of_int r) (double_of_int e))
  = (49 * e <? 50 * r).
Proof.
  intros Hr He.
  assert (H : forallb
                (fun e =>
                   forallb
                     (fun r =>
                        Bool.eqb
                          (PrimFloat.ltb threshold
                             (PrimFloat.div (double_of_int r)
                                            (double_of_int e)))
                          (49 * e <? 50 * r))
                     (map Z.of_nat (seq 0 257)))
                (map Z.of_nat (seq 1 256)) = true)
    by (vm_compute; reflexivity).
  rewrite forallb_forall in H.
  specialize (H e). rewrite forallb_forall in H.
  apply Bool.eqb_prop. apply H.
  - rewrite <- (Z2Nat.id e) by lia. apply in_map, in_seq. lia.
  - rewrite <- (Z2Nat.id r) by lia. apply in_map, in_seq. lia.
Qed.

(** C3 at work.  A download is requested, the first fragment of a
    100-fragment message arrives, and nothing follows for 61 s: the
    watchdog's iteration calls [FinishMessage], whose [StopWatchdog] joins
    the watchdog thread from that very thread; [std::system_error] leaves
    the thread function, no payload is handed off and the partial buffer
    stays where it was.  The same happens 3 s after fragment 99 of 100. *)
Lemma watchdog_force_finalize_aborts :
  (exists w,
      run mktime_utc
          (connect_inputs
             ++ [HostCall (CallDownloadFile "REC" 0 0 1 1);
                 Notification (short_head x64);
                 TimePasses 61000;
                 WatchdogWakes]) (boot 0) = Some w
      /\ uncaught w = Some (WatchdogThread, system_error)
      /\ payloads w = []
      /\ payload_buffer_ (asm (session w)) = [x01; xaa; xbb]
      /\ total_expected_packets_ (asm (session w)) = 100)
  /\ (exists w,
        run mktime_utc
            (connect_inputs
               ++ [HostCall (CallDownloadFile "REC" 0 0 1 1);
                   Notification (short_head x64)]
               ++ repeat (Notification (tail3 x01 x02 x03)) 98
               ++ [TimePasses 3000;
                   WatchdogWakes]) (boot 0) = Some w
        /\ uncaught w = Some (WatchdogThread, system_error)
        /\ payloads w = []
        /\ received_packet_count_ (asm (session w)) = 99
        /\ total_expected_packets_ (asm (session w)) = 100).
Proof.
  split; eexists; (split; [vm_compute; reflexivity|]);
    repeat split; reflexivity.
Qed.

(** ** Cancellation *)

Section CancelFacts.

Variable mk : tm -> Z.

Lemma payloads_exec (th : thread_id) (c : M unit) (w : World) :
  payloads (exec mk th c w)
  = payloads w
    ++ payloads_in (map (pair (clock w))
                      (effects_of (c (platform mk th w) (session w)))).
Proof. unfold payloads, payloads_in, exec. cbn. apply flat_map_app. Qed.

(** A detached skip signal: it cannot wake before it is due; when it
    wakes it leaves the sleepers and emits [0xDA] once, if the object is
    alive and a payload callback is set. *)
Lemma skip_signal_wakes (due : Z) (k : nat) (w w' : World) :
  nth_error (sleepers w) k = Some (due, SkipSignal) ->
  step mk (Wakes k) w = Some w' ->
  due <= clock w
  /\ clock w' = clock w
  /\ sleepers w' = remove_nth k (sleepers w)
  /\ session w' = session w
  /\ payloads w'
     = payloads w
       ++ (if alive_ (session w) && on_payload_ (callbacks (session w))
           then [(clock w, [xda])] else []).
Proof.
  intros Hk Hstep. unfold step in Hstep.
  destruct (uncaught w); [discriminate|].
  rewrite Hk in Hstep.
  destruct (Z.leb_spec due (clock w)) as [Hdue|]; [|discriminate].
  inversion Hstep; subst w'; clear Hstep.
  split; [exact Hdue|]. split; [reflexivity|].
  rewrite payloads_exec.
  unfold exec, run_task, bind, get, when, emit, ret. cbn.
  destruct (alive_ (session w) && on_payload_ (callbacks (session w)));
    cbn; rewrite ?app_nil_r; auto.
Qed.

End CancelFacts.

(** C8, as stated, fails: [cancelDownload] followed by the destruction of
    the session within the delay yields no payload event at all; the
    detached thread wakes after 600 ms, finds the liveness flag cleared and
    returns. *)
Lemma cancel_then_destroy_emits_nothing :
  exists w,
    run mktime_utc
        (connect_inputs
           ++ [HostCall CallCancelDownload;
               HostCall CallDestroy;
               TimePasses 600;
               Wakes 0]) (boot 0) = Some w
    /\ uncaught w = None
    /\ sleepers w = []
    /\ payloads w = [].
Proof.
  eexists. split; [vm_compute; reflexivity|].
  repeat split; reflexivity.
Qed.

(** C8, amended. Every call of [cancelDownload] by the host delivers no
    payload itself and detaches exactly one thread, due 600 ms after the
    call.  That thread cannot run sooner; when it runs it is gone from the
    sleepers and has delivered exactly one payload event, the single byte
    [0xDA], provided the session is still alive and a payload callback is
    set, and no event otherwise. *)
Theorem CancelDownload_skip_signal (mk : tm -> Z) (w : World) :
  uncaught w = None ->
  alive_ (session w) = true ->
  exists w',
    step mk (HostCall CallCancelDownload) w = Some w'
    /\ sleepers w' = sleepers w ++ [(clock w + 600, SkipSignal)]
    /\ payloads w' = payloads w
    /\ forall w2 k w3,
        nth_error (sleepers w2) k = Some (clock w + 600, SkipSignal) ->
        step mk (Wakes k) w2 = Some w3 ->
        clock w + 600 <= clock w2
        /\ sleepers w3 = remove_nth k (sleepers w2)
        /\ payloads w3
           = payloads w2
             ++ (if alive_ (session w2)
                    && on_payload_ (callbacks (session w2))
                 then [(clock w2, [xda])] else []).
Proof.
  intros Hun Halive. eexists. split.
  - unfold step. rewrite Hun, Halive. reflexivity.
  - pose proof (CancelDownload_elsewhere (clock w) mk HostThread (session w)
                  ltac:(discriminate)) as Hc.
    split; [|split].
    + unfold exec, run_call, platform. cbn [sleepers].
      unfold on_thread in Hc. rewrite Hc. cbn [effects_of].
      destruct (write_char_ (ble (session w))); reflexivity.
    + rewrite payloads_exec. unfold run_call, platform.
      unfold on_thread in Hc. rewrite Hc. cbn [effects_of].
      destruct (write_char_ (ble (session w))); cbn; apply app_nil_r.
    + intros w2 k w3 Hk Hstep.
      destruct (skip_signal_wakes mk _ _ _ _ Hk Hstep)
        as (H1 & _ & H3 & _ & H5).
      auto.
Qed.

(** A cancellation on the connected sample session. *)
Lemma CancelDownload_skip_signal_witness :
  uncaught connected = None
  /\ alive_ (session connected) = true
  /\ exists w',
      step mktime_utc (HostCall CallCancelDownload) connected = Some w'
      /\ sleepers w' = [(600, SkipSignal)]
      /\ payloads w' = [].
Proof.
  split; [reflexivity|]. split; [reflexivity|].
  destruct (CancelDownload_skip_signal mktime_utc connected eq_refl eq_refl)
    as (w' & H1 & H2 & H3 & _).
  exists w'. split; [exact H1|]. split; [exact H2|exact H3].
Defined.

(** ** Reassembly *)

Section ReassemblyFacts.

Variable p : Platform.

Lemma size_noted_fields (f : list byte) (s : PodBLECore) :
  payload_buffer_ (asm (size_noted f s)) = payload_buffer_ (asm s)
  /\ received_packet_count_ (asm (size_noted f s))
     = received_packet_count_ (asm s)
  /\ total_expected_packets_ (asm (size_noted f s))
     = total_expected_packets_ (asm s)
  /\ current_message_type_ (asm (size_noted f s))
     = current_message_type_ (asm s)
  /\ peek (size_noted f s) = peek s
  /\ callbacks (size_noted f s) = callbacks s
  /\ ble (size_noted f s) = ble s
  /\ wdog (size_noted f s) = wdog s
  /\ alive_ (size_noted f s) = alive_ s.
Proof.
  unfold size_noted. destruct (actual_packet_size_ (asm s) =? 0);
    repeat split; reflexivity.
Qed.


Lemma after_fragment_quiet (s : PodBLECore) :
  peek_due s = false ->
  after_fragment p s
  = Ret tt s (if complete s then [Detach 50 SettleFinish] else []).
Proof.
  intros H. unfold after_fragment, bind, get, emit, ret. cbn.
  rewrite H. cbn. destruct (complete s); reflexivity.
Qed.

Lemma ProcessPacket_drop (f : list byte) (s : PodBLECore) :
  size f < 5 -> ProcessPacket f p s = Ret tt s [].
Proof.
  intros H. unfold ProcessPacket.
  destruct (Z.ltb_spec (size f) 5); [reflexivity|lia].
Qed.

(** The reservation goes through: the message is opened. *)
Lemma first_fragment_opens (f : list byte) (s : PodBLECore) :
  0 <= estimatedSize (announced f s) ->
  first_fragment f p s = Ret tt (opened f s) [].
Proof.
  intros H. unfold first_fragment, reserve, bind, modify, get, ret. cbn.
  destruct (Z.ltb_spec (estimatedSize (announced f s)) 0); [lia|].
  reflexivity.
Qed.

(** The reservation throws: the count is stored, no fragment counted. *)
Lemma first_fragment_throws (f : list byte) (s : PodBLECore) :
  estimatedSize (announced f s) < 0 ->
  first_fragment f p s = Exc length_error (announced f s) [].
Proof.
  intros H. unfold first_fragment, reserve, bind, modify, get, throw. cbn.
  destruct (Z.ltb_spec (estimatedSize (announced f s)) 0); [|lia].
  reflexivity.
Qed.



Lemma ProcessPacket_next (f : list byte) (s : PodBLECore) :
  received_packet_count_ (asm s) <> 0 ->
  5 <= size f ->
  peek_due (appended f (size_noted f s)) = false ->
  ProcessPacket f p s
  = Ret tt (appended f (size_noted f s))
        (if complete (appended f (size_noted f s))
         then [Detach 50 SettleFinish] else []).
Proof.
  intros Hr Hsz Hpk. unfold ProcessPacket.
  destruct (Z.ltb_spec (size f) 5); [lia|].
  unfold bind at 1, modify at 1. cbn [prepend].
  unfold bind at 1, get at 1. cbn [prepend].
  destruct (size_noted_fields f s) as (_ & Hrec & _).
  rewrite Hrec.
  destruct (Z.eqb_spec (received_packet_count_ (asm s)) 0); [contradiction|].
  unfold next_fragment, bind at 1, modify at 1. cbn [prepend].
  rewrite (after_fragment_quiet _ Hpk). reflexivity.
Qed.

Lemma OnValueChanged_process (f : list byte) (s : PodBLECore) :
  0 < total_expected_packets_ (asm s) \/ received_packet_count_ (asm s) = 0 ->
  OnValueChanged f p s = ProcessPacket f p (stamped (steady_now p) s).
Proof.
  intros H. unfold OnValueChanged, bind, ask, modify, get. cbn.
  replace ((0 <? total_expected_packets_ (asm s))
           || (received_packet_count_ (asm s) =? 0)) with true.
  - destruct (ProcessPacket f p (stamped (steady_now p) s)); reflexivity.
  - symmetry. apply orb_true_iff.
    destruct H as [H|H]; [left; apply Z.ltb_lt; exact H
                         |right; apply Z.eqb_eq; exact H].
Qed.


End ReassemblyFacts.

Section ReassemblyRuns.

Variable mk : tm -> Z.


(** What the handler leaves when it appends [f] to an open message. *)
Lemma appended_fields (f : list byte) (t : Z) (s : PodBLECore) :
  let s' := appended f (size_noted f (stamped t s)) in
  payload_buffer_ (asm s') = payload_buffer_ (asm s) ++ skipn 5 f
  /\ received_packet_count_ (asm s') = received_packet_count_ (asm s) + 1
  /\ total_expected_packets_ (asm s') = total_expected_packets_ (asm s)
  /\ current_message_type_ (asm s') = current_message_type_ (asm s)
  /\ peek s' = peek s
  /\ callbacks s' = callbacks s
  /\ ble s' = ble s
  /\ alive_ s' = alive_ s.
Proof.
  destruct (size_noted_fields f (stamped t s))
    as (Hbuf & Hr & He & Hty & Hp & Hc & Hb & _ & Ha).
  cbn. rewrite Hbuf, Hr, He, Hty. repeat split; assumption.
Qed.

Lemma step_notification (data : list byte) (w : World) :
  uncaught w = None ->
  notify_char_ (ble (session w)) = Some true ->
  step mk (Notification data) w
  = Some (exec mk NotifyThread (OnValueChanged data) w).
Proof.
  intros Hun Hsub. unfold step. rewrite Hun, Hsub. reflexivity.
Qed.

(** A body that runs to its end. *)
Lemma exec_Ret (th : thread_id) (c : M unit) (w : World) (s' : PodBLECore)
    (out : list effect) :
  c (platform mk th w) (session w) = Ret tt s' out ->
  let w' := exec mk th c w in
  session w' = s'
  /\ clock w' = clock w
  /\ sleepers w' = sleepers w ++ spawned (clock w) out
  /\ payloads w' = payloads w ++ payloads_in (map (pair (clock w)) out)
  /\ uncaught w' = None.
Proof.
  intros H w'. unfold w'. rewrite payloads_exec.
  unfold exec. cbv zeta. rewrite H.
  cbn [session clock sleepers uncaught effects_of state_of].
  repeat split; reflexivity.
Qed.


End ReassemblyRuns.

Section Completion.

Variable mk : tm -> Z.

(** The settling thread of a completed message wakes: [FinishMessage]
    hands the buffer to the payload callback and closes the message. *)
Lemma settle_finish_wakes (due : Z) (k : nat) (w : World) :
  uncaught w = None ->
  nth_error (sleepers w) k = Some (due, SettleFinish) ->
  due <= clock w ->
  alive_ (session w) = true ->
  exists w',
    step mk (Wakes k) w = Some w'
    /\ session w' = message_closed (watchdog_stopped (session w))
    /\ clock w' = clock w
    /\ sleepers w' = remove_nth k (sleepers w)
    /\ payloads w'
       = payloads w
         ++ (if on_payload_ (callbacks (session w))
             then [(clock w, payload_buffer_ (asm (session w)))] else [])
    /\ uncaught w' = None.
Proof.
  intros Hun Hk Hdue Hal. unfold step. rewrite Hun, Hk.
  destruct (Z.leb_spec due (clock w)); [|lia].
  eexists. split; [reflexivity|].
  match goal with
  | |- context [exec mk DetachedThread _ ?w0] => set (w0' := w0)
  end.
  assert (HR : run_task SettleFinish (platform mk DetachedThread w0')
                 (session w0')
               = Ret tt (message_closed (watchdog_stopped (session w)))
                     (if on_payload_ (callbacks (session w))
                      then [Payload (payload_buffer_ (asm (session w)))]
                      else [])).
  { unfold run_task. rewrite (bind_Ret _ _ _ _ _ _ [] eq_refl).
    cbn [prepend session w0']. rewrite Hal. cbn [when app].
    pose proof (FinishMessage_elsewhere (clock w) mk DetachedThread
                  (session w) ltac:(discriminate)) as HF.
    unfold on_thread in HF. unfold platform. cbn [clock w0'].
    rewrite HF. reflexivity. }
  destruct (exec_Ret mk DetachedThread _ w0' _ _ HR)
    as (Es & Ec & Esl & Ep & Eu).
  split; [exact Es|]. split; [exact Ec|].
  split; [rewrite Esl; destruct (on_payload_ (callbacks (session w)));
          cbn; apply app_nil_r|].
  split; [|exact Eu].
  rewrite Ep. destruct (on_payload_ (callbacks (session w))); reflexivity.
Qed.



End Completion.

(** ** Fragments that Smart Peek lets through *)

Section Passing.

Variable p : Platform.




End Passing.

Section Examined.






Variables (s0 : PodBLECore) (f1 : list byte).





End Examined.

Section Waiting.

Variable mk : tm -> Z.








End Waiting.




(** ** Messages announcing no fragments *)

Section Standalone.

Variable mk : tm -> Z.


End Standalone.




(** ** Smart Peek is never left outstanding *)

Section Quiet.

Lemma quiet_same (s s' : PodBLECore) :
  peek s' = peek s ->
  payload_buffer_ (asm s') = payload_buffer_ (asm s) ->
  current_message_type_ (asm s') = current_message_type_ (asm s) ->
  quiet s -> quiet s'.
Proof.
  unfold quiet, peek_due. intros -> -> ->. auto.
Qed.

Lemma quiet_empty (s : PodBLECore) :
  payload_buffer_ (asm s) = [] -> quiet s.
Proof.
  unfold quiet, peek_due. intros ->. apply andb_false_r.
Qed.

Lemma quiet_done (s : PodBLECore) :
  is_smart_peek_done_ (peek s) = true -> quiet s.
Proof.
  unfold quiet, peek_due. intros ->. cbn.
  rewrite andb_false_r. reflexivity.
Qed.

Variable p : Platform.

Lemma keeps_ret {A : Type} (a : A) : keeps_quiet (ret a) p.
Proof. intros s H. exact H. Qed.

Lemma keeps_get : keeps_quiet get p.
Proof. intros s H. exact H. Qed.

Lemma keeps_ask : keeps_quiet ask p.
Proof. intros s H. exact H. Qed.

Lemma keeps_emit (e : effect) : keeps_quiet (emit e) p.
Proof. intros s H. exact H. Qed.

Lemma keeps_throw {A : Type} (e : exn) : keeps_quiet (@throw A e) p.
Proof. intros s H. exact H. Qed.

Lemma keeps_modify (f : PodBLECore -> PodBLECore) :
  (forall s, quiet s -> quiet (f s)) -> keeps_quiet (modify f) p.
Proof. intros Hf s H. exact (Hf s H). Qed.

Lemma state_of_prepend {A : Type} (out : list effect) (o : outcome A) :
  state_of (prepend out o) = state_of o.
Proof. destruct o; reflexivity. Qed.

Lemma keeps_bind {A B : Type} (c : M A) (k : A -> M B) :
  keeps_quiet c p -> (forall a, keeps_quiet (k a) p) ->
  keeps_quiet (bind c k) p.
Proof.
  intros Hc Hk s H. unfold bind. specialize (Hc s H).
  destruct (c p s) as [a s1 out1|e s1 out1]; cbn in Hc.
  - rewrite state_of_prepend. exact (Hk a s1 Hc).
  - exact Hc.
Qed.

Lemma keeps_when (b : bool) (c : M unit) :
  keeps_quiet c p -> keeps_quiet (when b c) p.
Proof. intros Hc. destruct b; [exact Hc|apply keeps_ret]. Qed.

Lemma keeps_try_catch (body handler : M unit) :
  keeps_quiet body p -> keeps_quiet handler p ->
  keeps_quiet (try_catch_hresult body handler) p.
Proof.
  intros Hb Hh s H. unfold try_catch_hresult. specialize (Hb s H).
  destruct (body p s) as [a s1 out1|e s1 out1]; cbn in Hb; [exact Hb|].
  destruct e; try exact Hb.
  rewrite state_of_prepend. exact (Hh s1 Hb).
Qed.

End Quiet.

(** Takes a member function apart along its binds and branches. *)
Ltac keeps :=
  repeat first
    [ apply keeps_ret | apply keeps_get | apply keeps_ask
    | apply keeps_emit | apply keeps_throw
    | apply keeps_when
    | apply keeps_bind; [|intros ?]
    | match goal with
      | |- keeps_quiet (if ?b then _ else _) _ => destruct b
      | |- keeps_quiet (match ?x with _ => _ end) _ => destruct x
      end
    | (apply keeps_modify; intros ? ?;
       first [ eapply quiet_same; [| | |eassumption]; reflexivity
             | apply quiet_empty; reflexivity
             | apply quiet_done; reflexivity ]) ].

Section QuietOperations.

Variable p : Platform.

Lemma keeps_StopWatchdog : keeps_quiet StopWatchdog p.
Proof. unfold StopWatchdog. keeps. Qed.

Lemma keeps_WriteCommand (d : list byte) : keeps_quiet (WriteCommand d) p.
Proof. unfold WriteCommand. keeps. Qed.

Lemma keeps_CancelDownload : keeps_quiet CancelDownload p.
Proof. unfold CancelDownload. keeps. Qed.

Lemma keeps_FinishMessage : keeps_quiet FinishMessage p.
Proof. unfold FinishMessage. keeps. Qed.

Lemma keeps_Disconnect : keeps_quiet Disconnect p.
Proof. unfold Disconnect. keeps. Qed.

(** [DownloadFile] sets the filter on an emptied buffer. *)
Lemma keeps_DownloadFile (f : string) (a b n i : Z) :
  this_thread p <> WatchdogThread ->
  keeps_quiet (DownloadFile f a b n i) p.
Proof.
  intros Hth s _. apply quiet_empty.
  unfold DownloadFile, StartWatchdog, StopWatchdog, ResetDownloadState,
    WriteCommand, bind, modify, get, ask, emit, ret, throw.
  destruct s as [cb [w d wc nc] am pk [r j l] al].
  destruct p as [th now conv]. cbn in Hth |- *.
  destruct j, th, wc; cbn; try reflexivity; contradiction.
Qed.

Lemma keeps_run_call (c : call) :
  this_thread p <> WatchdogThread -> keeps_quiet (run_call c) p.
Proof.
  intros Hth. destruct c; cbn [run_call].
  - unfold SetCallbacks. keeps.
  - unfold StartScan. keeps.
  - unfold StopScan. keeps.
  - unfold Connect. keeps.
  - apply keeps_Disconnect.
  - apply keeps_WriteCommand.
  - apply keeps_DownloadFile. exact Hth.
  - apply keeps_CancelDownload.
  - unfold Destroy. keeps.
Qed.

Lemma keeps_run_task (k : task) : keeps_quiet (run_task k) p.
Proof. unfold run_task. keeps. Qed.

Lemma keeps_OnAdvertisementReceived (n : string) (a r : Z) :
  keeps_quiet (OnAdvertisementReceived n a r) p.
Proof. unfold OnAdvertisementReceived. keeps. Qed.

Lemma keeps_ConnectAsync (address : Z) (a : GattAnswers) :
  keeps_quiet (ConnectAsync address a) p.
Proof.
  unfold ConnectAsync. apply keeps_try_catch; [|keeps].
  unfold co_await. keeps.
Qed.

Lemma keeps_watchdog_iteration :
  keeps_quiet (continue <- watchdog_iteration ;; ret tt) p.
Proof. unfold watchdog_iteration. keeps. Qed.

End QuietOperations.

Section QuietReassembly.

Variable p : Platform.
Hypothesis not_watchdog : this_thread p <> WatchdogThread.

Lemma CancelDownload_here (s : PodBLECore) :
  CancelDownload p s
  = Ret tt (reset_download_state (watchdog_stopped s))
        ((if write_char_ (ble s) then [GattWrite [x08]] else [])
           ++ [Detach 600 SkipSignal]).
Proof.
  destruct p as [th now conv]. cbn in not_watchdog.
  exact (CancelDownload_elsewhere now conv th s not_watchdog).
Qed.

(** [after_fragment] always returns, with Smart Peek settled. *)
Lemma after_fragment_cases (s : PodBLECore) :
  exists out,
    after_fragment p s
    = Ret tt (if peek_due s
              then peek_done (if outside_filter p s
                              then reset_download_state (watchdog_stopped s)
                              else s)
              else s) out.
Proof.
  destruct (peek_due s) eqn:Hdue.
  - assert (Hsize : 129 <= size (payload_buffer_ (asm s))).
    { unfold peek_due in Hdue. apply andb_true_iff in Hdue as [_ H].
      apply Z.leb_le in H. exact H. }
    unfold after_fragment.
    rewrite (bind_Ret _ _ _ s s s [] eq_refl). cbn [prepend].
    rewrite Hdue.
    destruct (outside_filter p s) eqn:Hout.
    + erewrite (bind_Ret (PerformSmartPeek;; modify peek_done));
        [|erewrite bind_Ret
            by (rewrite (PerformSmartPeek_unfold p s Hsize), Hout;
                apply CancelDownload_here);
          reflexivity].
      cbn. eexists. reflexivity.
    + erewrite (bind_Ret (PerformSmartPeek;; modify peek_done));
        [|erewrite bind_Ret
            by (rewrite (PerformSmartPeek_unfold p s Hsize), Hout;
                reflexivity);
          reflexivity].
      cbn. destruct (complete (peek_done s)); eexists; reflexivity.
  - rewrite (after_fragment_quiet p s Hdue). eexists. reflexivity.
Qed.

Lemma after_fragment_settles (s : PodBLECore) :
  quiet (state_of (after_fragment p s)).
Proof.
  destruct (after_fragment_cases s) as [out ->]. cbn [state_of].
  destruct (peek_due s) eqn:Hdue; [|exact Hdue].
  apply quiet_done. reflexivity.
Qed.

Lemma quiet_size_noted (f : list byte) (s : PodBLECore) :
  quiet s -> quiet (size_noted f s).
Proof.
  destruct (size_noted_fields f s) as (Hb & _ & _ & Hty & Hp & _).
  apply quiet_same; assumption.
Qed.

Lemma keeps_ProcessPacket (f : list byte) : keeps_quiet (ProcessPacket f) p.
Proof.
  intros s Hq. unfold ProcessPacket.
  destruct (size f <? 5); [exact Hq|].
  unfold bind at 1, modify at 1. cbn [prepend].
  rewrite state_of_prepend.
  unfold bind at 1, get at 1. cbn [prepend].
  rewrite state_of_prepend.
  destruct (received_packet_count_ (asm (size_noted f s)) =? 0).
  - destruct (size f <? 9); [apply quiet_size_noted; exact Hq|].
    destruct (Z.lt_ge_cases (estimatedSize (announced f (size_noted f s))) 0)
      as [Hneg|Hok].
    + rewrite (bind_Exc _ _ _ _ _ _ _ (first_fragment_throws p f _ Hneg)).
      apply quiet_empty. reflexivity.
    + rewrite (bind_Ret _ _ _ _ _ _ _ (first_fragment_opens p f _ Hok)).
      rewrite state_of_prepend. apply after_fragment_settles.
  - unfold next_fragment, bind, modify. rewrite state_of_prepend.
    apply after_fragment_settles.
Qed.

Lemma keeps_OnValueChanged (f : list byte) :
  keeps_quiet (OnValueChanged f) p.
Proof.
  unfold OnValueChanged.
  apply keeps_bind; [apply keeps_ask|intros p0].
  apply keeps_bind; [keeps|intros []].
  apply keeps_bind; [apply keeps_get|intros s0].
  destruct ((0 <? total_expected_packets_ (asm s0))
            || (received_packet_count_ (asm s0) =? 0));
    [apply keeps_ProcessPacket|keeps].
Qed.

End QuietReassembly.

Section QuietWorld.

Variable mk : tm -> Z.

Lemma quiet_exec (th : thread_id) (c : M unit) (w : World) :
  keeps_quiet c (platform mk th w) ->
  quiet (session w) -> quiet (session (exec mk th c w)).
Proof. intros Hc Hq. exact (Hc (session w) Hq). Qed.

Lemma quiet_step (i : input) (w w' : World) :
  quiet (session w) -> step mk i w = Some w' -> quiet (session w').
Proof.
  intros Hq Hstep. unfold step in Hstep.
  destruct (uncaught w); [discriminate|].
  destruct i.
  - destruct (dt <? 0); inversion Hstep; subst; exact Hq.
  - destruct (alive_ (session w)); inversion Hstep; subst.
    apply quiet_exec; [|exact Hq].
    apply keeps_run_call. discriminate.
  - destruct (watcher_ (ble (session w))); inversion Hstep; subst.
    apply quiet_exec; [apply keeps_OnAdvertisementReceived|exact Hq].
  - destruct (connecting w); inversion Hstep; subst.
    apply quiet_exec; [apply keeps_ConnectAsync|exact Hq].
  - destruct (notify_char_ (ble (session w))) as [[]|];
      inversion Hstep; subst.
    apply quiet_exec; [|exact Hq].
    apply keeps_OnValueChanged. discriminate.
  - destruct (nth_error (sleepers w) k) as [[due tk]|]; [|discriminate].
    destruct (due <=? clock w); inversion Hstep; subst.
    apply quiet_exec; [apply keeps_run_task|exact Hq].
  - destruct (watchdog_thread_ (wdog (session w))
              && watchdog_running_ (wdog (session w)));
      inversion Hstep; subst.
    apply quiet_exec; [apply keeps_watchdog_iteration|exact Hq].
Qed.

Lemma quiet_run (inputs : list input) :
  forall w w',
    quiet (session w) -> run mk inputs w = Some w' -> quiet (session w').
Proof.
  induction inputs as [|i rest IH]; intros w w' Hq Hrun; cbn [run] in Hrun.
  - inversion Hrun; subst; exact Hq.
  - destruct (step mk i w) as [w1|] eqn:Hstep; [|discriminate].
    exact (IH w1 w' (quiet_step i w w1 Hq Hstep) Hrun).
Qed.

(** Whatever has happened to a session, no Smart Peek is outstanding. *)
Lemma reachable_quiet (w : World) : reachable mk w -> quiet (session w).
Proof.
  intros (t0 & inputs & Hrun).
  apply (quiet_run inputs (boot t0) w); [reflexivity|exact Hrun].
Qed.

End QuietWorld.

(** ** Short continuation fragments *)

(** C5, as stated, fails: with a message open (1 of 3 fragments
    received), a continuation fragment of 4 bytes is discarded by the size
    test at the head of [ProcessPacket]; the received count stays 1. *)
Lemma four_byte_fragment_is_not_counted :
  exists w0 w,
    run mktime_utc [Notification (short_head x03)] connected = Some w0
    /\ total_expected_packets_ (asm (session w0)) = 3
    /\ received_packet_count_ (asm (session w0)) = 1
    /\ size [x01; x00; x00; x00] <= 5
    /\ run mktime_utc [Notification [x01; x00; x00; x00]] w0 = Some w
    /\ received_packet_count_ (asm (session w)) = 1
    /\ received_packet_count_ (asm (session w))
       <> received_packet_count_ (asm (session w0)) + 1.
Proof.
  eexists. eexists.
  split; [vm_compute; reflexivity|].
  split; [reflexivity|]. split; [reflexivity|].
  split; [vm_compute; discriminate|].
  split; [vm_compute; reflexivity|].
  split; [reflexivity|]. cbn. discriminate.
Qed.

(** C5, amended. On every reachable session with a message open, a
    continuation fragment of exactly 5 bytes increments the received
    fragment count by one and appends no payload byte; a fragment of fewer
    than 5 bytes is discarded: neither the count nor the buffer changes.
    Neither delivers a payload. *)
Theorem short_continuation (mk : tm -> Z) (w : World) (f : list byte) :
  reachable mk w ->
  uncaught w = None ->
  notify_char_ (ble (session w)) = Some true ->
  0 < total_expected_packets_ (asm (session w)) ->
  0 < received_packet_count_ (asm (session w)) ->
  exists w',
    step mk (Notification f) w = Some w'
    /\ (size f = 5 ->
        uncaught w' = None
        /\ payloads w' = payloads w
        /\ received_packet_count_ (asm (session w'))
           = received_packet_count_ (asm (session w)) + 1
        /\ payload_buffer_ (asm (session w'))
           = payload_buffer_ (asm (session w)))
    /\ (size f < 5 ->
        uncaught w' = None
        /\ payloads w' = payloads w
        /\ sleepers w' = sleepers w
        /\ received_packet_count_ (asm (session w'))
           = received_packet_count_ (asm (session w))
        /\ payload_buffer_ (asm (session w'))
           = payload_buffer_ (asm (session w))).
Proof.
  intros Hreach Hun Hsub Hexp Hrec.
  pose proof (reachable_quiet mk w Hreach) as Hq.
  exists (exec mk NotifyThread (OnValueChanged f) w).
  split; [apply step_notification; assumption|].
  split.
  - (* exactly 5 bytes: counted, nothing appended *)
    intros H5.
    destruct (appended_fields f (clock w) (session w))
      as (Bb & Br & Be & Bty & Bpk & _).
    set (sB := appended f (size_noted f (stamped (clock w) (session w))))
      in *.
    assert (Hskip : skipn 5 f = []).
    { apply skipn_all2. unfold size in H5. lia. }
    rewrite Hskip, app_nil_r in Bb.
    assert (Bq : peek_due sB = false)
      by (apply (quiet_same (session w) sB Bpk Bb Bty Hq)).
    assert (O : OnValueChanged f (platform mk NotifyThread w) (session w)
                = Ret tt sB (if complete sB
                             then [Detach 50 SettleFinish] else [])).
    { rewrite OnValueChanged_process by (left; exact Hexp).
      apply ProcessPacket_next;
        [cbn [stamped set_wdog asm]; lia | lia | exact Bq]. }
    destruct (exec_Ret mk NotifyThread _ w _ _ O)
      as (Ws & _ & _ & Wp & Wu).
    split; [exact Wu|]. split.
    + rewrite Wp. destruct (complete sB); cbn; apply app_nil_r.
    + rewrite Ws. split; [exact Br|exact Bb].
  - (* fewer than 5 bytes: discarded *)
    intros Hlt.
    assert (O : OnValueChanged f (platform mk NotifyThread w) (session w)
                = Ret tt (stamped (clock w) (session w)) []).
    { rewrite OnValueChanged_process by (left; exact Hexp).
      apply ProcessPacket_drop. exact Hlt. }
    destruct (exec_Ret mk NotifyThread _ w _ _ O)
      as (Ws & _ & Wsl & Wp & Wu).
    cbn [map payloads_in flat_map spawned] in Wp, Wsl.
    rewrite app_nil_r in Wp, Wsl.
    split; [exact Wu|]. split; [exact Wp|]. split; [exact Wsl|].
    rewrite Ws. split; reflexivity.
Qed.

(** The two cases on the sample session with 1 of 3 fragments received. *)
Lemma short_continuation_witness :
  exists w0 w',
    run mktime_utc (connect_inputs ++ [Notification (short_head x03)])
        (boot 0) = Some w0
    /\ step mktime_utc (Notification [x01; x00; x00; x00; x00]) w0 = Some w'
    /\ received_packet_count_ (asm (session w')) = 2
    /\ payload_buffer_ (asm (session w')) = [x01; xaa; xbb].
Proof.
  pose (w0 := match run mktime_utc
                      (connect_inputs ++ [Notification (short_head x03)])
                      (boot 0) with
              | Some w => w
              | None => boot 0
              end).
  assert (Hrun : run mktime_utc
                     (connect_inputs ++ [Notification (short_head x03)])
                     (boot 0) = Some w0) by (vm_compute; reflexivity).
  destruct (short_continuation mktime_utc w0 [x01; x00; x00; x00; x00]
              (ex_intro _ 0 (ex_intro _ _ Hrun))
              eq_refl eq_refl eq_refl eq_refl)
    as (w' & Hstep & H5 & _).
  destruct (H5 eq_refl) as (_ & _ & Hr & Hb).
  exists w0, w'. split; [exact Hrun|]. split; [exact Hstep|].
  split; [exact Hr|exact Hb].
Defined.

(** * Further properties of the code *)

(** ** Address text *)

Section AddressArithmetic.

Lemma fold_step_mod (acc b : Z) :
  0 <= b < 256 ->
  fold_step acc b = ((acc mod 2 ^ 56) * 256 + b).
Proof.
  intros Hb. unfold fold_step, to_uint64, UINT64_MOD.
  rewrite Z.shiftl_mul_pow2 by lia. change (2 ^ 8) with 256.
  change (2 ^ 64) with (2 ^ 56 * 256).
  rewrite Z.mul_mod_distr_r by lia.
  rewrite Z.lor_comm. change 256 with (2 ^ 8) at 1.
  rewrite lor_add_mul by lia. change (2 ^ 8) with 256. lia.
Qed.

Lemma fold_step_wraps (acc A b : Z) :
  0 <= b < 256 ->
  acc = A mod 2 ^ 64 ->
  fold_step acc b = (A * 256 + b) mod 2 ^ 64.
Proof.
  intros Hb ->. rewrite fold_step_mod by exact Hb.
  pose proof (Z.div_mod A (2 ^ 64) ltac:(lia)) as H1.
  pose proof (Z.div_mod (A mod 2 ^ 64) (2 ^ 56) ltac:(lia)) as H2.
  pose proof (Z.mod_pos_bound A (2 ^ 64) ltac:(lia)) as HA.
  pose proof (Z.mod_pos_bound (A mod 2 ^ 64) (2 ^ 56) ltac:(lia)) as HA'.
  apply Z.mod_unique_pos
    with (q := 256 * (A / 2 ^ 64) + (A mod 2 ^ 64) / 2 ^ 56); lia.
Qed.

Lemma fold_left_wraps (vs : list Z) :
  Forall (fun v => 0 <= v < 256) vs ->
  forall acc A,
    acc = A mod 2 ^ 64 ->
    fold_left fold_step vs acc
    = fold_left (fun x b => x * 256 + b) vs A mod 2 ^ 64.
Proof.
  induction 1 as [|v vs Hv _ IH]; intros acc A Hacc; cbn [fold_left].
  - exact Hacc.
  - apply IH. apply fold_step_wraps; assumption.
Qed.

Lemma short_token_hex (t : std_string) :
  short_token t = true -> hex_token t = true /\ 0 <= hex_value t < 256.
Proof.
  unfold short_token, hex_token. intros H.
  apply andb_true_iff in H as [H Hhex].
  apply andb_true_iff in H as [Hlo Hhi].
  pose proof Hlo as Hlo'. pose proof Hhi as Hhi'.
  apply Nat.leb_le in Hlo', Hhi'.
  split.
  - rewrite Hlo, Hhex.
    replace (List.length t <=? 8)%nat with true; [reflexivity|].
    symmetry. apply Nat.leb_le. lia.
  - destruct (hex_run_all t Hhex 0 O ltac:(lia)) as [_ Hv].
    unfold hex_value. rewrite Z.mul_0_l, Z.add_0_l, Z.mul_1_l in Hv.
    split; [lia|].
    eapply Z.lt_le_trans; [apply Hv|].
    change 256 with (16 ^ 2). apply Z.pow_le_mono_r; lia.
Qed.

Lemma short_tokens_hex (toks : list std_string) :
  forallb short_token toks = true ->
  forallb hex_token toks = true
  /\ Forall (fun v => 0 <= v < 256) (map hex_value toks).
Proof.
  induction toks as [|t toks IH]; cbn [forallb map]; intros H.
  - split; [reflexivity|constructor].
  - apply andb_true_iff in H as [Ht Hrest].
    destruct (short_token_hex t Ht) as [Hh Hv].
    destruct (IH Hrest) as [Hhs Hvs].
    rewrite Hh, Hhs. split; [reflexivity|constructor; assumption].
Qed.

(** The loop of [Connect] on one- or two-digit tokens: the octets, most
    significant first, modulo 2^64. *)
Lemma parse_octets (toks : list std_string) :
  forallb short_token toks = true ->
  parse_loop (S (List.length (join_colon toks))) (join_colon toks) 0
  = Ok (big_endian (map hex_value toks) mod 2 ^ 64).
Proof.
  intros H. destruct (short_tokens_hex toks H) as [Hh Hv].
  rewrite (parse_loop_join toks Hh) by apply Nat.lt_succ_diag_r.
  f_equal. apply fold_left_wraps; [exact Hv|reflexivity].
Qed.

(** The six octets of an address, read back. *)
Lemma six_octets (a : Z) :
  big_endian
    [(a / 2 ^ 40) mod 256; (a / 2 ^ 32) mod 256; (a / 2 ^ 24) mod 256;
     (a / 2 ^ 16) mod 256; (a / 2 ^ 8) mod 256; (a / 2 ^ 0) mod 256]
  = a mod 2 ^ 48.
Proof.
  unfold big_endian. cbn [fold_left].
  change (2 ^ 40) with (256 * 256 * 256 * 256 * 256).
  change (2 ^ 32) with (256 * 256 * 256 * 256).
  change (2 ^ 24) with (256 * 256 * 256).
  change (2 ^ 16) with (256 * 256).
  change (2 ^ 8) with 256. change (2 ^ 0) with 1.
  change (2 ^ 48) with (256 * 256 * 256 * 256 * 256 * 256).
  rewrite (Z.mod_eq a (256 * 256 * 256 * 256 * 256 * 256)) by lia.
  rewrite <- !Z.div_div by lia.
  rewrite Z.div_1_r.
  set (q1 := a / 256). set (q2 := q1 / 256). set (q3 := q2 / 256).
  set (q4 := q3 / 256). set (q5 := q4 / 256). set (q6 := q5 / 256).
  pose proof (Z.div_mod a 256 ltac:(lia)).
  pose proof (Z.div_mod q1 256 ltac:(lia)).
  pose proof (Z.div_mod q2 256 ltac:(lia)).
  pose proof (Z.div_mod q3 256 ltac:(lia)).
  pose proof (Z.div_mod q4 256 ltac:(lia)).
  pose proof (Z.div_mod q5 256 ltac:(lia)).
  fold q1 in H. fold q2 in H0. fold q3 in H1. fold q4 in H2.
  fold q5 in H3. fold q6 in H4.
  lia.
Qed.

Lemma format_loop_tokens (a : Z) :
  format_loop 6 a
  = join_colon
      (map (ostream_hex 2 "0")
         [(a / 2 ^ 40) mod 256; (a / 2 ^ 32) mod 256; (a / 2 ^ 24) mod 256;
          (a / 2 ^ 16) mod 256; (a / 2 ^ 8) mod 256; (a / 2 ^ 0) mod 256]).
Proof.
  cbn [format_loop Z.of_nat Pos.of_succ_nat Pos.succ Z.ltb Z.compare
       Pos.compare Pos.compare_cont map join_colon].
  rewrite !octet_div by lia.
  change ([] ++ @nil ascii) with (@nil ascii). rewrite app_nil_r.
  reflexivity.
Qed.

End AddressArithmetic.

Section AddressTexts.

(** An octet as [OnAdvertisementReceived] prints it: two lower-case hex
    digits that read back as the octet, also after [toupper]. *)
Lemma printed_octet (b : Z) :
  0 <= b < 256 ->
  short_token (ostream_hex 2 "0" b) = true
  /\ hex_value (ostream_hex 2 "0" b) = b
  /\ List.length (ostream_hex 2 "0" b) = 2%nat
  /\ forallb lower_hex (ostream_hex 2 "0" b) = true
  /\ short_token (map toupper (ostream_hex 2 "0" b)) = true
  /\ hex_value (map toupper (ostream_hex 2 "0" b)) = b.
Proof.
  intros Hb.
  pose proof (below_256
    (fun b => short_token (ostream_hex 2 "0" b)
              && (hex_value (ostream_hex 2 "0" b) =? b)
              && (List.length (ostream_hex 2 "0" b) =? 2)%nat
              && forallb lower_hex (ostream_hex 2 "0" b)
              && short_token (map toupper (ostream_hex 2 "0" b))
              && (hex_value (map toupper (ostream_hex 2 "0" b)) =? b)))
    as H.
  cbv beta in H. specialize (H ltac:(vm_compute; reflexivity) b Hb).
  apply andb_true_iff in H as [H H6]. apply andb_true_iff in H as [H H5].
  apply andb_true_iff in H as [H H4]. apply andb_true_iff in H as [H H3].
  apply andb_true_iff in H as [H1 H2].
  apply Z.eqb_eq in H2, H6. apply Nat.eqb_eq in H3.
  repeat split; assumption.
Qed.

Lemma length_string_of_list (l : std_string) :
  String.length (string_of_list_ascii l) = List.length l.
Proof. induction l as [|c l IH]; cbn; [reflexivity|rewrite IH; reflexivity]. Qed.

Lemma octet_bound (a i : Z) : 0 <= (a / 2 ^ i) mod 256 < 256.
Proof. apply Z.mod_pos_bound. lia. Qed.

Lemma map_toupper_join (toks : list std_string) :
  map toupper (join_colon toks) = join_colon (map (map toupper) toks).
Proof.
  induction toks as [|t [|t' rest] IH]; [reflexivity|reflexivity|].
  change (join_colon (t :: t' :: rest))
    with (t ++ ":"%char :: join_colon (t' :: rest)).
  rewrite map_app. cbn [map]. rewrite IH. reflexivity.
Qed.

(** The loop of [Connect] past tokens that are each closed by a colon. *)
Lemma parse_loop_terminated (toks : list std_string) :
  forallb hex_token toks = true ->
  forall rest fuel acc,
    parse_loop (List.length toks + fuel) (colon_terminated toks ++ rest) acc
    = parse_loop fuel rest (fold_left fold_step (map hex_value toks) acc).
Proof.
  induction toks as [|t toks IH]; intros Hall rest fuel acc.
  - reflexivity.
  - cbn [forallb] in Hall. apply andb_true_iff in Hall as [Ht Hrest].
    destruct (hex_token_chars t Ht) as [Hhex Hne].
    cbn [colon_terminated flat_map List.length Nat.add parse_loop map
         fold_left].
    fold (colon_terminated toks).
    rewrite <- !app_assoc. cbn [app].
    unfold getline.
    destruct (t ++ ":"%char :: colon_terminated toks ++ rest) eqn:E;
      [destruct t; discriminate E|].
    rewrite <- E, (read_until_token _ _ Hhex), (stoul16_token _ Ht).
    apply IH. exact Hrest.
Qed.

End AddressTexts.

(** What [OnAdvertisementReceived] prints, [Connect] reads back up to the
    two unprinted upper bytes. *)
Lemma parse_format_low48 (a : Z) :
  ParseAddress (FormatAddress a) = Ok (a mod 2 ^ 48).
Proof.
  unfold ParseAddress, FormatAddress.
  rewrite list_ascii_of_string_of_list_ascii, format_loop_tokens.
  rewrite parse_octets.
  - rewrite map_map. cbn [map].
    rewrite !(proj1 (proj2 (printed_octet _ (octet_bound a _)))).
    rewrite six_octets.
    pose proof (Z.mod_pos_bound a (2 ^ 48) ltac:(lia)).
    rewrite Z.mod_small by lia. reflexivity.
  - cbn [map forallb].
    rewrite !(proj1 (printed_octet _ (octet_bound a _))). reflexivity.
Qed.

(** X1. The address text of a scan result reads back, through the parse of
    [Connect], as the low 48 bits of the advertised address: the two
    upper bytes of the 64-bit address are not printed. *)
Theorem ParseAddress_FormatAddress_low48 (a : Z) :
  ParseAddress (FormatAddress a) = Ok (a mod 2 ^ 48).
Proof. exact (parse_format_low48 a). Qed.

(** X2. The address text is always seventeen characters: six groups of
    two lower-case hexadecimal digits joined by colons. *)
Theorem FormatAddress_shape (a : Z) :
  exists toks,
    FormatAddress a = string_of_list_ascii (join_colon toks)
    /\ List.length toks = 6%nat
    /\ Forall (fun t => List.length t = 2%nat
                        /\ forallb lower_hex t = true) toks
    /\ String.length (FormatAddress a) = 17%nat.
Proof.
  unfold FormatAddress. rewrite format_loop_tokens.
  eexists. split; [reflexivity|]. split; [reflexivity|].
  assert (HF : Forall (fun t => List.length t = 2%nat
                                /\ forallb lower_hex t = true)
                 (map (ostream_hex 2 "0")
                    [(a / 2 ^ 40) mod 256; (a / 2 ^ 32) mod 256;
                     (a / 2 ^ 24) mod 256; (a / 2 ^ 16) mod 256;
                     (a / 2 ^ 8) mod 256; (a / 2 ^ 0) mod 256])).
  { apply Forall_forall. intros t Ht.
    apply in_map_iff in Ht as (b & <- & Hb).
    assert (Hr : 0 <= b < 256).
    { cbn [In] in Hb.
      repeat (destruct Hb as [<-|Hb]; [apply octet_bound|]).
      contradiction. }
    destruct (printed_octet b Hr) as (_ & _ & Hl & Hh & _).
    split; assumption. }
  split; [exact HF|].
  rewrite length_string_of_list. cbn [map join_colon].
  repeat (rewrite length_app; cbn [List.length]).
  rewrite !(proj1 (proj2 (proj2 (printed_octet _ (octet_bound a _))))).
  reflexivity.
Qed.

(** X3. The parse of [Connect] does not care about the case of the hex
    digits: the address text in upper case reads back as the same
    address. *)
Theorem ParseAddress_upper_case (a : Z) :
  ParseAddress (upper (FormatAddress a)) = Ok (a mod 2 ^ 48).
Proof.
  unfold ParseAddress, upper, FormatAddress.
  rewrite !list_ascii_of_string_of_list_ascii, format_loop_tokens.
  rewrite map_toupper_join, parse_octets.
  - rewrite !map_map. cbn [map].
    rewrite !(proj2 (proj2 (proj2 (proj2 (proj2
                (printed_octet _ (octet_bound a _))))))).
    rewrite six_octets.
    pose proof (Z.mod_pos_bound a (2 ^ 48) ltac:(lia)).
    rewrite Z.mod_small by lia. reflexivity.
  - rewrite map_map. cbn [map forallb].
    rewrite !(proj1 (proj2 (proj2 (proj2 (proj2
                (printed_octet _ (octet_bound a _))))))).
    reflexivity.
Qed.

(** X4. Any number of colon-separated tokens of one or two hex digits is
    read as a big-endian number modulo 2^64: with more than eight tokens
    the leading ones are shifted out, with fewer than six the address is
    short. *)
Theorem ParseAddress_big_endian (toks : list std_string) :
  forallb short_token toks = true ->
  ParseAddress (string_of_list_ascii (join_colon toks))
  = Ok (big_endian (map hex_value toks) mod 2 ^ 64).
Proof.
  intros H. unfold ParseAddress.
  rewrite list_ascii_of_string_of_list_ascii. apply parse_octets. exact H.
Qed.

(** Nine tokens: the first one is shifted out. *)
Lemma ParseAddress_big_endian_witness :
  ParseAddress "ff:01:02:03:04:05:06:07:08" = Ok 0x0102030405060708.
Proof.
  exact (ParseAddress_big_endian
           (map list_ascii_of_string
              ["ff"; "01"; "02"; "03"; "04"; "05"; "06"; "07"; "08"]%string)
           eq_refl).
Defined.

(** X5. An empty token makes [std::stoul] throw: after any well-formed
    tokens, each closed by its colon, a further colon (a doubled colon, or
    a colon at the very start) ends the parse with
    [std::invalid_argument], whatever follows. *)
Theorem ParseAddress_empty_token (toks : list std_string) (rest : std_string) :
  forallb hex_token toks = true ->
  ParseAddress
    (string_of_list_ascii (colon_terminated toks ++ ":"%char :: rest))
  = Throw invalid_argument.
Proof.
  intros H. unfold ParseAddress.
  rewrite list_ascii_of_string_of_list_ascii.
  set (ss := colon_terminated toks ++ ":"%char :: rest).
  assert (Hlen : (List.length toks + 1 <= List.length ss)%nat).
  { unfold ss. rewrite length_app. cbn [List.length].
    assert (List.length toks <= List.length (colon_terminated toks))%nat;
      [|lia].
    clear. induction toks as [|t toks IH]; [cbn; lia|].
    cbn [colon_terminated flat_map List.length].
    fold (colon_terminated toks).
    rewrite !length_app. cbn [List.length]. lia. }
  replace (S (List.length ss))
    with (List.length toks + (S (List.length ss) - List.length toks))%nat
    by lia.
  unfold ss. rewrite (parse_loop_terminated toks H).
  destruct (S (List.length (colon_terminated toks ++ ":"%char :: rest))
            - List.length toks)%nat eqn:E; [fold ss in E; lia|].
  reflexivity.
Qed.

(** A doubled colon after two tokens. *)
Lemma ParseAddress_empty_token_witness :
  ParseAddress "0a:1b::2c" = Throw invalid_argument.
Proof.
  exact (ParseAddress_empty_token
           (map list_ascii_of_string ["0a"; "1b"]%string)
           (list_ascii_of_string "2c") eq_refl).
Defined.

(** X6. A colon after the last token is ignored: [std::getline] finds the
    stream at its end and the loop stops with the tokens read so far. *)
Theorem ParseAddress_trailing_colon (toks : list std_string) :
  forallb hex_token toks = true ->
  ParseAddress (string_of_list_ascii (colon_terminated toks))
  = Ok (fold_left fold_step (map hex_value toks) 0).
Proof.
  intros H. unfold ParseAddress.
  rewrite list_ascii_of_string_of_list_ascii.
  set (ss := colon_terminated toks).
  assert (Hlen : (List.length toks <= List.length ss)%nat).
  { unfold ss. clear. induction toks as [|t toks IH]; [cbn; lia|].
    cbn [colon_terminated flat_map List.length].
    fold (colon_terminated toks).
    rewrite !length_app. cbn [List.length]. lia. }
  replace (S (List.length ss))
    with (List.length toks + (S (List.length ss) - List.length toks))%nat
    by lia.
  rewrite <- (app_nil_r ss). unfold ss.
  rewrite (parse_loop_terminated toks H).
  destruct (S (List.length (colon_terminated toks ++ []))
            - List.length toks)%nat; reflexivity.
Qed.

(** Six tokens and a closing colon. *)
Lemma ParseAddress_trailing_colon_witness :
  ParseAddress "0a:1b:2c:3d:4e:5f:" = Ok 0x0a1b2c3d4e5f.
Proof.
  exact (ParseAddress_trailing_colon
           (map list_ascii_of_string
              ["0a"; "1b"; "2c"; "3d"; "4e"; "5f"]%string)
           eq_refl).
Defined.

(** ** Scanning *)

Section ScanFacts.

Lemma toupper_is_P (c : ascii) :
  Ascii.eqb "P" (toupper c) = Ascii.eqb c "P" || Ascii.eqb c "p".
Proof. destruct c as [[] [] [] [] [] [] [] []]; reflexivity. Qed.

Lemma toupper_is_O (c : ascii) :
  Ascii.eqb "O" (toupper c) = Ascii.eqb c "O" || Ascii.eqb c "o".
Proof. destruct c as [[] [] [] [] [] [] [] []]; reflexivity. Qed.

Lemma toupper_is_D (c : ascii) :
  Ascii.eqb "D" (toupper c) = Ascii.eqb c "D" || Ascii.eqb c "d".
Proof. destruct c as [[] [] [] [] [] [] [] []]; reflexivity. Qed.

(** The test [upperName.find("POD") != 0] on the original name. *)
Lemma starts_with_POD (name : std_string) :
  starts_with (list_ascii_of_string "POD") (map toupper name)
  = pod_prefix name.
Proof.
  destruct name as [|c1 [|c2 [|c3 rest]]]; cbn [map starts_with pod_prefix
    list_ascii_of_string].
  - reflexivity.
  - rewrite andb_false_r. reflexivity.
  - rewrite !andb_false_r. reflexivity.
  - rewrite toupper_is_P, toupper_is_O, toupper_is_D, andb_true_r.
    rewrite andb_assoc. reflexivity.
Qed.

Lemma OnAdvertisementReceived_cases (name : string) (a r : Z)
    (p : Platform) (s : PodBLECore) :
  OnAdvertisementReceived name a r p s
  = Ret tt s
        (if pod_prefix (list_ascii_of_string name) && on_scan_ (callbacks s)
         then [ScanResult name (FormatAddress a) r] else []).
Proof.
  unfold OnAdvertisementReceived. rewrite starts_with_POD.
  destruct (pod_prefix (list_ascii_of_string name)); cbn [negb andb].
  - unfold bind, get, when, emit, ret. cbn.
    destruct (on_scan_ (callbacks s)); reflexivity.
  - reflexivity.
Qed.

(** [Connect] on a text that parses. *)
Lemma Connect_parsed (text : string) (addr : Z) (p : Platform)
    (s : PodBLECore) :
  ParseAddress text = Ok addr ->
  Connect text p s
  = Ret tt (set_ble {| watcher_ := false; device_ := device_ (ble s);
                       write_char_ := write_char_ (ble s);
                       notify_char_ := notify_char_ (ble s) |} s)
        ((if on_status_ (callbacks s) then [Status "Connecting..."] else [])
           ++ [ConnectRequest addr]).
Proof.
  intros H. unfold Connect, StopScan, bind, modify, get, when, emit, ret.
  cbn -[ParseAddress].
  destruct (on_status_ (callbacks s)); cbn -[ParseAddress]; rewrite H;
    reflexivity.
Qed.

End ScanFacts.

(** X7. An advertisement is reported exactly when a scan callback is set
    and the advertised name begins with [P], [O], [D] in either case, each
    letter on its own; the report carries the name as advertised, the
    address text and the signal strength, and the session is not
    changed. *)
Theorem advertisement_filter (name : string) (a r : Z) (p : Platform)
    (s : PodBLECore) :
  OnAdvertisementReceived name a r p s
  = Ret tt s
        (if pod_prefix (list_ascii_of_string name) && on_scan_ (callbacks s)
         then [ScanResult name (FormatAddress a) r] else []).
Proof. exact (OnAdvertisementReceived_cases name a r p s). Qed.

(** X8. The identifier of a scan result, handed back to [Connect], asks
    the transport for the device that advertised (its address modulo
    2^48), after stopping the scan and reporting "Connecting...". *)
Theorem scan_result_connects (name : string) (a r : Z) (p p' : Platform)
    (s s' : PodBLECore) :
  pod_prefix (list_ascii_of_string name) = true ->
  on_scan_ (callbacks s) = true ->
  exists id s'',
    OnAdvertisementReceived name a r p s = Ret tt s [ScanResult name id r]
    /\ Connect id p' s'
       = Ret tt s''
             ((if on_status_ (callbacks s')
               then [Status "Connecting..."] else [])
                ++ [ConnectRequest (a mod 2 ^ 48)])
    /\ watcher_ (ble s'') = false.
Proof.
  intros Hpod Hcb. exists (FormatAddress a). eexists.
  split; [|split].
  - rewrite OnAdvertisementReceived_cases, Hpod, Hcb. reflexivity.
  - apply Connect_parsed. apply parse_format_low48.
  - reflexivity.
Qed.

(** A pod seen while scanning on the sample session, then connected to. *)
Lemma scan_result_connects_witness :
  exists id s'',
    OnAdvertisementReceived "pod-42" 0x0a1b2c3d4e5f (-60)
      (on_thread NotifyThread 0 mktime_utc) (session connected)
    = Ret tt (session connected) [ScanResult "pod-42" id (-60)]
    /\ Connect id (on_thread HostThread 1 mktime_utc) (session connected)
       = Ret tt s''
             [Status "Connecting..."; ConnectRequest 0x0a1b2c3d4e5f]
    /\ watcher_ (ble s'') = false.
Proof.
  exact (scan_result_connects "pod-42" 0x0a1b2c3d4e5f (-60)
           (on_thread NotifyThread 0 mktime_utc)
           (on_thread HostThread 1 mktime_utc)
           (session connected) (session connected) eq_refl eq_refl).
Defined.

(** ** Standard intervals and the estimated duration *)

Section SnapFacts.

Ltac snap_cases :=
  repeat (cbn [fold_left snap_step fst snd];
          match goal with
          | |- context [if ?a <? ?b then _ else _] =>
              destruct (Z.ltb_spec a b); try lia
          end);
  cbn [fold_left snap_step fst snd]; try reflexivity; try lia.

Lemma Snap_is_table (raw : Z) :
  - 2 ^ 62 <= raw <= 2 ^ 62 ->
  SnapToStandardInterval raw = snap_table raw.
Proof.
  intros Hraw. unfold SnapToStandardInterval, snap_table, targets, INT64_MAX.
  destruct (Z.leb_spec raw 150); [snap_cases|].
  destruct (Z.leb_spec raw 250); [snap_cases|].
  destruct (Z.leb_spec raw 350); [snap_cases|].
  destruct (Z.leb_spec raw 450); [snap_cases|].
  destruct (Z.leb_spec raw 550); [snap_cases|].
  destruct (Z.leb_spec raw 650); [snap_cases|].
  destruct (Z.leb_spec raw 750); [snap_cases|].
  destruct (Z.leb_spec raw 850); [snap_cases|].
  destruct (Z.leb_spec raw 950); snap_cases.
Qed.

Lemma snap_table_range (raw : Z) : 100 <= snap_table raw <= 1000.
Proof.
  unfold snap_table.
  repeat match goal with
         | |- context [if ?a <=? ?b then _ else _] => destruct (a <=? b)
         end; lia.
Qed.

Lemma interval_range (buf : list byte) : 100 <= interval buf <= 1000.
Proof.
  unfold interval. rewrite Snap_is_table; [apply snap_table_range|].
  unfold to_uint32, UINT32_MOD.
  match goal with
  | |- _ <= ?x mod ?m <= _ => pose proof (Z.mod_pos_bound x m ltac:(lia))
  end.
  lia.
Qed.

End SnapFacts.

(** X9. [SnapToStandardInterval] by thresholds: up to 150 it gives 100,
    up to 250 it gives 200, and so on to 900 up to 950 and 1000 above; a
    value half-way between two standard intervals goes to the lower one,
    and the result always lies between 100 and 1000. *)
Theorem SnapToStandardInterval_table (raw : Z) :
  - 2 ^ 62 <= raw <= 2 ^ 62 ->
  SnapToStandardInterval raw = snap_table raw
  /\ 100 <= SnapToStandardInterval raw <= 1000.
Proof.
  intros H. rewrite (Snap_is_table raw H).
  split; [reflexivity|apply snap_table_range].
Qed.

(** The half-way value 950. *)
Lemma SnapToStandardInterval_table_witness :
  - 2 ^ 62 <= 950 <= 2 ^ 62
  /\ SnapToStandardInterval 950 = 900.
Proof.
  split; [lia|].
  exact (proj1 (SnapToStandardInterval_table 950 ltac:(lia))).
Defined.

(** X10. [SnapToStandardInterval] is monotone, and it leaves each of the
    ten standard intervals as it is. *)
Theorem SnapToStandardInterval_monotone (raw1 raw2 : Z) :
  - 2 ^ 62 <= raw1 -> raw1 <= raw2 -> raw2 <= 2 ^ 62 ->
  SnapToStandardInterval raw1 <= SnapToStandardInterval raw2
  /\ (In raw1 targets -> SnapToStandardInterval raw1 = raw1).
Proof.
  intros H1 H12 H2.
  rewrite (Snap_is_table raw1) by lia. rewrite (Snap_is_table raw2) by lia.
  split.
  - unfold snap_table.
    repeat match goal with
           | |- context [if ?a <=? ?b then _ else _] =>
               destruct (Z.leb_spec a b)
           end; lia.
  - unfold targets. cbn [In]. intros Hin.
    repeat (destruct Hin as [<-|Hin]; [reflexivity|]). contradiction.
Qed.

(** Two raw intervals around the half-way value 250. *)
Lemma SnapToStandardInterval_monotone_witness :
  SnapToStandardInterval 250 <= SnapToStandardInterval 251
  /\ (In 250 targets -> SnapToStandardInterval 250 = 250).
Proof.
  exact (SnapToStandardInterval_monotone 250 251
           ltac:(lia) ltac:(lia) ltac:(lia)).
Defined.

Section DurationFacts.

Lemma quot64_bound (a : Z) : Z.abs (Z.quot a 64) * 64 <= Z.abs a.
Proof.
  assert (H : Z.abs (Z.quot a 64) = Z.abs a / 64).
  { rewrite <- (Z.quot_abs a 64) by lia. change (Z.abs 64) with 64.
    apply Z.quot_div_nonneg; lia. }
  rewrite H.
  pose proof (Z.mul_div_le (Z.abs a) 64 ltac:(lia)). lia.
Qed.

End DurationFacts.

(** X11. The arithmetic of the estimated duration stays inside [int64_t]
    for every expected count an [int] can hold and every fragment size up
    to 65535: neither the product nor the duration overflows, and a
    non-negative count gives a non-negative duration. *)
Theorem dur_fits_int64 (s : PodBLECore) :
  - 2 ^ 31 <= total_expected_packets_ (asm s) < 2 ^ 31 ->
  0 <= actual_packet_size_ (asm s) <= 65535 ->
  - 2 ^ 63 <= total_expected_packets_ (asm s) * ppp s < 2 ^ 63
  /\ - 2 ^ 63 <= dur s < 2 ^ 63
  /\ (0 <= total_expected_packets_ (asm s) -> 0 <= dur s).
Proof.
  intros He Ha. unfold dur.
  pose proof (interval_range (payload_buffer_ (asm s))) as Hi.
  assert (Hp : 59 <= ppp s <= 65530) by (unfold ppp; lia).
  set (e := total_expected_packets_ (asm s)) in *.
  set (q := Z.quot (e * ppp s) 64).
  pose proof (quot64_bound (e * ppp s)) as Hq. fold q in Hq.
  assert (Hprod : Z.abs (e * ppp s) <= 2 ^ 31 * 65530).
  { rewrite Z.abs_mul. apply Z.mul_le_mono_nonneg; lia. }
  split; [lia|]. split.
  - assert (Hq' : Z.abs q <= 2 ^ 41) by lia.
    assert (Z.abs (q * interval (payload_buffer_ (asm s)))
            <= 2 ^ 41 * 1000).
    { rewrite Z.abs_mul. apply Z.mul_le_mono_nonneg; lia. }
    lia.
  - intros Hpos. apply Z.mul_nonneg_nonneg; [|lia].
    apply Z.quot_pos; [|lia]. apply Z.mul_nonneg_nonneg; lia.
Qed.

(** The sample recording: 3 fragments of 137 bytes. *)
Lemma dur_fits_int64_witness :
  - 2 ^ 63 <= dur (peeking 0 1000) < 2 ^ 63
  /\ 0 <= dur (peeking 0 1000).
Proof.
  destruct (dur_fits_int64 (peeking 0 1000)
              ltac:(vm_compute; split; [discriminate|reflexivity])
              ltac:(vm_compute; split; discriminate))
    as (_ & H1 & H2).
  split; [exact H1|]. apply H2. vm_compute. discriminate.
Defined.

(** ** The download command *)

Section CommandFacts.

Lemma before_paren_prefix (l : std_string) :
  exists rest, l = before_paren l ++ rest.
Proof.
  induction l as [|c l [rest IH]]; [exists []; reflexivity|].
  cbn [before_paren]. destruct (Ascii.eqb c "(").
  - exists (c :: l). reflexivity.
  - exists rest. cbn [app]. rewrite <- IH. reflexivity.
Qed.

Lemma before_paren_clean (l : std_string) :
  forallb (fun c => negb (Ascii.eqb c "(")) (before_paren l) = true.
Proof.
  induction l as [|c l IH]; [reflexivity|].
  cbn [before_paren]. destruct (Ascii.eqb c "(") eqn:E; [reflexivity|].
  cbn [forallb]. rewrite E, IH. reflexivity.
Qed.

Lemma before_paren_same (l : std_string) :
  forallb (fun c => negb (Ascii.eqb c "(")) l = true -> before_paren l = l.
Proof.
  induction l as [|c l IH]; [reflexivity|].
  cbn [forallb before_paren]. intros H.
  apply andb_true_iff in H as [Hc Hl].
  destruct (Ascii.eqb c "("); [discriminate Hc|].
  rewrite (IH Hl). reflexivity.
Qed.

Lemma trim_prefix (l : std_string) :
  exists rest, l = trim_trailing_spaces l ++ rest.
Proof.
  induction l as [|c l [rest IH]]; [exists []; reflexivity|].
  cbn [trim_trailing_spaces].
  destruct (trim_trailing_spaces l) as [|c' r'] eqn:E.
  - destruct (Ascii.eqb c " ").
    + exists (c :: l). reflexivity.
    + exists rest. cbn [app] in *. rewrite <- IH. reflexivity.
  - exists rest. cbn [app] in *. rewrite <- IH. reflexivity.
Qed.

Lemma trim_last (l : std_string) :
  last (trim_trailing_spaces l) "x"%char <> " "%char.
Proof.
  induction l as [|c l IH]; [discriminate|].
  cbn [trim_trailing_spaces].
  destruct (trim_trailing_spaces l) as [|c' r'] eqn:E.
  - destruct (Ascii.eqb_spec c " "); [discriminate|]. cbn. assumption.
  - exact IH.
Qed.

Lemma trim_same (l : std_string) :
  last l "x"%char <> " "%char -> trim_trailing_spaces l = l.
Proof.
  induction l as [|c l IH]; [reflexivity|].
  intros H. cbn [trim_trailing_spaces].
  destruct l as [|c' l'].
  - cbn in H |- *. destruct (Ascii.eqb_spec c " "); [contradiction|reflexivity].
  - rewrite IH by exact H. reflexivity.
Qed.

Lemma forallb_prefix {A : Type} (f : A -> bool) (l l' rest : list A) :
  l = l' ++ rest -> forallb f l = true -> forallb f l' = true.
Proof.
  intros -> H. rewrite forallb_app in H.
  apply andb_true_iff in H as [H _]. exact H.
Qed.

Lemma firstn_padded (l : list byte) :
  firstn 32 l ++ repeat x00 (32 - List.length (firstn 32 l))
  = firstn 32 (l ++ repeat x00 32).
Proof.
  rewrite firstn_app.
  destruct (Nat.le_gt_cases 32 (List.length l)) as [Hlong|Hshort].
  - rewrite length_firstn, Nat.min_l by exact Hlong.
    replace (32 - List.length l)%nat with 0%nat by lia. reflexivity.
  - rewrite firstn_all2 by lia. f_equal.
    assert (G : forall k m, (k <= m)%nat ->
                            firstn k (repeat x00 m) = repeat x00 k).
    { induction k as [|k IH]; intros m Hm; [reflexivity|].
      destruct m as [|m]; [lia|]. cbn. rewrite IH by lia. reflexivity. }
    symmetry. apply G. lia.
Qed.

End CommandFacts.

(** X12. The download command is always 34 bytes: [0x06], [0x20], then
    the cleaned name cut to 32 bytes and padded with zeros. *)
Theorem download_command_frame (filename : string) :
  List.length (download_command filename) = 34%nat
  /\ download_command filename
     = [x06; x20]
         ++ firstn 32 (map byte_of_ascii (cleanName filename)
                         ++ repeat x00 32).
Proof.
  unfold download_command. rewrite firstn_padded. split; [|reflexivity].
  cbn [app List.length]. rewrite length_firstn, length_app, repeat_length.
  lia.
Qed.

(** X13. The name sent to the device is a prefix of the file name that
    holds no opening parenthesis and does not end in a space; a file name
    that already is of that kind is sent as it is. *)
Theorem cleanName_spec (filename : string) :
  (exists rest, list_ascii_of_string filename = cleanName filename ++ rest)
  /\ forallb (fun c => negb (Ascii.eqb c "(")) (cleanName filename) = true
  /\ last (cleanName filename) "x"%char <> " "%char
  /\ (forallb (fun c => negb (Ascii.eqb c "("))
              (list_ascii_of_string filename) = true ->
      last (list_ascii_of_string filename) "x"%char <> " "%char ->
      cleanName filename = list_ascii_of_string filename).
Proof.
  unfold cleanName. set (l := list_ascii_of_string filename).
  destruct (before_paren_prefix l) as [r1 H1].
  destruct (trim_prefix (before_paren l)) as [r2 H2].
  split; [|split; [|split]].
  - exists (r2 ++ r1). rewrite app_assoc, <- H2. exact H1.
  - exact (forallb_prefix _ _ _ _ H2 (before_paren_clean l)).
  - apply trim_last.
  - intros Hp Hs. rewrite (before_paren_same l Hp). apply trim_same, Hs.
Qed.

(** The name of the specification's example. *)
Lemma cleanName_spec_witness :
  cleanName "Log (copy)  " = list_ascii_of_string "Log"
  /\ cleanName "Log" = list_ascii_of_string "Log".
Proof.
  split; [reflexivity|].
  exact (proj2 (proj2 (proj2 (cleanName_spec "Log"))) eq_refl
           ltac:(discriminate)).
Defined.

(** ** Session operations, from start to end *)

Lemma DownloadFile_on_host (t : Z) (mk : tm -> Z) (s : PodBLECore)
    (filename : string) (start end_ n i : Z) :
  DownloadFile filename start end_ n i (on_thread HostThread t mk) s
  = Ret tt
        {| callbacks := callbacks s;
           ble := ble s;
           asm := {| payload_buffer_ := [];
                     received_packet_count_ := 0;
                     total_expected_packets_ := 0;
                     actual_packet_size_ := 0;
                     current_message_type_ :=
                       current_message_type_ (asm s) |};
           peek := {| filter_start_ := start;
                      filter_end_ := end_;
                      is_filtering_ := (0 <? start) || (0 <? end_);
                      is_smart_peek_done_ := false |};
           wdog := {| watchdog_running_ := true;
                      watchdog_thread_ := true;
                      last_packet_time_ := t |};
           alive_ := alive_ s |}
        (if write_char_ (ble s)
         then [GattWrite (download_command filename)] else []).
Proof.
  unfold DownloadFile, StartWatchdog, StopWatchdog, ResetDownloadState,
    WriteCommand, bind, modify, get, ask, emit, ret, throw.
  destruct s as [cb [w d wc nc] am pk [r j l] al].
  cbn -[download_command]. destruct j, wc; reflexivity.
Qed.

(** X14. [DownloadFile], called by the host in whatever state, returns
    with the message state reset (a partial buffer is dropped without a
    payload event), the filter bounds stored, filtering active exactly when
    a bound is positive, Smart Peek re-armed, the last-activity time set to
    now and the watchdog running; it writes the 34-byte command when the
    write characteristic is there and nothing otherwise. *)
Theorem DownloadFile_starts_afresh (t : Z) (mk : tm -> Z) (s : PodBLECore)
    (filename : string) (start end_ n i : Z) :
  DownloadFile filename start end_ n i (on_thread HostThread t mk) s
  = Ret tt
        {| callbacks := callbacks s;
           ble := ble s;
           asm := {| payload_buffer_ := [];
                     received_packet_count_ := 0;
                     total_expected_packets_ := 0;
                     actual_packet_size_ := 0;
                     current_message_type_ :=
                       current_message_type_ (asm s) |};
           peek := {| filter_start_ := start;
                      filter_end_ := end_;
                      is_filtering_ := (0 <? start) || (0 <? end_);
                      is_smart_peek_done_ := false |};
           wdog := {| watchdog_running_ := true;
                      watchdog_thread_ := true;
                      last_packet_time_ := t |};
           alive_ := alive_ s |}
        (if write_char_ (ble s)
         then [GattWrite (download_command filename)] else []).
Proof. exact (DownloadFile_on_host t mk s filename start end_ n i). Qed.

(** X15. [Disconnect] twice is [Disconnect] once, as far as the session
    goes: the second call changes nothing, closes no device and only
    repeats the sleep release and the "Disconnected" status. *)
Theorem Disconnect_idempotent (t t' : Z) (mk : tm -> Z) (s : PodBLECore) :
  exists s1 out1,
    Disconnect (on_thread HostThread t mk) s = Ret tt s1 out1
    /\ Disconnect (on_thread HostThread t' mk) s1
       = Ret tt s1
             (ExecutionState ES_CONTINUOUS
                :: (if on_status_ (callbacks s)
                    then [Status "Disconnected"] else [])).
Proof.
  unfold Disconnect, StopWatchdog, AllowSleep, set_notify_char,
    set_write_char, set_device, ResetDownloadState, status,
    bind, modify, get, ask, emit, ret, throw, when.
  destruct s as [[st sc pl] [w d wc nc] am pk [r j l] al].
  cbn. destruct j, d, st; cbn; do 2 eexists; split; reflexivity.
Qed.

(** X16. Once the destructor has run, a detached thread that wakes does
    nothing: whatever its body (scan stop, settled finish, skip signal),
    the session and the log of effects stay as they are. *)
Theorem no_effect_after_destruction (mk : tm -> Z) (w w' : World)
    (k : nat) :
  alive_ (session w) = false ->
  step mk (Wakes k) w = Some w' ->
  session w' = session w
  /\ observed w' = observed w
  /\ uncaught w' = None.
Proof.
  intros Hal Hstep. unfold step in Hstep.
  destruct (uncaught w); [discriminate|].
  destruct (nth_error (sleepers w) k) as [[due tk]|]; [|discriminate].
  destruct (due <=? clock w); [|discriminate].
  inversion Hstep; subst w'; clear Hstep.
  unfold exec, run_task, bind, get, when, ret. cbn.
  rewrite Hal. destruct tk; cbn; rewrite app_nil_r; auto.
Qed.

(** The skip signal of a cancelled download wakes after the
    destructor. *)
Lemma no_effect_after_destruction_witness :
  sleepers destroyed = [(600, SkipSignal)]
  /\ exists w',
      step mktime_utc (Wakes 0) destroyed = Some w'
      /\ session w' = session destroyed
      /\ observed w' = observed destroyed
      /\ uncaught w' = None.
Proof.
  split; [vm_compute; reflexivity|].
  eexists. split; [vm_compute; reflexivity|].
  apply (no_effect_after_destruction mktime_utc destroyed _ 0).
  - vm_compute. reflexivity.
  - vm_compute. reflexivity.
Defined.

(** ** Invariants of the session *)

Section Maintains.

Variable I : PodBLECore -> Prop.
Variable E : exn -> PodBLECore -> Prop.
Variable Q : effect -> Prop.
Hypothesis thrown : forall e s, I s -> E e s.
Hypothesis caught : forall s, E hresult_error s -> I s.
Variable p : Platform.

Lemma maintains_ret {A : Type} (a : A) : maintains I E Q (ret a) p.
Proof. intros s H. split; [exact H|constructor]. Qed.

Lemma maintains_get : maintains I E Q get p.
Proof. intros s H. split; [exact H|constructor]. Qed.

Lemma maintains_ask : maintains I E Q ask p.
Proof. intros s H. split; [exact H|constructor]. Qed.

Lemma maintains_emit (e : effect) : Q e -> maintains I E Q (emit e) p.
Proof. intros He s H. split; [exact H|repeat constructor; exact He]. Qed.

Lemma maintains_throw {A : Type} (e : exn) :
  maintains I E Q (@throw A e) p.
Proof. intros s H. split; [apply thrown; exact H|constructor]. Qed.

Lemma maintains_modify (f : PodBLECore -> PodBLECore) :
  (forall s, I s -> I (f s)) -> maintains I E Q (modify f) p.
Proof. intros Hf s H. split; [exact (Hf s H)|constructor]. Qed.

Lemma maintains_bind {A B : Type} (c : M A) (k : A -> M B) :
  maintains I E Q c p -> (forall a, maintains I E Q (k a) p) ->
  maintains I E Q (bind c k) p.
Proof.
  intros Hc Hk s H. unfold bind. specialize (Hc s H).
  destruct (c p s) as [a s1 out1|e s1 out1]; [|exact Hc].
  destruct Hc as [Hs1 Ho1]. specialize (Hk a s1 Hs1).
  destruct (k a p s1); cbn [prepend]; destruct Hk as [Hs2 Ho2];
    (split; [exact Hs2|apply Forall_app; split; assumption]).
Qed.

Lemma maintains_when (b : bool) (c : M unit) :
  maintains I E Q c p -> maintains I E Q (when b c) p.
Proof. intros Hc. destruct b; [exact Hc|apply maintains_ret]. Qed.

Lemma maintains_try_catch (body handler : M unit) :
  maintains I E Q body p -> maintains I E Q handler p ->
  maintains I E Q (try_catch_hresult body handler) p.
Proof.
  intros Hb Hh s H. unfold try_catch_hresult. specialize (Hb s H).
  destruct (body p s) as [a s1 out1|e s1 out1]; [exact Hb|].
  destruct e; try exact Hb.
  destruct Hb as [Hs1 Ho1]. specialize (Hh s1 (caught s1 Hs1)).
  destruct (handler p s1); cbn [prepend]; destruct Hh as [Hs2 Ho2];
    (split; [exact Hs2|apply Forall_app; split; assumption]).
Qed.

End Maintains.

Create HintDb maintained.

(** Takes a member function apart along its binds and branches;
    [on_modify] shows that an assignment keeps the invariant and
    [on_emit] that an effect is allowed. *)
Ltac maintain on_modify on_emit :=
  repeat
    match goal with
    | |- maintains ?I ?E ?Q _ ?p =>
        first
          [ solve [auto 1 with nocore maintained]
          | (refine (@maintains_ret I E Q p _ _); fail)
          | refine (maintains_get I E Q p)
          | refine (maintains_ask I E Q p)
          | (refine (maintains_emit I E Q p _ _); on_emit)
          | (refine (@maintains_throw I E Q _ p _ _);
             intros [] ? ?; cbn; auto; fail)
          | refine (maintains_when I E Q p _ _ _)
          | (refine (@maintains_bind I E Q p _ _ _ _ _ _); [|intros ?])
          | (refine (maintains_try_catch I E Q _ p _ _ _ _);
             [intros ? ?; assumption| |])
          | match goal with
            | |- maintains _ _ _ (if ?b then _ else _) _ => destruct b
            | |- maintains _ _ _ (match ?x with _ => _ end) _ => destruct x
            end
          | (refine (maintains_modify I E Q p _ _);
             intros ? ?; on_modify; fail) ]
    end.

Section MaintainedWorld.

Variable mk : tm -> Z.
Variable I : PodBLECore -> Prop.
Variable E : exn -> PodBLECore -> Prop.
Variable Q : effect -> Prop.
Variable allowed : input -> Prop.

Hypothesis entries :
  forall i th c p,
    allowed i -> entry i th c -> this_thread p = th -> maintains I E Q c p.

Lemma maintained_exec (th : thread_id) (c : M unit) (w0 : World) :
  maintains I E Q c (platform mk th w0) ->
  I (session w0) ->
  holds_in I E (exec mk th c w0)
  /\ exists log,
      observed (exec mk th c w0) = observed w0 ++ log
      /\ Forall (fun te => Q (snd te)) log.
Proof.
  intros Hc Hs. specialize (Hc (session w0) Hs).
  unfold holds_in, exec. cbv zeta.
  cbn [session observed uncaught].
  destruct (c (platform mk th w0) (session w0)) as [a s1 out|e s1 out];
    cbn [state_of effects_of]; destruct Hc as [H1 H2];
    (split; [exact H1|]);
    (eexists; split; [reflexivity|]);
    apply Forall_map; exact H2.
Qed.

Lemma maintained_step (i : input) (w w' : World) :
  allowed i ->
  step mk i w = Some w' ->
  I (session w) ->
  holds_in I E w'
  /\ exists log,
      observed w' = observed w ++ log
      /\ Forall (fun te => Q (snd te)) log.
Proof.
  intros Hal Hstep Hs. unfold step in Hstep.
  destruct (uncaught w); [discriminate|].
  destruct i.
  - destruct (dt <? 0); inversion Hstep; subst.
    split; [exact Hs|]. exists []. cbn. rewrite app_nil_r.
    split; [reflexivity|constructor].
  - destruct (alive_ (session w)); inversion Hstep; subst.
    apply maintained_exec; [|exact Hs].
    apply (entries _ _ _ _ Hal (entry_call c)). reflexivity.
  - destruct (watcher_ (ble (session w))); inversion Hstep; subst.
    apply maintained_exec; [|exact Hs].
    apply (entries _ _ _ _ Hal (entry_advertisement localName addr rssi)).
    reflexivity.
  - destruct (connecting w) as [|address rest] eqn:Hcon;
      inversion Hstep; subst.
    match goal with
    | |- context [exec mk NotifyThread _ ?w0] =>
        apply (maintained_exec NotifyThread (ConnectAsync address a) w0)
    end; [|exact Hs].
    apply (entries _ _ _ _ Hal (entry_connect address a)). reflexivity.
  - destruct (notify_char_ (ble (session w))) as [[]|];
      inversion Hstep; subst.
    apply maintained_exec; [|exact Hs].
    apply (entries _ _ _ _ Hal (entry_notification data)). reflexivity.
  - destruct (nth_error (sleepers w) k) as [[due tk]|]; [|discriminate].
    destruct (due <=? clock w); inversion Hstep; subst.
    match goal with
    | |- context [exec mk DetachedThread _ ?w0] =>
        apply (maintained_exec DetachedThread (run_task tk) w0)
    end; [|exact Hs].
    apply (entries _ _ _ _ Hal (entry_task k tk)). reflexivity.
  - destruct (watchdog_thread_ (wdog (session w))
              && watchdog_running_ (wdog (session w)));
      inversion Hstep; subst.
    apply maintained_exec; [|exact Hs].
    apply (entries _ _ _ _ Hal entry_watchdog). reflexivity.
Qed.

Lemma maintained_run (inputs : list input) :
  forall w w',
    Forall allowed inputs ->
    run mk inputs w = Some w' ->
    holds_in I E w ->
    holds_in I E w'
    /\ exists log,
        observed w' = observed w ++ log
        /\ Forall (fun te => Q (snd te)) log.
Proof.
  induction inputs as [|i rest IH]; intros w w' Hall Hrun Hw;
    cbn [run] in Hrun.
  - inversion Hrun; subst. split; [exact Hw|].
    exists []. rewrite app_nil_r. split; [reflexivity|constructor].
  - destruct (step mk i w) as [w1|] eqn:Hstep; [|discriminate].
    inversion Hall as [|? ? Hi Hrest]; subst.
    assert (Hs : I (session w)).
    { unfold holds_in in Hw. unfold step in Hstep.
      destruct (uncaught w); [discriminate|exact Hw]. }
    destruct (maintained_step i w w1 Hi Hstep Hs) as (H1 & l1 & O1 & F1).
    destruct (IH w1 w' Hrest Hrun H1) as (H2 & l2 & O2 & F2).
    split; [exact H2|].
    exists (l1 ++ l2). rewrite O2, O1, app_assoc.
    split; [reflexivity|apply Forall_app; split; assumption].
Qed.

End MaintainedWorld.

Section WatchdogFlags.

Lemma flags_StopWatchdog (p : Platform) :
  maintains flags_agree (unless_joining flags_agree) any_effect
            StopWatchdog p.
Proof.
  intros s _.
  unfold StopWatchdog, bind, modify, get, ask, ret, throw, flags_agree.
  destruct s as [cb b am pk [r j l] al]. destruct p as [th now conv].
  cbn. destruct j, th; cbn; repeat split; constructor.
Qed.

End WatchdogFlags.

#[local] Hint Extern 0 (maintains flags_agree _ _ StopWatchdog _) =>
  simple apply flags_StopWatchdog : maintained.

Ltac flags_modify :=
  unfold flags_agree, size_noted in *; cbn in *;
  repeat match goal with
         | |- context [if ?b then _ else _] => destruct b
         end;
  cbn in *; first [assumption | reflexivity].

Section WatchdogFlagsWorld.

Lemma flags_entries (i : input) (th : thread_id) (c : M unit)
    (p : Platform) :
  True -> entry i th c -> this_thread p = th ->
  maintains flags_agree (unless_joining flags_agree) any_effect c p.
Proof.
  intros _ He _. destruct He.
  - destruct c; cbn [run_call].
    + unfold SetCallbacks. maintain flags_modify ltac:(exact Logic.I).
    + unfold StartScan. maintain flags_modify ltac:(exact Logic.I).
    + unfold StopScan. maintain flags_modify ltac:(exact Logic.I).
    + unfold Connect. maintain flags_modify ltac:(exact Logic.I).
    + unfold Disconnect. maintain flags_modify ltac:(exact Logic.I).
    + unfold WriteCommand. maintain flags_modify ltac:(exact Logic.I).
    + unfold DownloadFile. maintain flags_modify ltac:(exact Logic.I).
    + unfold CancelDownload. maintain flags_modify ltac:(exact Logic.I).
    + unfold Destroy. maintain flags_modify ltac:(exact Logic.I).
  - unfold OnAdvertisementReceived.
    maintain flags_modify ltac:(exact Logic.I).
  - unfold ConnectAsync, co_await.
    maintain flags_modify ltac:(exact Logic.I).
  - unfold OnValueChanged, ProcessPacket.
    maintain flags_modify ltac:(exact Logic.I).
  - unfold run_task. maintain flags_modify ltac:(exact Logic.I).
  - unfold watchdog_iteration. maintain flags_modify ltac:(exact Logic.I).
Qed.

End WatchdogFlagsWorld.

(** X17. On every session that no exception has ended, whatever has
    happened to it, the running flag of the watchdog is set exactly when
    its thread handle is joinable: [StopWatchdog] and [StartWatchdog] are
    the only writers and leave the two equal, and the watchdog thread ends
    by itself only through the exception of its forced [FinishMessage]. *)
Theorem watchdog_flag_follows_thread (mk : tm -> Z) (w : World) :
  reachable mk w ->
  uncaught w = None ->
  watchdog_running_ (wdog (session w))
  = watchdog_thread_ (wdog (session w)).
Proof.
  intros (t0 & inputs & Hrun) Hun.
  destruct (maintained_run mk flags_agree (unless_joining flags_agree)
              any_effect (fun _ => True) flags_entries
              inputs (boot t0) w) as [H _].
  - apply Forall_forall. intros; exact Logic.I.
  - exact Hrun.
  - reflexivity.
  - unfold holds_in in H. rewrite Hun in H. exact H.
Qed.

(** After a download request on the connected sample session. *)
Lemma watchdog_flag_follows_thread_witness :
  exists w,
    run mktime_utc (connect_inputs
                      ++ [HostCall (CallDownloadFile "REC" 0 0 1 1)])
        (boot 0) = Some w
    /\ watchdog_running_ (wdog (session w)) = true
    /\ watchdog_running_ (wdog (session w))
       = watchdog_thread_ (wdog (session w)).
Proof.
  eexists. split; [vm_compute; reflexivity|]. split; [reflexivity|].
  apply (watchdog_flag_follows_thread mktime_utc).
  - exists 0, (connect_inputs
                 ++ [HostCall (CallDownloadFile "REC" 0 0 1 1)]).
    vm_compute. reflexivity.
  - reflexivity.
Defined.

Section FilterFlag.

Ltac filter_modify :=
  unfold filter_flag_ok, size_noted in *; cbn in *;
  repeat match goal with
         | |- context [if ?b then _ else _] => destruct b
         end;
  cbn in *; first [assumption | reflexivity].

Lemma filter_entries (i : input) (th : thread_id) (c : M unit)
    (p : Platform) :
  True -> entry i th c -> this_thread p = th ->
  maintains filter_flag_ok (always filter_flag_ok) any_effect c p.
Proof.
  intros _ He _. destruct He.
  - destruct c; cbn [run_call].
    + unfold SetCallbacks. maintain filter_modify ltac:(exact Logic.I).
    + unfold StartScan. maintain filter_modify ltac:(exact Logic.I).
    + unfold StopScan. maintain filter_modify ltac:(exact Logic.I).
    + unfold Connect. maintain filter_modify ltac:(exact Logic.I).
    + unfold Disconnect. maintain filter_modify ltac:(exact Logic.I).
    + unfold WriteCommand. maintain filter_modify ltac:(exact Logic.I).
    + unfold DownloadFile. maintain filter_modify ltac:(exact Logic.I).
    + unfold CancelDownload. maintain filter_modify ltac:(exact Logic.I).
    + unfold Destroy. maintain filter_modify ltac:(exact Logic.I).
  - unfold OnAdvertisementReceived.
    maintain filter_modify ltac:(exact Logic.I).
  - unfold ConnectAsync, co_await.
    maintain filter_modify ltac:(exact Logic.I).
  - unfold OnValueChanged, ProcessPacket.
    maintain filter_modify ltac:(exact Logic.I).
  - unfold run_task. maintain filter_modify ltac:(exact Logic.I).
  - unfold watchdog_iteration. maintain filter_modify ltac:(exact Logic.I).
Qed.

End FilterFlag.

(** X18. On every session, whatever has happened to it, exception or
    not, Smart Peek filtering is switched on exactly when one of the two
    stored bounds is positive: [DownloadFile] is the only writer of the
    three members, and neither [Disconnect] nor [CancelDownload] nor the
    end of a message clears them. *)
Theorem filtering_iff_positive_bound (mk : tm -> Z) (w : World) :
  reachable mk w ->
  is_filtering_ (peek (session w))
  = (0 <? filter_start_ (peek (session w)))
    || (0 <? filter_end_ (peek (session w))).
Proof.
  intros (t0 & inputs & Hrun).
  destruct (maintained_run mk filter_flag_ok (always filter_flag_ok)
              any_effect (fun _ => True) filter_entries
              inputs (boot t0) w) as [H _].
  - apply Forall_forall. intros; exact Logic.I.
  - exact Hrun.
  - reflexivity.
  - unfold holds_in, always in H. destruct (uncaught w) as [[]|]; exact H.
Qed.

(** A filtered download followed by a disconnect. *)
Lemma filtering_iff_positive_bound_witness :
  exists w,
    run mktime_utc (connect_inputs
                      ++ [HostCall (CallDownloadFile "REC" 0 5 1 1);
                          HostCall CallDisconnect])
        (boot 0) = Some w
    /\ filter_end_ (peek (session w)) = 5
    /\ is_filtering_ (peek (session w))
       = (0 <? filter_start_ (peek (session w)))
         || (0 <? filter_end_ (peek (session w))).
Proof.
  eexists. split; [vm_compute; reflexivity|]. split; [reflexivity|].
  apply (filtering_iff_positive_bound mktime_utc).
  exists 0, (connect_inputs
               ++ [HostCall (CallDownloadFile "REC" 0 5 1 1);
                   HostCall CallDisconnect]).
  vm_compute. reflexivity.
Defined.

Section MessageShape.

Ltac shape_modify :=
  unfold message_shape, size_noted in *; cbn in *;
  repeat match goal with
         | |- context [if ?b then _ else _] => destruct b
         end;
  cbn in *;
  first [ assumption
        | (split; [lia|]);
          (split; [intros _; reflexivity|]);
          intros H0; exfalso; apply H0; reflexivity ].

Lemma prepend_nil {A : Type} (o : outcome A) : prepend [] o = o.
Proof. destruct o; reflexivity. Qed.

Lemma shape_FinishMessage (p : Platform) :
  maintains message_shape (always message_shape) any_effect
            FinishMessage p.
Proof.
  intros s Hs.
  assert (Hclosed : forall s0 : PodBLECore,
             message_shape (message_closed s0)).
  { intros s0. unfold message_shape. cbn.
    split; [lia|]. split; [intros _; reflexivity|].
    intros H0. exfalso. apply H0. reflexivity. }
  destruct p as [th now conv].
  destruct (watchdog_thread_ (wdog s)) eqn:Hj.
  - destruct th;
      match goal with
      | |- context [Build_Platform WatchdogThread] =>
          pose proof (FinishMessage_self now conv s Hj) as HF
      | |- context [Build_Platform ?th0] =>
          pose proof (FinishMessage_elsewhere now conv th0 s
                        ltac:(discriminate)) as HF
      end;
      unfold on_thread in HF; rewrite HF;
      (split; [first [apply Hclosed|exact Hs]
              |destruct (on_payload_ (callbacks s)); repeat constructor]).
  - assert (HS : StopWatchdog {| this_thread := th; steady_now := now;
                                 mktime := conv |} s
                 = Ret tt (watchdog_stopped s) []).
    { unfold StopWatchdog, watchdog_stopped, bind, modify, get, ask, ret.
      cbn. rewrite Hj. cbn.
      destruct s as [c b a pk [r j l] al]. cbn in *. subst j.
      reflexivity. }
    unfold FinishMessage. rewrite (bind_Ret _ _ _ _ _ _ _ HS).
    unfold bind, modify, get, emit, ret, when. cbn.
    destruct (on_payload_ (callbacks s)); cbn;
      (split; [apply (Hclosed (watchdog_stopped s))|repeat constructor]).
Qed.

#[local] Hint Extern 0 (maintains message_shape _ _ FinishMessage _) =>
  simple apply shape_FinishMessage : maintained.

Lemma shape_after_fragment (p : Platform) :
  maintains message_shape (always message_shape) any_effect
            after_fragment p.
Proof.
  unfold after_fragment. maintain shape_modify ltac:(exact Logic.I).
Qed.

Lemma shape_ProcessPacket (f : list byte) (p : Platform) :
  maintains message_shape (always message_shape) any_effect
            (ProcessPacket f) p.
Proof.
  intros s Hs. unfold ProcessPacket.
  destruct (size f <? 5); [split; [exact Hs|constructor]|].
  assert (Hn : message_shape (size_noted f s)) by shape_modify.
  erewrite bind_Ret by reflexivity. rewrite prepend_nil.
  erewrite bind_Ret by reflexivity. rewrite prepend_nil.
  destruct (received_packet_count_ (asm (size_noted f s)) =? 0) eqn:Hr.
  - destruct (size f <? 9); [split; [exact Hn|constructor]|].
    apply Z.eqb_eq in Hr.
    destruct (Z.lt_ge_cases (estimatedSize (announced f (size_noted f s))) 0)
      as [Hneg|Hok].
    + (* the reservation throws: the buffer is cleared, nothing counted *)
      rewrite (bind_Exc _ _ _ _ _ _ _ (first_fragment_throws p f _ Hneg)).
      split; [|constructor].
      unfold always, message_shape. cbn. rewrite Hr.
      split; [lia|]. split; [reflexivity|].
      intros H0. exfalso. apply H0. reflexivity.
    + rewrite (bind_Ret _ _ _ _ _ _ _ (first_fragment_opens p f _ Hok)).
      rewrite prepend_nil.
      apply shape_after_fragment.
      unfold message_shape. cbn. split; [lia|].
      split; [discriminate|]. intros _. eexists. reflexivity.
  - apply Z.eqb_neq in Hr.
    erewrite bind_Ret by reflexivity. rewrite prepend_nil.
    apply shape_after_fragment.
    destruct Hn as (H0 & _ & H2).
    destruct (H2 Hr) as [rest Hbuf].
    unfold message_shape. cbn. split; [lia|].
    split; [intros; lia|].
    intros _. rewrite Hbuf. eexists. reflexivity.
Qed.

#[local] Hint Extern 0 (maintains message_shape _ _ (ProcessPacket _) _) =>
  simple apply shape_ProcessPacket : maintained.

Lemma shape_entries (i : input) (th : thread_id) (c : M unit)
    (p : Platform) :
  True -> entry i th c -> this_thread p = th ->
  maintains message_shape (always message_shape) any_effect c p.
Proof.
  intros _ He _. destruct He.
  - destruct c; cbn [run_call].
    + unfold SetCallbacks. maintain shape_modify ltac:(exact Logic.I).
    + unfold StartScan. maintain shape_modify ltac:(exact Logic.I).
    + unfold StopScan. maintain shape_modify ltac:(exact Logic.I).
    + unfold Connect. maintain shape_modify ltac:(exact Logic.I).
    + unfold Disconnect. maintain shape_modify ltac:(exact Logic.I).
    + unfold WriteCommand. maintain shape_modify ltac:(exact Logic.I).
    + unfold DownloadFile. maintain shape_modify ltac:(exact Logic.I).
    + unfold CancelDownload. maintain shape_modify ltac:(exact Logic.I).
    + unfold Destroy. maintain shape_modify ltac:(exact Logic.I).
  - unfold OnAdvertisementReceived.
    maintain shape_modify ltac:(exact Logic.I).
  - unfold ConnectAsync, co_await.
    maintain shape_modify ltac:(exact Logic.I).
  - unfold OnValueChanged. maintain shape_modify ltac:(exact Logic.I).
  - unfold run_task. maintain shape_modify ltac:(exact Logic.I).
  - unfold watchdog_iteration. maintain shape_modify ltac:(exact Logic.I).
Qed.

End MessageShape.

Lemma reachable_shape (mk : tm -> Z) (w : World) :
  reachable mk w -> message_shape (session w).
Proof.
  intros (t0 & inputs & Hrun).
  destruct (maintained_run mk message_shape (always message_shape)
              any_effect (fun _ => True) shape_entries
              inputs (boot t0) w) as [H _].
  - apply Forall_forall. intros; exact Logic.I.
  - exact Hrun.
  - unfold holds_in, boot, message_shape. cbn.
    split; [lia|]. split; [intros _; reflexivity|].
    intros H0. exfalso. apply H0. reflexivity.
  - unfold holds_in, always in H.
    destruct (uncaught w) as [[]|]; exact H.
Qed.

(** X19. On every session, whatever has happened to it, an exception
    included: while no fragment is counted, the buffer is empty; while
    fragments are counted, the buffer begins with the type byte of the
    message, so a reassembled payload always carries its type in front.
    (The expected count may be left standing with no fragment counted: a
    first fragment whose size estimate is negative stores the count, and
    the reservation throws before the fragment is counted.) *)
Theorem buffer_begins_with_type (mk : tm -> Z) (w : World) :
  reachable mk w ->
  (received_packet_count_ (asm (session w)) = 0 ->
   payload_buffer_ (asm (session w)) = [])
  /\ (received_packet_count_ (asm (session w)) <> 0 ->
      exists rest,
        payload_buffer_ (asm (session w))
        = current_message_type_ (asm (session w)) :: rest).
Proof.
  intros Hreach. exact (proj2 (reachable_shape mk w Hreach)).
Qed.

(** Two fragments of a three-fragment message on the connected sample
    session; and a first fragment whose count is negative, on which the
    reservation throws. *)
Lemma buffer_begins_with_type_witness :
  (exists w,
      run mktime_utc (connect_inputs
                        ++ [Notification (short_head x03);
                            Notification (tail3 x01 x02 x03)])
          (boot 0) = Some w
      /\ received_packet_count_ (asm (session w)) = 2
      /\ exists rest,
          payload_buffer_ (asm (session w))
          = current_message_type_ (asm (session w)) :: rest)
  /\ (exists w,
        run mktime_utc (connect_inputs ++ [Notification negative_head])
            (boot 0) = Some w
        /\ uncaught w = Some (NotifyThread, length_error)
        /\ total_expected_packets_ (asm (session w)) = -100
        /\ received_packet_count_ (asm (session w)) = 0
        /\ payload_buffer_ (asm (session w)) = []).
Proof.
  split.
  - eexists. split; [vm_compute; reflexivity|]. split; [reflexivity|].
    refine (proj2 (buffer_begins_with_type mktime_utc _ _) _).
    + exists 0, (connect_inputs
                   ++ [Notification (short_head x03);
                       Notification (tail3 x01 x02 x03)]).
      vm_compute. reflexivity.
    + discriminate.
  - eexists. split; [vm_compute; reflexivity|].
    split; [reflexivity|]. split; [reflexivity|]. split; [reflexivity|].
    refine (proj1 (buffer_begins_with_type mktime_utc _ _) _).
    + exists 0, (connect_inputs ++ [Notification negative_head]).
      vm_compute. reflexivity.
    + reflexivity.
Defined.

(** ** Smart Peek runs once *)

Section PeekOnce.

Variable pk : SmartPeek.
Hypothesis examined : is_smart_peek_done_ pk = true.

Ltac once_modify :=
  unfold peek_is, size_noted in *; cbn in *;
  repeat match goal with
         | |- context [if ?b then _ else _] => destruct b
         end;
  cbn in *; assumption.

Ltac once_emit := unfold no_skip_signal; discriminate.

Lemma once_after_fragment (p : Platform) :
  maintains (peek_is pk) (always (peek_is pk)) no_skip_signal
            after_fragment p.
Proof.
  intros s Hs.
  assert (Hq : peek_due s = false).
  { apply quiet_done. unfold peek_is in Hs. rewrite Hs. exact examined. }
  rewrite (after_fragment_quiet p s Hq).
  split; [exact Hs|].
  destruct (complete s); repeat constructor. once_emit.
Qed.

#[local] Hint Extern 0 (maintains (peek_is _) _ _ after_fragment _) =>
  simple apply once_after_fragment : maintained.

Lemma once_entries (i : input) (th : thread_id) (c : M unit)
    (p : Platform) :
  from_outside i = true -> entry i th c -> this_thread p = th ->
  maintains (peek_is pk) (always (peek_is pk)) no_skip_signal c p.
Proof.
  intros Hi He _. destruct He.
  - discriminate Hi.
  - unfold OnAdvertisementReceived. maintain once_modify once_emit.
  - unfold ConnectAsync, co_await, PreventSleep, status.
    maintain once_modify once_emit.
  - unfold OnValueChanged, ProcessPacket. maintain once_modify once_emit.
  - unfold run_task. maintain once_modify once_emit.
  - unfold watchdog_iteration. maintain once_modify once_emit.
Qed.

End PeekOnce.

(** X20. Smart Peek examines one message per request.  Once it has run,
    the flag that records it is cleared only by a call of the host
    ([DownloadFile], [CancelDownload], [Disconnect]): the end of a message
    leaves it set.  So through any run of notifications, wake-ups,
    watchdog turns, advertisements and connection results, the filter
    members stay as they are and no cancellation starts: a second
    recording that arrives in the same request is reassembled whatever
    its time span. *)
Theorem smart_peek_examines_one_message (mk : tm -> Z)
    (inputs : list input) (w w' : World) :
  run mk inputs w = Some w' ->
  forallb from_outside inputs = true ->
  is_smart_peek_done_ (peek (session w)) = true ->
  peek (session w') = peek (session w)
  /\ exists log,
      observed w' = observed w ++ log
      /\ Forall (fun te => snd te <> Detach 600 SkipSignal) log.
Proof.
  intros Hrun Hin Hdone.
  destruct (maintained_run mk (peek_is (peek (session w)))
              (always (peek_is (peek (session w)))) no_skip_signal
              (fun i => from_outside i = true)
              (once_entries (peek (session w)) Hdone)
              inputs w w') as [H Hlog].
  - apply Forall_forall. rewrite forallb_forall in Hin. exact Hin.
  - exact Hrun.
  - unfold holds_in, always, peek_is.
    destruct (uncaught w) as [[]|]; reflexivity.
  - split; [|exact Hlog].
    unfold holds_in, always, peek_is in H.
    destruct (uncaught w') as [[]|]; exact H.
Qed.

(** The recording examined in [peeked 1 0] completes and is delivered; a
    second recording head follows in the same request. *)
Lemma smart_peek_examines_one_message_witness :
  exists w',
    run mktime_utc
        [Notification (tail3 x01 x02 x03);
         Notification (tail3 x01 x02 x03);
         TimePasses 50; Wakes 0;
         Notification (recording_head x03)] (peeked 1 0) = Some w'
    /\ received_packet_count_ (asm (session w')) = 1
    /\ peek (session w') = peek (session (peeked 1 0))
    /\ exists log,
        observed w' = observed (peeked 1 0) ++ log
        /\ Forall (fun te => snd te <> Detach 600 SkipSignal) log.
Proof.
  eexists. split; [vm_compute; reflexivity|]. split; [reflexivity|].
  apply (smart_peek_examines_one_message mktime_utc
           [Notification (tail3 x01 x02 x03);
            Notification (tail3 x01 x02 x03);
            TimePasses 50; Wakes 0;
            Notification (recording_head x03)]).
  - vm_compute. reflexivity.
  - reflexivity.
  - vm_compute. reflexivity.
Defined.

(** ** Settling threads *)

(** X21. A settling thread that wakes on a session with no fragment
    counted still calls [FinishMessage], which hands the empty buffer to
    the payload callback: a fragment that arrives after the expected count
    is reached, within the 50 ms of settling, starts a second settling
    thread, and the host receives an empty payload after the message. *)
Theorem settling_on_a_closed_message (mk : tm -> Z) (due : Z) (k : nat)
    (w : World) :
  reachable mk w ->
  uncaught w = None ->
  nth_error (sleepers w) k = Some (due, SettleFinish) ->
  due <= clock w ->
  alive_ (session w) = true ->
  on_payload_ (callbacks (session w)) = true ->
  received_packet_count_ (asm (session w)) = 0 ->
  exists w',
    step mk (Wakes k) w = Some w'
    /\ payloads w' = payloads w ++ [(clock w, [])]
    /\ uncaught w' = None.
Proof.
  intros Hreach Hun Hk Hdue Hal Hpl Hrec.
  destruct (reachable_shape mk w Hreach) as (_ & Hidle & _).
  pose proof (Hidle Hrec) as Hbuf.
  destruct (settle_finish_wakes mk due k w Hun Hk Hdue Hal)
    as (w' & Hstep & _ & _ & _ & Hp & Hu).
  exists w'. rewrite Hpl, Hbuf in Hp. auto.
Qed.

(** The second settling thread of [late_fragment]: the message went out
    with the late bytes, an empty payload follows. *)
Lemma settling_on_a_closed_message_witness :
  payloads late_fragment = [(50, [x01; xaa; xbb; x01; x02; x03])]
  /\ exists w',
      step mktime_utc (Wakes 0) late_fragment = Some w'
      /\ payloads w' = payloads late_fragment ++ [(clock late_fragment, [])]
      /\ uncaught w' = None.
Proof.
  split; [vm_compute; reflexivity|].
  apply (settling_on_a_closed_message mktime_utc 50 0 late_fragment).
  - exists 0, (connect_inputs
                 ++ [Notification (short_head x01);
                     Notification (tail3 x01 x02 x03);
                     TimePasses 50; Wakes 0]).
    vm_compute. reflexivity.
  - vm_compute. reflexivity.
  - vm_compute. reflexivity.
  - vm_compute. discriminate.
  - vm_compute. reflexivity.
  - vm_compute. reflexivity.
  - vm_compute. reflexivity.
Defined.

(** ** The stuck-transfer rule *)

(** X22. For counts up to 256 the stuck-transfer test of the watchdog,
    made in double precision, is the exact comparison
    [50 * received > 49 * expected].  So on a message of at most 50
    fragments that still misses one, the rule never fires, and the
    watchdog finalizes only after 60 s of silence. *)
Theorem stuck_rule_in_integers (elapsed : Z) (s : PodBLECore) :
  1 <= total_expected_packets_ (asm s) <= 256 ->
  0 <= received_packet_count_ (asm s) <= 256 ->
  watchdog_forces elapsed s
  = (60000 <? elapsed)
    || ((2500 <? elapsed)
        && (49 * total_expected_packets_ (asm s)
            <? 50 * received_packet_count_ (asm s)))
  /\ (total_expected_packets_ (asm s) <= 50 ->
      received_packet_count_ (asm s) < total_expected_packets_ (asm s) ->
      watchdog_forces elapsed s = (60000 <? elapsed)).
Proof.
  intros He Hr.
  assert (H : watchdog_forces elapsed s
              = (60000 <? elapsed)
                || ((2500 <? elapsed)
                    && (49 * total_expected_packets_ (asm s)
                        <? 50 * received_packet_count_ (asm s)))).
  { unfold watchdog_forces, progress.
    rewrite (progress_test_exact _ _ Hr He).
    destruct (Z.ltb_spec 0 (total_expected_packets_ (asm s))); [|lia].
    reflexivity. }
  split; [exact H|].
  intros Hsmall Hmiss. rewrite H.
  destruct (Z.ltb_spec (49 * total_expected_packets_ (asm s))
                       (50 * received_packet_count_ (asm s))); [lia|].
  rewrite andb_false_r, orb_false_r. reflexivity.
Qed.

(** One fragment of three received. *)
Lemma stuck_rule_in_integers_witness :
  watchdog_forces 30000 (peeking 0 5) = false.
Proof.
  destruct (stuck_rule_in_integers 30000 (peeking 0 5)) as [_ H].
  - cbn. lia.
  - cbn. lia.
  - rewrite H; [reflexivity|cbn; lia|cbn; lia].
Defined.

(** ** Connection results *)

(** X23. A connection attempt always runs to its end, whatever the
    transport answers and whichever await fails, and reports exactly one
    of four statuses when a status callback is set; it leaves the
    reassembly state, the filter, the watchdog, the callbacks and the
    liveness flag as they were. *)
Theorem ConnectAsync_reports_once (address : Z) (a : GattAnswers)
    (p : Platform) (s : PodBLECore) :
  exists s' out m,
    ConnectAsync address a p s = Ret tt s' out
    /\ In m ["Device Not Found"; "Service Not Found"; "Connected";
             "Connection Error"]%string
    /\ statuses out = (if on_status_ (callbacks s) then [m] else [])
    /\ asm s' = asm s /\ peek s' = peek s /\ wdog s' = wdog s
    /\ callbacks s' = callbacks s /\ alive_ s' = alive_ s.
Proof.
  destruct a as [df sf nf ne wf fa].
  destruct s as [[st sc pl] [w d wc nc] am pk wd al].
  destruct fa as [[|[|[|[|[|j]]]]]|];
    destruct df, sf, nf, ne, wf, st, wc;
    do 3 eexists;
    (split; [vm_compute; reflexivity|]);
    (split; [|repeat split; reflexivity]);
    cbn; tauto.
Qed.

(** X24. With the device and the service found and no await failing, the
    attempt reports "Connected" whether or not the two characteristics
    exist and whether or not the subscription succeeds.  A handle that is
    not found keeps its previous value, so the buffer-clearing command
    0x08 is written exactly when a write characteristic was found now or
    left by an earlier connection. *)
Theorem connected_whatever_the_characteristics (address : Z)
    (a : GattAnswers) (p : Platform) (s : PodBLECore) :
  device_found a = true ->
  services_found a = true ->
  failing_await a = None ->
  exists s' out,
    ConnectAsync address a p s = Ret tt s' out
    /\ statuses out = (if on_status_ (callbacks s)
                       then ["Connected"%string] else [])
    /\ device_ (ble s') = true
    /\ write_char_ (ble s') = write_found a || write_char_ (ble s)
    /\ notify_char_ (ble s')
       = (if notify_found a then Some (notify_enabled a)
          else notify_char_ (ble s))
    /\ writes out = (if write_found a || write_char_ (ble s)
                     then [[x08]] else []).
Proof.
  destruct a as [df sf nf ne wf fa]. cbn. intros -> -> ->.
  destruct s as [[st sc pl] [w d wc nc] am pk wd al].
  destruct nf, ne, wf, st, wc;
    do 2 eexists;
    (split; [vm_compute; reflexivity|]);
    repeat split; reflexivity.
Qed.

(** A second attempt on the connected sample session, towards a service
    without characteristics: "Connected" is reported and the handles of
    the first connection stay in use. *)
Lemma connected_whatever_the_characteristics_witness :
  exists s' out,
    ConnectAsync 1 bare_service (on_thread NotifyThread 0 mktime_utc)
                 (session connected) = Ret tt s' out
    /\ statuses out = ["Connected"%string]
    /\ device_ (ble s') = true
    /\ write_char_ (ble s') = true
    /\ notify_char_ (ble s') = Some true
    /\ writes out = [[x08]].
Proof.
  exact (connected_whatever_the_characteristics 1 bare_service
           (on_thread NotifyThread 0 mktime_utc) (session connected)
           eq_refl eq_refl eq_refl).
Defined.

(** ** The method-call handler *)

Section HandlerFacts.

Lemma method_unknown (m name : string) :
  ~ In m methods -> In name methods -> String.eqb m name = false.
Proof.
  intros Hm Hn. destruct (String.eqb_spec m name) as [->|]; [|reflexivity].
  contradiction.
Qed.

Lemma Connect_rejected (text : string) (e : exn) (p : Platform)
    (s : PodBLECore) :
  ParseAddress text = Throw e ->
  Connect text p s
  = Exc e (set_ble {| watcher_ := false; device_ := device_ (ble s);
                      write_char_ := write_char_ (ble s);
                      notify_char_ := notify_char_ (ble s) |} s)
        (if on_status_ (callbacks s) then [Status "Connecting..."] else []).
Proof.
  intros H. unfold Connect, StopScan, bind, modify, get, when, emit, ret,
              throw.
  cbn -[ParseAddress].
  destruct (on_status_ (callbacks s)); cbn -[ParseAddress]; rewrite H;
    reflexivity.
Qed.

End HandlerFacts.

(** X25. [connect], [writeCommand] and [downloadFile] called without
    arguments, or with arguments of another alternative than the string,
    the byte list and the map that they expect, are answered with the
    error [INVALID_ARG]; the core is not called: the session is unchanged
    and nothing is emitted. *)
Theorem wrong_arguments_are_refused (args : option EncodableValue)
    (p : Platform) (s : PodBLECore) :
  ((forall t, args <> Some (EvString t)) ->
   HandleMethodCall {| method_name := "connect"; arguments := args |} p s
   = Replied (ReplyError "INVALID_ARG" "Device ID required") s [])
  /\ ((forall b, args <> Some (EvUint8List b)) ->
      HandleMethodCall {| method_name := "writeCommand";
                          arguments := args |} p s
      = Replied (ReplyError "INVALID_ARG" "Byte array required") s [])
  /\ ((forall m, args <> Some (EvMap m)) ->
      HandleMethodCall {| method_name := "downloadFile";
                          arguments := args |} p s
      = Replied (ReplyError "INVALID_ARG" "Download arguments required")
                s []).
Proof.
  repeat split; intros H; destruct args as [[]|];
    try reflexivity; exfalso; eapply H; reflexivity.
Qed.

(** [connect] with a number, [writeCommand] with a string, [downloadFile]
    with no arguments. *)
Lemma wrong_arguments_are_refused_witness :
  HandleMethodCall {| method_name := "connect";
                      arguments := Some (EvInt64 11) |}
                   (on_thread HostThread 0 mktime_utc) (session connected)
  = Replied (ReplyError "INVALID_ARG" "Device ID required")
            (session connected) []
  /\ HandleMethodCall {| method_name := "writeCommand";
                         arguments := Some (EvInt64 11) |}
                      (on_thread HostThread 0 mktime_utc)
                      (session connected)
     = Replied (ReplyError "INVALID_ARG" "Byte array required")
               (session connected) []
  /\ HandleMethodCall {| method_name := "downloadFile";
                         arguments := Some (EvInt64 11) |}
                      (on_thread HostThread 0 mktime_utc)
                      (session connected)
     = Replied (ReplyError "INVALID_ARG" "Download arguments required")
               (session connected) [].
Proof.
  destruct (wrong_arguments_are_refused (Some (EvInt64 11))
              (on_thread HostThread 0 mktime_utc) (session connected))
    as (H1 & H2 & H3).
  split; [apply H1; discriminate|].
  split; [apply H2; discriminate|apply H3; discriminate].
Defined.

(** X26. A method name outside the eight that the handler compares
    with, character for character, is answered [NotImplemented], whatever
    its arguments; the core is not called. *)
Theorem other_methods_are_not_implemented (m : string)
    (args : option EncodableValue) (p : Platform) (s : PodBLECore) :
  ~ In m methods ->
  HandleMethodCall {| method_name := m; arguments := args |} p s
  = Replied ReplyNotImplemented s [].
Proof.
  intros Hm. unfold HandleMethodCall. cbn [method_name].
  rewrite !(method_unknown m _ Hm) by (cbn; tauto).
  reflexivity.
Qed.

(** The name of a method in another case. *)
Lemma other_methods_are_not_implemented_witness :
  HandleMethodCall {| method_name := "StartScan"; arguments := None |}
                   (on_thread HostThread 0 mktime_utc) (session connected)
  = Replied ReplyNotImplemented (session connected) [].
Proof.
  apply other_methods_are_not_implemented.
  cbn. intros H.
  repeat (destruct H as [H|H]; [discriminate H|]). exact H.
Defined.

(** X27. [downloadFile] reads [filterStart] with [std::get<int64_t>]: a
    map in which that key holds another alternative, such as the 32-bit
    integer, makes [std::bad_variant_access] leave the handler; the call
    is not answered and the core is not called. *)
Theorem downloadFile_bound_of_another_alternative
    (m : list (EncodableValue * EncodableValue)) (v : EncodableValue)
    (p : Platform) (s : PodBLECore) :
  (map_find "filename" m = None
   \/ exists f, map_find "filename" m = Some (EvString f)) ->
  map_find "filterStart" m = Some v ->
  (forall n, v <> EvInt64 n) ->
  HandleMethodCall {| method_name := "downloadFile";
                      arguments := Some (EvMap m) |} p s
  = Unanswered bad_variant_access s [].
Proof.
  intros Hf Hs Hv. unfold HandleMethodCall.
  cbn [method_name arguments String.eqb Ascii.eqb Bool.eqb].
  cbv zeta. rewrite Hs.
  assert (Hget : read get_int64 0 (Some v) = None).
  { destruct v; try reflexivity. exfalso. eapply Hv. reflexivity. }
  rewrite Hget.
  destruct Hf as [->|[f ->]]; reflexivity.
Qed.

(** A request whose lower bound is the small integer 0. *)
Lemma downloadFile_bound_of_another_alternative_witness :
  HandleMethodCall
    {| method_name := "downloadFile";
       arguments := Some (EvMap [(EvString "filename", EvString "REC");
                                 (EvString "filterStart", EvInt32 0);
                                 (EvString "filterEnd", EvInt64 5)]) |}
    (on_thread HostThread 0 mktime_utc) (session connected)
  = Unanswered bad_variant_access (session connected) [].
Proof.
  apply (downloadFile_bound_of_another_alternative _ (EvInt32 0)).
  - right. exists "REC"%string. reflexivity.
  - reflexivity.
  - discriminate.
Defined.

(** X28. [connect] with a string is answered with success exactly when
    the string parses; then the request for the parsed address has been
    made.  When [std::stoul] rejects a token, its exception leaves the
    handler: the call is never answered, although the scan has been
    stopped and "Connecting..." has been reported. *)
Theorem connect_is_answered_iff_parsed (text : string) (p : Platform)
    (s : PodBLECore) :
  HandleMethodCall {| method_name := "connect";
                      arguments := Some (EvString text) |} p s
  = let s0 := set_ble {| watcher_ := false; device_ := device_ (ble s);
                         write_char_ := write_char_ (ble s);
                         notify_char_ := notify_char_ (ble s) |} s in
    let told := if on_status_ (callbacks s)
                then [Status "Connecting..."] else [] in
    match ParseAddress text with
    | Ok addr => Replied ReplySuccess s0 (told ++ [ConnectRequest addr])
    | Throw e => Unanswered (core_exn e) s0 told
    end.
Proof.
  unfold HandleMethodCall.
  cbn [method_name arguments String.eqb Ascii.eqb Bool.eqb].
  cbv zeta.
  destruct (ParseAddress text) as [addr|e] eqn:H.
  - rewrite (Connect_parsed text addr p s H). reflexivity.
  - rewrite (Connect_rejected text e p s H). reflexivity.
Qed.

(** X29. [downloadFile] with a map that has none of the five keys is
    accepted with the defaults: the file with the empty name is requested
    (0x06, 0x20 and 32 zero bytes), no filter is set and the watchdog is
    started. *)
Theorem downloadFile_defaults
    (m : list (EncodableValue * EncodableValue)) (t : Z) (mk : tm -> Z)
    (s : PodBLECore) :
  map_find "filename" m = None ->
  map_find "filterStart" m = None ->
  map_find "filterEnd" m = None ->
  map_find "totalFiles" m = None ->
  map_find "currentIndex" m = None ->
  exists s',
    HandleMethodCall {| method_name := "downloadFile";
                        arguments := Some (EvMap m) |}
                     (on_thread HostThread t mk) s
    = Replied ReplySuccess s'
              (if write_char_ (ble s)
               then [GattWrite ([x06; x20] ++ repeat x00 32)] else [])
    /\ peek s' = {| filter_start_ := 0; filter_end_ := 0;
                    is_filtering_ := false; is_smart_peek_done_ := false |}
    /\ watchdog_running_ (wdog s') = true.
Proof.
  intros H1 H2 H3 H4 H5. unfold HandleMethodCall.
  cbn [method_name arguments String.eqb Ascii.eqb Bool.eqb].
  cbv zeta. rewrite H1, H2, H3, H4, H5.
  cbn [read or_throw].
  rewrite (DownloadFile_on_host t mk s "" 0 0 1 1).
  eexists. split; [reflexivity|]. split; reflexivity.
Qed.

(** The empty map on the connected sample session. *)
Lemma downloadFile_defaults_witness :
  exists s',
    HandleMethodCall {| method_name := "downloadFile";
                        arguments := Some (EvMap []) |}
                     (on_thread HostThread 0 mktime_utc)
                     (session connected)
    = Replied ReplySuccess s' [GattWrite ([x06; x20] ++ repeat x00 32)]
    /\ peek s' = {| filter_start_ := 0; filter_end_ := 0;
                    is_filtering_ := false; is_smart_peek_done_ := false |}
    /\ watchdog_running_ (wdog s') = true.
Proof.
  exact (downloadFile_defaults [] 0 mktime_utc (session connected)
           eq_refl eq_refl eq_refl eq_refl eq_refl).
Defined.
